(** * aistudy: the AI-backed quiz generation pipeline and the quiz session controller

    A shallow embedding of
      - [src/types.ts]                 (the data model),
      - [src/services/geminiService.ts] ([withRetry], [generateQuizPrompt], [generateQuiz]),
      - [src/App.tsx]                  ([startQuiz], [handleQuizCompletion], ...),
    followed by the properties proved about them.

    Conventions.
      - JavaScript strings are [string]s; template literals are written out
        with [++].  The double quote character is [dq], a line feed is [nl].
      - Array indices and counters are integers ([Z]); the one place where the
        code computes with fractions ([score / questions.length * 100]) is
        evaluated in IEEE 754 binary64 through [SpecFloat].
      - Run-time built-ins that the repository only calls
        ([String.prototype.toLowerCase], [String.prototype.trim], [JSON.parse],
        the provider's [generateContent]) are [Variable]s of the section that
        uses them. *)

From Stdlib Require Import ZArith List String Ascii Bool Lia.
From Stdlib Require Import SpecFloat DecimalString.
From Equations Require Import Equations.
Import ListNotations.

Local Open Scope list_scope.
Local Open Scope string_scope.
Local Open Scope Z_scope.

(* ===================================================================== *)
(** * Strings                                                             *)
(* ===================================================================== *)

Module Str.

(** The double quote and the line feed of the template literals. *)
Definition dq : string := String (ascii_of_nat 34) EmptyString.
Definition nl : string := String (ascii_of_nat 10) EmptyString.

(** [s.includes(sub)]: [sub] occurs in [s] at some position. *)
Fixpoint includes (s sub : string) : bool :=
  if prefix sub s then true
  else match s with
       | EmptyString => false
       | String _ s' => includes s' sub
       end.

(** [parts.join(sep)]. *)
Fixpoint join (sep : string) (parts : list string) : string :=
  match parts with
  | [] => EmptyString
  | [p] => p
  | p :: rest => p ++ sep ++ join sep rest
  end.

End Str.

Import Str.


(* ===================================================================== *)
(** * Data model ([src/types.ts])                                         *)
(* ===================================================================== *)

Inductive Exam := JEE | NEET.

Inductive Subject := Physics | Chemistry | Maths | Biology.

Inductive DifficultyLevel := Level3_Boards | Level2_MainsNEET | Level1_Advanced.

(** The string literal each member of the three union types stands for;
    this is what a template literal interpolates. *)
Definition Exam_text (e : Exam) : string :=
  match e with JEE => "JEE" | NEET => "NEET" end.

Definition Subject_text (s : Subject) : string :=
  match s with
  | Physics => "Physics" | Chemistry => "Chemistry"
  | Maths => "Maths" | Biology => "Biology"
  end.

Definition DifficultyLevel_text (l : DifficultyLevel) : string :=
  match l with
  | Level3_Boards => "Level 3: Boards"
  | Level2_MainsNEET => "Level 2: Mains/NEET"
  | Level1_Advanced => "Level 1: Advanced"
  end.

Record QuizConfig := {
  exam : Exam;
  subject : Subject;
  topic : string;
  level : DifficultyLevel;
  mergeTopic : option string          (* [mergeTopic?: string] *)
}.

Record ResourceLink := { title : string; url : string }.

Record Question := {
  question : string;
  options : list string;
  correctAnswerIndex : Z;
  explanation : string;
  sourceHint : option string;
  resourceLink : option ResourceLink
}.

(** What reading [answers[i]] of a [(number | null)[]] can give: a slot
    beyond the end of the array reads as [undefined]. *)
Inductive slot := undefined | null | num (n : Z).

(** [IncorrectAnswer extends Question].  [userAnswerIndex] is declared
    [number], but [handleQuizCompletion] fills it with [answers[i]!], which
    is whatever the slot holds; the later [filter] removes the [null] ones. *)
Record IncorrectAnswer := {
  asQuestion :> Question;
  userAnswerIndex : slot
}.

Inductive QuizState := idle | loading | active | finished.

Record QuizHistoryItem := {
  id : Z;
  config : QuizConfig;
  score : Z;
  totalQuestions : Z;
  percentage : spec_float;            (* the result of [Math.round] *)
  date : Z
}.

(** [arr[i]] for an integer [i]: [None] is [undefined]. *)
Definition at_index {A : Type} (arr : list A) (i : Z) : option A :=
  if i <? 0 then None else nth_error arr (Z.to_nat i).

(** [arr[k]] where the key is the content of a slot: [null] and [undefined]
    are not indices, the lookup gives [undefined]. *)
Definition at_slot {A : Type} (arr : list A) (k : slot) : option A :=
  match k with
  | num n => at_index arr n
  | null | undefined => None
  end.

(** [answers[i]] for the answer array of the quiz view. *)
Definition answer_at (answers : list (option Z)) (i : Z) : slot :=
  match at_index answers i with
  | None => undefined
  | Some None => null
  | Some (Some n) => num n
  end.

(** Interpolation [${v}] of a possibly undefined string. *)
Definition interpolate (v : option string) : string :=
  match v with Some s => s | None => "undefined" end.

(* ===================================================================== *)
(** * Prompt builder ([generateQuizPrompt])                               *)
(* ===================================================================== *)

Module Prompt.

(** The fixed rules of lines 113-120 of the service. *)
Definition rules : string :=
  nl ++
  "- For 'Level 1: Advanced', the questions should be highly challenging, multi-concept, and analytical, similar to those in the JEE Advanced paper." ++
  nl ++
  "- For 'Level 2: Mains/NEET', questions should test core concepts with medium difficulty." ++
  nl ++
  "- For 'Level 3: Boards', questions should be straightforward and knowledge-based." ++
  nl ++
  "- IMPORTANT: For any mathematical equations or symbols, use standard LaTeX formatting. Use $...$ for inline equations (e.g., $E=mc^2$) and $$...$$ for block equations that should appear on their own line." ++
  nl ++
  "- For each question, provide a 'sourceHint' string that briefly describes the core concept being tested (e.g., 'Concept: Conservation of Momentum')." ++
  nl ++
  "- For each question, also provide a 'resourceLink' object containing a 'title' (e.g., " ++
  dq ++
  "Khan Academy: Intro to Projectile Motion" ++
  dq ++
  ") and a 'url'. The URL must point to a reputable, public, and free-to-access webpage (like a university site, Khan Academy, GeeksforGeeks, Physics Classroom, etc.) where the user can read more about the underlying concept. Do not provide links that are behind a paywall, require a login, or are from dubious sources. The URL must be a full, valid, and working link. Do not invent URLs." ++
  nl.

(** The opening sentence, line 98. *)
Definition opening (c : QuizConfig) : string :=
  "Generate a 20-question multiple-choice quiz for a student preparing for the "
    ++ Exam_text (exam c) ++ " exam. The subject is " ++ Subject_text (subject c) ++ ".".

(** Lines 100-104. *)
Definition topicSentence (c : QuizConfig) : string :=
  if String.eqb (topic c) "Foundational Concepts" then
    " The quiz should cover a mix of the most important, foundational, and frequently tested concepts from the entire "
      ++ Subject_text (subject c) ++ " syllabus for " ++ Exam_text (exam c) ++ "."
  else
    " The primary topic is " ++ dq ++ topic c ++ dq ++ ".".

(** Line 106. *)
Definition levelSentence (c : QuizConfig) : string :=
  " The difficulty should be appropriate for " ++ DifficultyLevel_text (level c) ++ ".".

(** Lines 109-111; [if (config.mergeTopic)] is a truthiness test, so the
    empty string counts as absent. *)
Definition mergeSentence (c : QuizConfig) : string :=
  match mergeTopic c with
  | Some m =>
      if String.eqb m "" then ""
      else " Please also incorporate concepts from the secondary topic " ++ dq ++ m ++ dq
             ++ " to create some multi-concept questions that test the integration of both topics."
  | None => ""
  end.

(** The callback of [incorrectAnswers.map], line 124. *)
Definition mistakeLine (ans : IncorrectAnswer) : string :=
  "- Question: " ++ dq ++ question ans ++ dq ++ nl
    ++ "  My incorrect answer: " ++ dq
    ++ interpolate (at_slot (options ans) (userAnswerIndex ans)) ++ dq ++ nl
    ++ "  Correct answer: " ++ dq
    ++ interpolate (at_index (options ans) (correctAnswerIndex ans)) ++ dq.

(** Line 127, the block appended for a retry. *)
Definition mistakeBlock (incorrectAnswers : list IncorrectAnswer) : string :=
  let mistakes := join nl (map mistakeLine incorrectAnswers) in
  nl ++ "I previously took a quiz on this topic and made these mistakes:" ++ nl ++ nl
    ++ mistakes ++ nl ++ nl
    ++ "Please generate a new, different quiz that specifically targets the concepts I'm struggling with based on these mistakes. The questions should be related but not identical.".

(** [generateQuizPrompt(config, incorrectAnswers?)]; the absent argument is
    [None].  Each [let] is one [prompt += ...] of the source. *)
Definition generateQuizPrompt (c : QuizConfig)
    (incorrectAnswers : option (list IncorrectAnswer)) : string :=
  let prompt := opening c in
  let prompt := prompt ++ topicSentence c in
  let prompt := prompt ++ levelSentence c in
  let prompt := prompt ++ mergeSentence c in
  let prompt := prompt ++ rules in
  let prompt :=
    match incorrectAnswers with
    | Some ias =>
        if (0 <? Z.of_nat (List.length ias)) then prompt ++ mistakeBlock ias else prompt
    | None => prompt
    end in
  prompt.

(** What a non-empty mistake list adds to the prompt (a name for the
    statements below). *)
Definition retrySuffix (incorrectAnswers : option (list IncorrectAnswer)) : string :=
  match incorrectAnswers with
  | Some (a :: rest) => mistakeBlock (a :: rest)
  | _ => EmptyString
  end.

End Prompt.

Import Prompt.

(* ===================================================================== *)
(** * Errors, outcomes and effects                                        *)
(* ===================================================================== *)

(** A value caught by [catch (error)]: either an instance of [Error], with
    its [name] and [message], or anything else, with what [String(error)]
    gives for it. *)
Inductive thrown :=
| ErrorObject (name message : string)
| OtherValue (rendering : string).

(** How a call ends: the promise resolves or rejects. *)
Inductive outcome (A : Type) :=
| Returned (a : A)
| Thrown (e : thrown).
Arguments Returned {A} a.
Arguments Thrown {A} e.

(** The observable steps of the invoker: one call of the wrapped operation,
    one [setTimeout] wait of [ms] milliseconds.  Console output is left out.
    [ms] is the delay the code computes, as an integer.  The code computes it
    as a binary64 number and the timer keeps its delay in 32 bits, so [ms] is
    the time waited only up to [maxTimerDelay] below; the default
    [maxRetries] of 3 stays far under it. *)
Inductive effect :=
| Invoked
| Slept (ms : Z).

(** [new Error(message)]. *)
Definition newError (message : string) : thrown := ErrorObject "Error" message.

(* ===================================================================== *)
(** * Resilient invoker ([withRetry])                                     *)
(* ===================================================================== *)

Section Invoker.

(** [String.prototype.toLowerCase]. *)
Variable toLowerCase : string -> string.

(** The state the wrapped operation runs against (the provider, the
    network) and the type of its result. *)
Context {W T : Type}.

(** Line 25. *)
Definition errorMessage (error : thrown) : string :=
  match error with
  | ErrorObject _ message => toLowerCase message
  | OtherValue rendering => toLowerCase rendering
  end.

(** Lines 27-31. *)
Definition isTransientError (errorMessage : string) : bool :=
  includes errorMessage "500" ||
  includes errorMessage "503" ||
  includes errorMessage "rpc failed" ||
  includes errorMessage "network error" ||
  includes errorMessage "xhr error".

Definition serviceUnavailable : thrown :=
  newError "The AI service is currently unavailable. Please try again in a few moments.".

(** Lines 39-45: what the [else] branch throws. *)
Definition finalError (error : thrown) (transient : bool) : thrown :=
  if transient then serviceUnavailable
  else match error with
       | ErrorObject _ message =>
           newError ("An unexpected error occurred while communicating with the AI service. Details: "
                       ++ message)
       | OtherValue _ =>
           newError "An unknown error occurred while communicating with the AI service."
       end.

(** The [while (true)] loop of [withRetry], entered with the current value
    of [attempt].  It returns how the call ended, the effects in order and
    the state the operation left.  [attempt + 1] is the counter after
    [attempt++]; the test [isTransientError && attempt < maxRetries] of line 33
    is made comparison first, so that the retry is visibly bounded by
    [maxRetries - attempt]: with attempts left a transient failure waits and
    retries and any other failure is raised wrapped, with none left the
    [else] branch of line 37 raises by [finalError]. *)
Equations? withRetry_loop (apiCall : W -> outcome T * W) (maxRetries attempt : Z) (w : W)
  : outcome T * list effect * W by wf (Z.to_nat (maxRetries - attempt)) lt :=
  withRetry_loop apiCall maxRetries attempt w with apiCall w => {
    | (Returned r, w1) := (Returned r, [Invoked], w1);
    | (Thrown error, w1) with Z_lt_dec (attempt + 1) maxRetries => {
        | left _ :=
            if isTransientError (errorMessage error) then
              let delay := 1000 * 2 ^ (attempt + 1 - 1) in
              let '(r, effects, w2) := withRetry_loop apiCall maxRetries (attempt + 1) w1 in
              (r, Invoked :: Slept delay :: effects, w2)
            else
              (Thrown (finalError error false), [Invoked], w1);
        | right _ :=
            (Thrown (finalError error (isTransientError (errorMessage error))), [Invoked], w1) } }.
Proof. lia. Qed.

(** [withRetry(apiCall, maxRetries)]: [let attempt = 0] and the loop. *)
Definition withRetry (apiCall : W -> outcome T * W) (maxRetries : Z) (w : W)
  : outcome T * list effect * W :=
  withRetry_loop apiCall maxRetries 0 w.

(** The default [maxRetries = 3]. *)
Definition defaultMaxRetries : Z := 3.

(** Number of calls of the operation in a run. *)
Definition calls (effects : list effect) : nat :=
  List.length (filter (fun e => match e with Invoked => true | Slept _ => false end) effects).

(** The waits of a run, in order. *)
Definition delays (effects : list effect) : list Z :=
  flat_map (fun e => match e with Invoked => [] | Slept ms => [ms] end) effects.

End Invoker.

(** The effects of a run in which every call fails transiently, entered
    at [attempt] with [more] retries to come: a call and a wait of
    [1000 * 2^(attempt' - 1)] per retry, [attempt'] being the incremented
    counter, then the last call. *)
Fixpoint backoffEffects (attempt : Z) (more : nat) : list effect :=
  match more with
  | O => [Invoked]
  | S k => Invoked :: Slept (1000 * 2 ^ (attempt + 1 - 1)) :: backoffEffects (attempt + 1) k
  end.

(* ===================================================================== *)
(** * Quiz generation ([generateQuiz])                                    *)
(* ===================================================================== *)

(** A value produced by [JSON.parse].  Numbers are kept as integers: the
    response schema declares every number of a quiz as [Type.INTEGER]. *)
#[local] Unset Elimination Schemes.
Inductive json :=
| JNull
| JBool (b : bool)
| JNumber (n : Z)
| JString (s : string)
| JArray (items : list json)
| JObject (members : list (string * json)).
#[local] Set Elimination Schemes.

(** [Array.isArray(v)]. *)
Definition Array_isArray (v : json) : bool :=
  match v with JArray _ => true | _ => false end.

(** [v.length] of an array, as tested after [Array.isArray]. *)
Definition json_length (v : json) : Z :=
  match v with JArray items => Z.of_nat (List.length items) | _ => 0 end.

(** [o[key]] on a parsed object. *)
Fixpoint member (key : string) (members : list (string * json)) : option json :=
  match members with
  | [] => None
  | (k, v) :: rest => if String.eqb k key then Some v else member key rest
  end.

Definition field (v : json) (key : string) : option json :=
  match v with JObject members => member key members | _ => None end.

(** The three response schemas of the service, by name. *)
Inductive Schema := quizSchema | suggestionsSchema | improvementSuggestionsSchema.

(** The argument of [ai.models.generateContent]. *)
Record GenerateContentRequest := {
  model : string;
  contents : string;
  responseMimeType : string;
  responseSchema : Schema
}.

(** The provider's response; its [text] may be [undefined]. *)
Record GenerateContentResponse := { text : option string }.

(** What the engine throws for [undefined.trim()]. *)
Definition undefinedTextError : thrown :=
  ErrorObject "TypeError" "Cannot read properties of undefined (reading 'trim')".

Definition invalidQuizFormat : thrown := newError "AI returned an invalid quiz format.".

Section Generation.

Variable toLowerCase : string -> string.

(** [String.prototype.trim]. *)
Variable trim : string -> string.

(** [JSON.parse]: the parsed value, or the message of the [SyntaxError]. *)
Variable JSON_parse : string -> string + json.

(** The provider and the state it runs against. *)
Context {W : Type}.
Variable generateContent : GenerateContentRequest -> W -> outcome GenerateContentResponse * W.

(** The request of lines 136-143. *)
Definition quizRequest (prompt : string) : GenerateContentRequest :=
  {| model := "gemini-2.5-flash";
     contents := prompt;
     responseMimeType := "application/json";
     responseSchema := quizSchema |}.

(** Lines 135-143: the one run of the invoker inside [generateQuiz]. *)
Definition invoked (c : QuizConfig) (incorrectAnswers : option (list IncorrectAnswer)) (w : W)
  : outcome GenerateContentResponse * list effect * W :=
  let prompt := generateQuizPrompt c incorrectAnswers in
  withRetry toLowerCase (generateContent (quizRequest prompt)) defaultMaxRetries w.

(** Lines 145-152: the statements of the [try] block after the call. *)
Definition parseQuiz (response : GenerateContentResponse) : outcome json :=
  match text response with
  | None => Thrown undefinedTextError
  | Some t =>
      let jsonText := trim t in
      match JSON_parse jsonText with
      | inl message => Thrown (ErrorObject "SyntaxError" message)
      | inr quizData =>
          if negb (Array_isArray quizData) || (json_length quizData =? 0)
          then Thrown invalidQuizFormat
          else Returned quizData
      end
  end.

(** Lines 153-160: the [catch] block. *)
Definition rethrow {A : Type} (r : outcome A) : outcome A :=
  match r with
  | Returned a => Returned a
  | Thrown (ErrorObject name message) => Thrown (ErrorObject name message)
  | Thrown (OtherValue _) =>
      Thrown (newError "An unknown error occurred while generating the quiz.")
  end.

(** [generateQuiz(config, incorrectAnswers?)]: how it ends, the effects of
    its invoker in order, and the state the provider is left in. *)
Definition generateQuiz (c : QuizConfig) (incorrectAnswers : option (list IncorrectAnswer))
    (w : W) : outcome json * list effect * W :=
  let '(r, effects, w1) := invoked c incorrectAnswers w in
  let body :=
    match r with
    | Returned response => parseQuiz response
    | Thrown e => Thrown e
    end in
  (rethrow body, effects, w1).

End Generation.



(* ===================================================================== *)
(** * JavaScript numbers for the percentage                               *)
(* ===================================================================== *)

Module Number.

(** binary64. *)
Definition prec : Z := 53.
Definition emax : Z := 1024.

(** An integer as a number (exact below 2^53). *)
Definition of_Z (z : Z) : spec_float := binary_normalize prec emax z 0 false.

Definition div (x y : spec_float) : spec_float := SFdiv prec emax x y.
Definition mul (x y : spec_float) : spec_float := SFmul prec emax x y.

(** [Math.round]: the integer nearest to [x], ties towards +infinity;
    NaN, the infinities and the zeros are returned as they are, and a
    negative [x] that rounds to zero gives -0. *)
Definition Math_round (x : spec_float) : spec_float :=
  match x with
  | S754_finite s m e =>
      if 0 <=? e then x
      else
        let d := 2 ^ (- e) in
        let twice := if s then - (2 * Z.pos m) else 2 * Z.pos m in
        binary_normalize prec emax ((twice + d) / (2 * d)) 0 s
  | _ => x
  end.

(** The integer nearest to [a / b] for [0 <= a] and [0 < b], ties upwards:
    the mathematical [round (a / b)]. *)
Definition round_div (a b : Z) : Z := (2 * a + b) / (2 * b).

End Number.

(* ===================================================================== *)
(** * Quiz session controller ([src/App.tsx])                             *)
(* ===================================================================== *)

(** The React state of [App] together with the ref [isSubmittingRef]. *)
Record AppState := {
  quizConfig : option QuizConfig;
  questions : list Question;
  userAnswers : list (option Z);
  incorrectAnswers : list IncorrectAnswer;
  quizState : QuizState;
  error : option string;
  quizHistory : list QuizHistoryItem;
  showHistory : bool;
  isSubmitting : bool;
  isSubmittingRef : bool
}.

Definition setQuizConfig (v : option QuizConfig) (s : AppState) : AppState :=
  {| quizConfig := v; questions := questions s; userAnswers := userAnswers s;
     incorrectAnswers := incorrectAnswers s; quizState := quizState s; error := error s;
     quizHistory := quizHistory s; showHistory := showHistory s;
     isSubmitting := isSubmitting s; isSubmittingRef := isSubmittingRef s |}.

Definition setQuestions (v : list Question) (s : AppState) : AppState :=
  {| quizConfig := quizConfig s; questions := v; userAnswers := userAnswers s;
     incorrectAnswers := incorrectAnswers s; quizState := quizState s; error := error s;
     quizHistory := quizHistory s; showHistory := showHistory s;
     isSubmitting := isSubmitting s; isSubmittingRef := isSubmittingRef s |}.

Definition setUserAnswers (v : list (option Z)) (s : AppState) : AppState :=
  {| quizConfig := quizConfig s; questions := questions s; userAnswers := v;
     incorrectAnswers := incorrectAnswers s; quizState := quizState s; error := error s;
     quizHistory := quizHistory s; showHistory := showHistory s;
     isSubmitting := isSubmitting s; isSubmittingRef := isSubmittingRef s |}.

Definition setIncorrectAnswers (v : list IncorrectAnswer) (s : AppState) : AppState :=
  {| quizConfig := quizConfig s; questions := questions s; userAnswers := userAnswers s;
     incorrectAnswers := v; quizState := quizState s; error := error s;
     quizHistory := quizHistory s; showHistory := showHistory s;
     isSubmitting := isSubmitting s; isSubmittingRef := isSubmittingRef s |}.

Definition setQuizState (v : QuizState) (s : AppState) : AppState :=
  {| quizConfig := quizConfig s; questions := questions s; userAnswers := userAnswers s;
     incorrectAnswers := incorrectAnswers s; quizState := v; error := error s;
     quizHistory := quizHistory s; showHistory := showHistory s;
     isSubmitting := isSubmitting s; isSubmittingRef := isSubmittingRef s |}.

Definition setError (v : option string) (s : AppState) : AppState :=
  {| quizConfig := quizConfig s; questions := questions s; userAnswers := userAnswers s;
     incorrectAnswers := incorrectAnswers s; quizState := quizState s; error := v;
     quizHistory := quizHistory s; showHistory := showHistory s;
     isSubmitting := isSubmitting s; isSubmittingRef := isSubmittingRef s |}.

Definition setQuizHistory (v : list QuizHistoryItem) (s : AppState) : AppState :=
  {| quizConfig := quizConfig s; questions := questions s; userAnswers := userAnswers s;
     incorrectAnswers := incorrectAnswers s; quizState := quizState s; error := error s;
     quizHistory := v; showHistory := showHistory s;
     isSubmitting := isSubmitting s; isSubmittingRef := isSubmittingRef s |}.

Definition setShowHistory (v : bool) (s : AppState) : AppState :=
  {| quizConfig := quizConfig s; questions := questions s; userAnswers := userAnswers s;
     incorrectAnswers := incorrectAnswers s; quizState := quizState s; error := error s;
     quizHistory := quizHistory s; showHistory := v;
     isSubmitting := isSubmitting s; isSubmittingRef := isSubmittingRef s |}.

Definition setIsSubmitting (v : bool) (s : AppState) : AppState :=
  {| quizConfig := quizConfig s; questions := questions s; userAnswers := userAnswers s;
     incorrectAnswers := incorrectAnswers s; quizState := quizState s; error := error s;
     quizHistory := quizHistory s; showHistory := showHistory s;
     isSubmitting := v; isSubmittingRef := isSubmittingRef s |}.

(** [isSubmittingRef.current = v]. *)
Definition assignIsSubmittingRef (v : bool) (s : AppState) : AppState :=
  {| quizConfig := quizConfig s; questions := questions s; userAnswers := userAnswers s;
     incorrectAnswers := incorrectAnswers s; quizState := quizState s; error := error s;
     quizHistory := quizHistory s; showHistory := showHistory s;
     isSubmitting := isSubmitting s; isSubmittingRef := v |}.

(** The state of the first render; [history] is what the storage effect
    loaded. *)
Definition initialState (history : list QuizHistoryItem) : AppState :=
  {| quizConfig := None; questions := []; userAnswers := []; incorrectAnswers := [];
     quizState := idle; error := None; quizHistory := history; showHistory := false;
     isSubmitting := false; isSubmittingRef := false |}.

(** ** Array methods with an index *)

(** [arr.map((x, i) => f(x, i))], the index starting at [i]. *)
Fixpoint mapi_from {A B : Type} (i : Z) (f : A -> Z -> B) (arr : list A) : list B :=
  match arr with
  | [] => []
  | x :: rest => f x i :: mapi_from (i + 1) f rest
  end.

(** [arr.filter((x, i) => p(x, i))]; a callback that throws ([None]) ends
    the whole call. *)
Fixpoint filteri_from {A : Type} (i : Z) (p : A -> Z -> option bool) (arr : list A)
  : option (list A) :=
  match arr with
  | [] => Some []
  | x :: rest =>
      match p x i with
      | None => None
      | Some keep =>
          match filteri_from (i + 1) p rest with
          | None => None
          | Some kept => Some (if keep then x :: kept else kept)
          end
      end
  end.

(** [arr.reduce((acc, x, i) => f(acc, x, i), acc)]; a callback that throws
    ends the whole call. *)
Fixpoint reducei_from {A B : Type} (i : Z) (f : B -> A -> Z -> option B) (acc : B)
    (arr : list A) : option B :=
  match arr with
  | [] => Some acc
  | x :: rest =>
      match f acc x i with
      | None => None
      | Some acc' => reducei_from (i + 1) f acc' rest
      end
  end.

(** ** Strict comparisons of a slot *)

(** [a !== null]. *)
Definition is_not_null (a : slot) : bool :=
  match a with null => false | _ => true end.

(** [a === n] for a number [n]. *)
Definition strict_eq_num (a : slot) (n : Z) : bool :=
  match a with num k => k =? n | _ => false end.

(** ** [handleQuizCompletion] *)

(** What the engine throws for [questions[i].correctAnswerIndex] when
    [questions[i]] is [undefined]. *)
Definition undefinedQuestionError : thrown :=
  ErrorObject "TypeError" "Cannot read properties of undefined (reading 'correctAnswerIndex')".

(** Lines 67-69. *)
Definition incorrectOf (questions : list Question) (answers : list (option Z))
  : option (list IncorrectAnswer) :=
  filteri_from 0
    (fun _ i =>
       if is_not_null (answer_at answers i) then
         match at_index questions i with
         | Some q => Some (negb (strict_eq_num (answer_at answers i) (correctAnswerIndex q)))
         | None => None
         end
       else Some false)
    (mapi_from 0
       (fun q i => {| asQuestion := q; userAnswerIndex := answer_at answers i |})
       questions).

(** Lines 72-74. *)
Definition scoreOf (questions : list Question) (answers : list (option Z)) : option Z :=
  reducei_from 0
    (fun acc answer index =>
       match at_index questions index with
       | Some q =>
           Some (if strict_eq_num (match answer with Some n => num n | None => null end)
                                  (correctAnswerIndex q)
                 then acc + 1 else acc)
       | None => None
       end)
    0 answers.

(** Line 82: [Math.round((score / questions.length) * 100)]. *)
Definition percentageOf (score : Z) (total : Z) : spec_float :=
  Number.Math_round
    (Number.mul (Number.div (Number.of_Z score) (Number.of_Z total)) (Number.of_Z 100)).

(** [handleQuizCompletion(answers)]; [now1] and [now2] are the two readings
    of [Date.now()].  A [TypeError] leaves the updates made before it. *)
Definition handleQuizCompletion (answers : list (option Z)) (now1 now2 : Z) (s : AppState)
  : outcome unit * AppState :=
  let qs := questions s in
  let cfg := quizConfig s in
  let s := setUserAnswers answers s in
  match incorrectOf qs answers with
  | None => (Thrown undefinedQuestionError, s)
  | Some incorrect =>
      let s := setIncorrectAnswers incorrect s in
      match scoreOf qs answers with
      | None => (Thrown undefinedQuestionError, s)
      | Some sc =>
          let s :=
            match cfg with
            | Some c =>
                let newHistoryItem :=
                  {| id := now1;
                     config := c;
                     score := sc;
                     totalQuestions := Z.of_nat (List.length qs);
                     percentage := percentageOf sc (Z.of_nat (List.length qs));
                     date := now2 |} in
                setQuizHistory (newHistoryItem :: quizHistory s) s
            | None => s
            end in
          (Returned tt, setQuizState finished s)
      end
  end.

(** ** [startQuiz] *)

(** A call of [generateQuiz] that has been issued and has not settled. *)
Record GenerateCall := {
  call_config : QuizConfig;
  call_incorrectAnswers : option (list IncorrectAnswer)
}.

(** Lines 43-51: [startQuiz] up to its [await].  It gives the state it leaves
    and the generation call it issues, if any. *)
Definition startQuiz_begin (c : QuizConfig) (isRetry : bool) (s : AppState)
  : AppState * option GenerateCall :=
  if isSubmittingRef s then (s, None)
  else
    let call :=
      {| call_config := c;
         call_incorrectAnswers := if isRetry then Some (incorrectAnswers s) else None |} in
    let s := assignIsSubmittingRef true s in
    let s := setIsSubmitting true s in
    let s := setQuizConfig (Some c) s in
    let s := setQuizState loading s in
    let s := setError None s in
    let s := setShowHistory false s in
    (s, Some call).

(** Lines 52-62: [startQuiz] from the moment its call settles. *)
Definition startQuiz_resume (r : outcome (list Question)) (s : AppState) : AppState :=
  let s :=
    match r with
    | Returned generatedQuestions =>
        let s := setQuestions generatedQuestions s in
        let s := setUserAnswers [] s in
        let s := setIncorrectAnswers [] s in
        setQuizState active s
    | Thrown e =>
        let s :=
          setError (Some (match e with
                          | ErrorObject _ message => message
                          | OtherValue _ => "An unknown error occurred."
                          end)) s in
        setQuizState idle s
    end in
  let s := setIsSubmitting false s in
  assignIsSubmittingRef false s.

(** ** The other handlers *)

Definition handleNewTopic (s : AppState) : AppState :=
  let s := setQuizConfig None s in
  let s := setQuestions [] s in
  let s := setUserAnswers [] s in
  let s := setIncorrectAnswers [] s in
  let s := setQuizState idle s in
  let s := setError None s in
  setShowHistory false s.

(** [confirmed] is the answer of [window.confirm]. *)
Definition handleClearHistory (confirmed : bool) (s : AppState) : AppState :=
  if confirmed then setQuizHistory [] s else s.

(** ** The session as a transition system *)

(** The application state and the [generateQuiz] calls that [startQuiz] has
    issued and that have not settled.  The suggestion calls of the results
    view are not part of a session; [Application] below adds them. *)
Record Session := {
  appState : AppState;
  inflight : list GenerateCall
}.

(** What can happen to a session: the callbacks the views are given, and
    the settling of a call in flight. *)
Inductive event :=
| OnStartQuiz (c : QuizConfig)                           (* [startQuiz(config)] *)
| OnTryAgain                                             (* [handleTryAgain] *)
| OnNewTopic                                             (* [handleNewTopic] *)
| OnQuizComplete (answers : list (option Z)) (now1 now2 : Z)
| OnClearHistory (confirmed : bool)
| OnShowHistory (v : bool)
| Settled (n : nat) (r : outcome (list Question)).       (* the [n]-th call in flight settles *)

(** A start request: the state after [startQuiz_begin], with the issued call
    added to those in flight. *)
Definition request (c : QuizConfig) (isRetry : bool) (x : Session) : Session :=
  let '(s, issued) := startQuiz_begin c isRetry (appState x) in
  {| appState := s;
     inflight := match issued with
                 | Some call => inflight x ++ [call]
                 | None => inflight x
                 end |}.

Fixpoint remove_nth {A : Type} (n : nat) (l : list A) : list A :=
  match n, l with
  | _, [] => []
  | O, _ :: rest => rest
  | S k, x :: rest => x :: remove_nth k rest
  end.

Definition dispatch (x : Session) (e : event) : Session :=
  match e with
  | OnStartQuiz c => request c false x
  | OnTryAgain =>
      match quizConfig (appState x) with
      | Some c => request c true x
      | None => x
      end
  | OnNewTopic => {| appState := handleNewTopic (appState x); inflight := inflight x |}
  | OnQuizComplete answers now1 now2 =>
      {| appState := snd (handleQuizCompletion answers now1 now2 (appState x)); inflight := inflight x |}
  | OnClearHistory confirmed =>
      {| appState := handleClearHistory confirmed (appState x); inflight := inflight x |}
  | OnShowHistory v => {| appState := setShowHistory v (appState x); inflight := inflight x |}
  | Settled n r =>
      match nth_error (inflight x) n with
      | Some _ => {| appState := startQuiz_resume r (appState x); inflight := remove_nth n (inflight x) |}
      | None => x
      end
  end.

Definition initialSession (history : list QuizHistoryItem) : Session :=
  {| appState := initialState history; inflight := [] |}.

(** The session after a sequence of events. *)
Definition run (history : list QuizHistoryItem) (events : list event) : Session :=
  fold_left dispatch events (initialSession history).

(** A session the application can be in. *)
Definition reachable (x : Session) : Prop :=
  exists history events, x = run history events.

(** ** The partition of the questions in words *)

(** The incorrect answers as the specification words them: walking the
    questions and the recorded answers side by side, a question is kept, with
    the chosen index, when its answer is a number other than its
    [correctAnswerIndex]; a question whose answer is [null] is skipped. *)
Fixpoint answeredWrong (questions : list Question) (answers : list (option Z))
  : list IncorrectAnswer :=
  match questions, answers with
  | q :: qs, Some n :: rest =>
      if n =? correctAnswerIndex q then answeredWrong qs rest
      else {| asQuestion := q; userAnswerIndex := num n |} :: answeredWrong qs rest
  | _ :: qs, None :: rest => answeredWrong qs rest
  | _, _ => []
  end.

(** The number of positions at which the answer equals the question's
    [correctAnswerIndex]. *)
Fixpoint matches (questions : list Question) (answers : list (option Z)) : Z :=
  match questions, answers with
  | q :: qs, a :: rest =>
      (match a with
       | Some n => if n =? correctAnswerIndex q then 1 else 0
       | None => 0
       end) + matches qs rest
  | _, _ => 0
  end.

(** ** Example data *)

(** An incorrect answer whose two indices index into its options: the
    hypothesis under which the retry prompt quotes option texts. *)
Definition indexesIntoOptions (a : IncorrectAnswer) : Prop :=
  exists chosen correct,
    at_slot (options a) (userAnswerIndex a) = Some chosen /\
    at_index (options a) (correctAnswerIndex a) = Some correct.

Module Examples.

Definition kinematics : QuizConfig :=
  {| exam := JEE; subject := Physics; topic := "Kinematics";
     level := Level3_Boards; mergeTopic := None |}.

Definition q_units : Question :=
  {| question := "What is the SI unit of acceleration?";
     options := ["m/s"; "m/s^2"; "N"; "J"];
     correctAnswerIndex := 1;
     explanation := "Acceleration is the rate of change of velocity.";
     sourceHint := Some "Concept: Units";
     resourceLink := None |}.

(** [q_units] answered with option 0. *)
Definition missed_units : IncorrectAnswer :=
  {| asQuestion := q_units; userAnswerIndex := num 0 |}.

(** [toLowerCase] on ASCII text. *)
Definition asciiLower (ch : ascii) : ascii :=
  let n := nat_of_ascii ch in
  if (Nat.leb 65 n && Nat.leb n 90)%bool then ascii_of_nat (n + 32) else ch.

Fixpoint asciiLowerCase (s : string) : string :=
  match s with
  | EmptyString => EmptyString
  | String ch rest => String (asciiLower ch) (asciiLowerCase rest)
  end.

(** An operation that is down: every call fails with a 503.  The state
    counts the calls made. *)
Definition alwaysUnavailable (w : nat) : outcome unit * nat :=
  (Thrown (newError "503 Service Unavailable"), S w).

(** An operation that fails with a message no heuristic matches. *)
Definition badApiKey (w : nat) : outcome unit * nat :=
  (Thrown (newError "API key not valid"), S w).

(** An operation that rejects with a value that is not an [Error]. *)
Definition rejectsWithString (w : nat) : outcome unit * nat :=
  (Thrown (OtherValue "boom"), S w).

(** [trim] on ASCII text: space, tab, line feed, vertical tab, form feed and
    carriage return are removed at both ends. *)
Definition asciiSpace (ch : ascii) : bool :=
  let n := nat_of_ascii ch in
  (Nat.eqb n 32 || (Nat.leb 9 n && Nat.leb n 13))%bool.

Fixpoint asciiTrimStart (s : string) : string :=
  match s with
  | EmptyString => EmptyString
  | String ch rest => if asciiSpace ch then asciiTrimStart rest else s
  end.

Fixpoint asciiTrimEnd (s : string) : string :=
  match s with
  | EmptyString => EmptyString
  | String ch rest =>
      let kept := asciiTrimEnd rest in
      if (asciiSpace ch && String.eqb kept EmptyString)%bool then EmptyString
      else String ch kept
  end.

Definition asciiTrim (s : string) : string := asciiTrimEnd (asciiTrimStart s).

(** A response text that is a one-question quiz with two options and the
    correct index 5; every field the schema requires is present and has
    the type the schema declares. *)
Definition shortQuizText : string :=
  "[{" ++ dq ++ "question" ++ dq ++ ":" ++ dq ++ "q" ++ dq ++ ","
       ++ dq ++ "options" ++ dq ++ ":[" ++ dq ++ "a" ++ dq ++ "," ++ dq ++ "b" ++ dq ++ "],"
       ++ dq ++ "correctAnswerIndex" ++ dq ++ ":5,"
       ++ dq ++ "explanation" ++ dq ++ ":" ++ dq ++ "e" ++ dq ++ "}]".

(** What [JSON.parse] gives for [shortQuizText]. *)
Definition shortQuiz : json :=
  JArray [JObject [("question", JString "q");
                   ("options", JArray [JString "a"; JString "b"]);
                   ("correctAnswerIndex", JNumber 5);
                   ("explanation", JString "e")]].

(** [JSON.parse] on the texts used below; any other text is reported as a
    syntax error. *)
Definition parseKnown (s : string) : string + json :=
  if String.eqb s "[]" then inr (JArray [])
  else if String.eqb s shortQuizText then inr shortQuiz
  else inl "Unexpected token".

(** A provider that answers every request with the given text.  The state
    counts the requests. *)
Definition answering (t : string) (_ : GenerateContentRequest) (w : nat)
  : outcome GenerateContentResponse * nat :=
  (Returned {| text := Some t |}, S w).

(** A quiz of 40 questions in progress, and an answer array with 23 right
    answers (option 1) followed by 17 wrong ones (option 0). *)
Definition fortyQuestions : list Question := repeat q_units 40.

Definition answers23of40 : list (option Z) := repeat (Some 1) 23 ++ repeat (Some 0) 17.

Definition activeForty : AppState :=
  setQuizState active
    (setQuestions fortyQuestions (setQuizConfig (Some kinematics) (initialState []))).

End Examples.

(** The re-entrancy guard as a property of a session: the ref is set
    exactly while a [generateQuiz] call of [startQuiz] is in flight, and then
    there is one such call. *)
Definition guarded (x : Session) : Prop :=
  if isSubmittingRef (appState x)
  then exists call, inflight x = [call]
  else inflight x = [].

(* ===================================================================== *)
(** * More of the invoker: runs that recover                              *)
(* ===================================================================== *)

Section Recovery.

Variable toLowerCase : string -> string.
Context {W T : Type}.
Variable apiCall : W -> outcome T * W.

(** [failsTransiently k w w']: from state [w] the operation fails [k] times
    in a row with a failure classified transient, and is then in state [w']. *)
Inductive failsTransiently : nat -> W -> W -> Prop :=
| failsTransiently_0 (w : W) : failsTransiently 0 w w
| failsTransiently_S (k : nat) (w w1 w' : W) (error : thrown) :
    apiCall w = (Thrown error, w1) ->
    isTransientError (errorMessage toLowerCase error) = true ->
    failsTransiently k w1 w' ->
    failsTransiently (S k) w w'.

(** The state of the operation after [n] calls in a row. *)
Fixpoint stateAfterCalls (n : nat) (w : W) : W :=
  match n with
  | O => w
  | S k => stateAfterCalls k (snd (apiCall w))
  end.

End Recovery.

(** The sum of the waits of a run. *)
Definition totalDelay (effects : list effect) : Z :=
  fold_right Z.add 0 (delays effects).

(** The longest delay [setTimeout] serves as asked: the delay is kept as a
    signed 32-bit integer, and a longer one makes the timer fire at once.
    [1000 * 2^21] is the last delay of the invoker below it. *)
Definition maxTimerDelay : Z := 2 ^ 31 - 1.

(* ===================================================================== *)
(** * Suggestion prompts and generation                                   *)
(* ===================================================================== *)

Module SuggestionPrompt.

(** [generateSuggestionsPrompt], lines 236-251.  The callback of its [map]
    is, character for character, the one of [generateQuizPrompt]. *)
Definition generateSuggestionsPrompt (c : QuizConfig) (incorrectAnswers : list IncorrectAnswer)
  : string :=
  let mistakes := join nl (map mistakeLine incorrectAnswers) in
  "Based on my incorrect answers from a quiz on " ++
  Subject_text (subject c) ++
  " (" ++
  topic c ++
  ") for the " ++
  Exam_text (exam c) ++
  " exam, please recommend some learning resources." ++
  nl ++
  nl ++
  "My mistakes were:" ++
  nl ++
  mistakes ++
  nl ++
  nl ++
  "Provide me with:" ++
  nl ++
  "1.  A list of 2-3 highly relevant and reputable books." ++
  nl ++
  "2.  A list of 2-3 specific and helpful YouTube videos (from channels like Khan Academy, Physics Wallah, Unacademy, etc.) that explain the concepts I'm struggling with." ++
  nl ++
  nl ++
  "Ensure all links are valid and directly accessible.".

(** The callback of [map] in [generateImprovementSuggestionsPrompt], line 255. *)
Definition improvementLine (ans : IncorrectAnswer) : string :=
  "- Question: " ++
  dq ++
  question ans ++
  dq ++
  " (My incorrect answer was " ++
  dq ++
  interpolate (at_slot (options ans) (userAnswerIndex ans)) ++
  dq ++
  ")".

(** [generateImprovementSuggestionsPrompt], lines 253-265. *)
Definition generateImprovementSuggestionsPrompt (c : QuizConfig)
    (incorrectAnswers : list IncorrectAnswer) : string :=
  let mistakes := join nl (map improvementLine incorrectAnswers) in
  "I am preparing for the " ++
  Exam_text (exam c) ++
  " exam in " ++
  Subject_text (subject c) ++
  ". I took a quiz on the topic " ++
  dq ++
  topic c ++
  dq ++
  " and made the following mistakes:" ++
  nl ++
  mistakes ++
  nl ++
  nl ++
  "Based *only* on these specific mistakes, identify 2-4 granular, specific topics or sub-concepts that I need to improve on. For each topic:" ++
  nl ++
  "1.  Provide the 'topicName'." ++
  nl ++
  "2.  Provide a short 'reason' explaining why I need to focus on it, directly linking it to my errors." ++
  nl ++
  "3.  Provide a 'resourceLink' object with a 'title' and a direct, high-quality, free 'url' (like Khan Academy, a university page, GeeksforGeeks, etc.) to a resource that explains that specific concept. Do not invent URLs.".

End SuggestionPrompt.

Import SuggestionPrompt.

(** [!v] is false: the truthiness of a parsed value.  Arrays and objects are
    truthy also when empty. *)
Definition truthy (v : json) : bool :=
  match v with
  | JNull => false
  | JBool b => b
  | JNumber n => negb (n =? 0)
  | JString s => negb (String.eqb s "")
  | JArray _ | JObject _ => true
  end.

(** [!!v.key] for a truthy [v]: a missing property is [undefined], and a
    value that is not an object has no such property. *)
Definition truthyField (v : json) (key : string) : bool :=
  match field v key with
  | Some x => truthy x
  | None => false
  end.

Definition invalidSuggestionFormat : thrown :=
  newError "AI returned an invalid suggestion format.".

Definition invalidImprovementFormat : thrown :=
  newError "AI returned an invalid improvement topics format.".

Section SuggestionGeneration.

Variable toLowerCase : string -> string.
Variable trim : string -> string.
Variable JSON_parse : string -> string + json.
Context {W : Type}.
Variable generateContent : GenerateContentRequest -> W -> outcome GenerateContentResponse * W.

(** The requests of lines 271-278 and 300-307. *)
Definition suggestionsRequest (prompt : string) : GenerateContentRequest :=
  {| model := "gemini-2.5-flash";
     contents := prompt;
     responseMimeType := "application/json";
     responseSchema := suggestionsSchema |}.

Definition improvementRequest (prompt : string) : GenerateContentRequest :=
  {| model := "gemini-2.5-flash";
     contents := prompt;
     responseMimeType := "application/json";
     responseSchema := improvementSuggestionsSchema |}.

(** The [catch] blocks of lines 288-294 and 317-323, which differ from the
    one of [generateQuiz] in the message only. *)
Definition rethrowAs {A : Type} (unknown : string) (r : outcome A) : outcome A :=
  match r with
  | Returned a => Returned a
  | Thrown (ErrorObject name message) => Thrown (ErrorObject name message)
  | Thrown (OtherValue _) => Thrown (newError unknown)
  end.

(** Lines 280-287. *)
Definition parseSuggestions (response : GenerateContentResponse) : outcome json :=
  match text response with
  | None => Thrown undefinedTextError
  | Some t =>
      let jsonText := trim t in
      match JSON_parse jsonText with
      | inl message => Thrown (ErrorObject "SyntaxError" message)
      | inr suggestionsData =>
          if negb (truthy suggestionsData)
             || negb (truthyField suggestionsData "books")
             || negb (truthyField suggestionsData "youtube")
          then Thrown invalidSuggestionFormat
          else Returned suggestionsData
      end
  end.

(** Lines 309-316. *)
Definition parseImprovement (response : GenerateContentResponse) : outcome json :=
  match text response with
  | None => Thrown undefinedTextError
  | Some t =>
      let jsonText := trim t in
      match JSON_parse jsonText with
      | inl message => Thrown (ErrorObject "SyntaxError" message)
      | inr improvementData =>
          if negb (truthy improvementData)
             || negb (truthyField improvementData "topicsToImprove")
          then Thrown invalidImprovementFormat
          else Returned improvementData
      end
  end.

(** [generateSuggestions(config, incorrectAnswers)]. *)
Definition generateSuggestions (c : QuizConfig) (incorrectAnswers : list IncorrectAnswer)
    (w : W) : outcome json * list effect * W :=
  let prompt := generateSuggestionsPrompt c incorrectAnswers in
  let '(r, effects, w1) :=
    withRetry toLowerCase (generateContent (suggestionsRequest prompt)) defaultMaxRetries w in
  let body :=
    match r with
    | Returned response => parseSuggestions response
    | Thrown e => Thrown e
    end in
  (rethrowAs "An unknown error occurred while fetching learning suggestions." body, effects, w1).

(** [generateImprovementSuggestions(config, incorrectAnswers)]. *)
Definition generateImprovementSuggestions (c : QuizConfig)
    (incorrectAnswers : list IncorrectAnswer) (w : W) : outcome json * list effect * W :=
  let prompt := generateImprovementSuggestionsPrompt c incorrectAnswers in
  let '(r, effects, w1) :=
    withRetry toLowerCase (generateContent (improvementRequest prompt)) defaultMaxRetries w in
  let body :=
    match r with
    | Returned response => parseImprovement response
    | Thrown e => Thrown e
    end in
  (rethrowAs "An unknown error occurred while fetching improvement topics." body, effects, w1).

End SuggestionGeneration.

(* ===================================================================== *)
(** * Results view ([src/components/ResultsView.tsx])                     *)
(* ===================================================================== *)

(** [a === null]. *)
Definition is_null (a : slot) : bool :=
  match a with null => true | _ => false end.

(** Line 29: [questions.filter((_, index) => userAnswers[index] === null)]. *)
Definition unattemptedQuestions (questions : list Question) (userAnswers : list (option Z))
  : list Question :=
  match filteri_from 0 (fun _ index => Some (is_null (answer_at userAnswers index))) questions with
  | Some kept => kept
  | None => []
  end.

(** Lines 24-27: the score and the percentage the results view shows; the
    expressions are those of [handleQuizCompletion]. *)
Definition shownScore (questions : list Question) (userAnswers : list (option Z)) : option Z :=
  scoreOf questions userAnswers.

Definition shownPercentage (questions : list Question) (userAnswers : list (option Z))
  : option spec_float :=
  match shownScore questions userAnswers with
  | Some sc => Some (percentageOf sc (Z.of_nat (List.length questions)))
  | None => None
  end.

(** Lines 31-51: the effect asks for suggestions, with both functions at
    once, only for a non-empty incorrect-answer list. *)
Definition fetchesSuggestions (incorrectAnswers : list IncorrectAnswer) : bool :=
  0 <? Z.of_nat (List.length incorrectAnswers).

(** ** The partition in words, for answer arrays of any length *)

(** What the [map]/[filter] pipeline keeps when the answer array may be
    shorter than the question list: a question with no slot reads
    [undefined], which is neither [null] nor its [correctAnswerIndex]. *)
Fixpoint keptAsIncorrect (questions : list Question) (answers : list (option Z))
  : list IncorrectAnswer :=
  match questions with
  | [] => []
  | q :: qs =>
      match answers with
      | [] => {| asQuestion := q; userAnswerIndex := undefined |} :: keptAsIncorrect qs []
      | None :: rest => keptAsIncorrect qs rest
      | Some n :: rest =>
          if n =? correctAnswerIndex q then keptAsIncorrect qs rest
          else {| asQuestion := q; userAnswerIndex := num n |} :: keptAsIncorrect qs rest
      end
  end.

(** The questions whose recorded answer is [null]. *)
Fixpoint leftNull (questions : list Question) (answers : list (option Z)) : list Question :=
  match questions, answers with
  | q :: qs, None :: rest => q :: leftNull qs rest
  | _ :: qs, Some _ :: rest => leftNull qs rest
  | _, _ => []
  end.

(** ** Bounded check of the percentage *)

(** The scores and totals, up to 100 questions, at which the recorded
    percentage is not the rounded quotient. *)
Definition percentageExceptions : list (Z * Z) := [(23, 40); (46, 80)].

Definition isException (k n : Z) : bool :=
  existsb (fun p => (fst p =? k) && (snd p =? n)) percentageExceptions.

(** Two numbers are the same datum. *)
Definition same_float (x y : spec_float) : bool :=
  match x, y with
  | S754_zero s, S754_zero s' => Bool.eqb s s'
  | S754_infinity s, S754_infinity s' => Bool.eqb s s'
  | S754_nan, S754_nan => true
  | S754_finite s m e, S754_finite s' m' e' => Bool.eqb s s' && Pos.eqb m m' && (e =? e')
  | _, _ => false
  end.

(** The check of one score and total: the percentage is the rounded
    quotient, or one less at an exception. *)
Definition percentageChecked (k n : Z) : bool :=
  same_float (percentageOf k n)
        (Number.of_Z (Number.round_div (100 * k) n - (if isException k n then 1 else 0))).

Definition percentageCheckedUpTo (bound : nat) : bool :=
  forallb (fun n => forallb (fun k => percentageChecked (Z.of_nat k) (Z.of_nat n))
                            (seq 0 (S n)))
          (seq 1 bound).

(** ** Counting events *)

Definition isCompletion (e : event) : bool :=
  match e with OnQuizComplete _ _ _ => true | _ => false end.

(** The number of quiz completions among the events. *)
Definition completions (events : list event) : nat :=
  List.length (filter isCompletion events).

(** The flags and the loading state of a session agree with the
    [generateQuiz] calls in flight. *)
Definition flagsAgree (x : Session) : Prop :=
  isSubmitting (appState x) = isSubmittingRef (appState x) /\
  (quizState (appState x) = loading -> isSubmittingRef (appState x) = true).

(** ** The application with the results view *)












(* ===================================================================== *)
(** * Quiz view (the quiz-taking component, [src/unnamed/part_000])       *)
(* ===================================================================== *)

(** [getTimeLimit], lines 11-22, in seconds. *)
Definition getTimeLimit (l : DifficultyLevel) : Z :=
  match l with
  | Level1_Advanced => 60 * 60
  | Level3_Boards => 60 * 60
  | Level2_MainsNEET => 45 * 60
  end.

(** The state of the component. *)
Record QuizViewState := {
  currentQuestionIndex : Z;
  selectedAnswers : list (option Z);
  currentSelection : option Z;
  timeLeft : Z
}.

(** [copy[i] = v] on a copy of [arr].  A negative [i] names a property and
    leaves the elements alone; [i] equal to the length appends; a larger [i]
    would leave holes, which a [(number | null)[]] cannot hold: [None]. *)
Fixpoint replace_nth {A : Type} (n : nat) (v : A) (arr : list A) : list A :=
  match n, arr with
  | _, [] => []
  | O, _ :: rest => v :: rest
  | S k, x :: rest => x :: replace_nth k v rest
  end.

Definition assign (arr : list (option Z)) (i : Z) (v : option Z) : option (list (option Z)) :=
  if i <? 0 then Some arr
  else if i <? Z.of_nat (List.length arr) then Some (replace_nth (Z.to_nat i) v arr)
  else if i =? Z.of_nat (List.length arr) then Some (arr ++ [v])%list
  else None.

(** The effect of lines 68-70, [setCurrentSelection(selectedAnswers[
    currentQuestionIndex])], run after a render in which the index or the
    answers changed.  Reading past the end gives [undefined], which the
    declared type of [currentSelection] cannot hold: [None]. *)
Definition syncSelection (st : QuizViewState) : option QuizViewState :=
  match at_index (selectedAnswers st) (currentQuestionIndex st) with
  | Some v =>
      Some {| currentQuestionIndex := currentQuestionIndex st;
              selectedAnswers := selectedAnswers st;
              currentSelection := v;
              timeLeft := timeLeft st |}
  | None => None
  end.

(** The state after the first render and its effects, for [n] questions. *)
Definition initialView (n : nat) (l : DifficultyLevel) : option QuizViewState :=
  syncSelection {| currentQuestionIndex := 0;
                   selectedAnswers := repeat None n;
                   currentSelection := None;
                   timeLeft := getTimeLimit l |}.

(** What the user and the timer can do. *)
Inductive viewEvent :=
| Select (optionIndex : Z)          (* [handleOptionSelect] *)
| Next                              (* [handleNext] *)
| Previous                          (* [handlePrevious] *)
| EndQuiz (confirmed : bool)        (* [handleEndQuiz], with the answer of [window.confirm] *)
| Tick.                             (* the interval callback *)

(** One event: the state after the handler and the effects of the render
    it causes, and the array passed to [onQuizComplete], if it is called.
    [n] is [questions.length]. *)
Definition viewStep (n : Z) (st : QuizViewState) (e : viewEvent)
  : option (QuizViewState * option (list (option Z))) :=
  match e with
  | Select optionIndex =>
      Some ({| currentQuestionIndex := currentQuestionIndex st;
               selectedAnswers := selectedAnswers st;
               currentSelection := Some optionIndex;
               timeLeft := timeLeft st |}, None)
  | Next =>
      match assign (selectedAnswers st) (currentQuestionIndex st) (currentSelection st) with
      | None => None
      | Some newAnswers =>
          if currentQuestionIndex st <? n - 1 then
            match syncSelection {| currentQuestionIndex := currentQuestionIndex st + 1;
                                   selectedAnswers := newAnswers;
                                   currentSelection := currentSelection st;
                                   timeLeft := timeLeft st |} with
            | Some st' => Some (st', None)
            | None => None
            end
          else
            match syncSelection {| currentQuestionIndex := currentQuestionIndex st;
                                   selectedAnswers := newAnswers;
                                   currentSelection := currentSelection st;
                                   timeLeft := timeLeft st |} with
            | Some st' => Some (st', Some newAnswers)
            | None => None
            end
      end
  | Previous =>
      if 0 <? currentQuestionIndex st then
        match assign (selectedAnswers st) (currentQuestionIndex st) (currentSelection st) with
        | None => None
        | Some newAnswers =>
            match syncSelection {| currentQuestionIndex := currentQuestionIndex st - 1;
                                   selectedAnswers := newAnswers;
                                   currentSelection := currentSelection st;
                                   timeLeft := timeLeft st |} with
            | Some st' => Some (st', None)
            | None => None
            end
        end
      else Some (st, None)
  | EndQuiz confirmed =>
      if confirmed then
        match assign (selectedAnswers st) (currentQuestionIndex st) (currentSelection st) with
        | None => None
        | Some finalAnswers =>
            match syncSelection {| currentQuestionIndex := currentQuestionIndex st;
                                   selectedAnswers := finalAnswers;
                                   currentSelection := currentSelection st;
                                   timeLeft := timeLeft st |} with
            | Some st' => Some (st', Some finalAnswers)
            | None => None
            end
        end
      else Some (st, None)
  | Tick =>
      if timeLeft st <=? 1 then
        match assign (selectedAnswers st) (currentQuestionIndex st) (currentSelection st) with
        | None => None
        | Some finalAnswers =>
            Some ({| currentQuestionIndex := currentQuestionIndex st;
                     selectedAnswers := selectedAnswers st;
                     currentSelection := currentSelection st;
                     timeLeft := 0 |}, Some finalAnswers)
        end
      else
        Some ({| currentQuestionIndex := currentQuestionIndex st;
                 selectedAnswers := selectedAnswers st;
                 currentSelection := currentSelection st;
                 timeLeft := timeLeft st - 1 |}, None)
  end.

(** The events in order, up to the first call of [onQuizComplete], after
    which the application leaves the active state and the view is gone.
    [None]: a step left the declared types. *)
Fixpoint viewRun (n : Z) (st : QuizViewState) (events : list viewEvent)
  : option (QuizViewState * option (list (option Z))) :=
  match events with
  | [] => Some (st, None)
  | e :: rest =>
      match viewStep n st e with
      | None => None
      | Some (st', Some submitted) => Some (st', Some submitted)
      | Some (st', None) => viewRun n st' rest
      end
  end.

(** A view over [n] questions that is within its bounds. *)
Definition viewOk (n : nat) (st : QuizViewState) : Prop :=
  0 <= currentQuestionIndex st < Z.of_nat n /\
  List.length (selectedAnswers st) = n.

(** The number of timer ticks among the events. *)
Definition ticks (events : list viewEvent) : Z :=
  Z.of_nat (List.length (filter (fun e => match e with Tick => true | _ => false end) events)).

(** ** The clock of the quiz view *)

(** [String(n)] for an integer [n] that is not negative and below [10^21],
    from where JavaScript writes a number with an exponent. *)
Definition String_of (n : Z) : string := NilZero.string_of_uint (N.to_uint (Z.to_N n)).

(** The first [k] characters of [fill] repeated, for [padStart]. *)
Fixpoint filler (k : nat) (fill current : string) : string :=
  match k with
  | O => EmptyString
  | S k' =>
      match current with
      | EmptyString =>
          match fill with
          | EmptyString => EmptyString
          | String ch rest => String ch (filler k' fill rest)
          end
      | String ch rest => String ch (filler k' fill rest)
      end
  end.

(** [s.padStart(targetLength, padString)]. *)
Definition padStart (targetLength : nat) (padString s : string) : string :=
  if Nat.leb targetLength (String.length s) then s
  else filler (targetLength - String.length s) padString padString ++ s.

(** [formatTime], lines 24-29, for a whole number of seconds. *)
Definition formatTime (seconds : Z) : string :=
  let seconds := if seconds <? 0 then 0 else seconds in
  let minutes := seconds / 60 in
  let remainingSeconds := Z.rem seconds 60 in
  padStart 2 "0" (String_of minutes) ++ ":" ++ padStart 2 "0" (String_of remainingSeconds).

(** The character of a decimal digit. *)
Definition digitChar (d : Z) : string := String (ascii_of_nat (48 + Z.to_nat d)) EmptyString.

(** The clock reading for [s] seconds, two digits of minutes and two of
    seconds. *)
Definition clock (s : Z) : string :=
  digitChar (s / 600) ++ digitChar ((s / 60) mod 10) ++ ":"
    ++ digitChar ((s mod 60) / 10) ++ digitChar (s mod 10).

Definition formatTimeCheckedUpTo (bound : nat) : bool :=
  forallb (fun s => String.eqb (formatTime (Z.of_nat s)) (clock (Z.of_nat s))) (seq 0 bound).

(* ===================================================================== *)
(** * Quiz setup (the setup component, second half of
      [src/components/SuggestionsView.tsx])                               *)
(* ===================================================================== *)

(** Lines 64-69. *)
Definition subjectsConfig (e : Exam) : list Subject :=
  match e with
  | JEE => [Physics; Chemistry; Maths]
  | NEET => [Physics; Chemistry; Biology]
  end.

Definition difficultyLevels : list DifficultyLevel :=
  [Level3_Boards; Level2_MainsNEET; Level1_Advanced].

(** The state of the component (lines 72-78); the fields carry the prefix
    [setup_] where the name is taken by [QuizConfig]. *)
Record SetupState := {
  setup_exam : option Exam;
  setup_subject : option Subject;
  setup_topic : string;
  setup_level : option DifficultyLevel;
  isMergingTopics : bool;
  setup_mergeTopic : string;
  setup_error : string
}.

Definition initialSetup : SetupState :=
  {| setup_exam := None; setup_subject := None; setup_topic := "";
     setup_level := None; isMergingTopics := false; setup_mergeTopic := "";
     setup_error := "" |}.

Definition withSetupError (message : string) (st : SetupState) : SetupState :=
  {| setup_exam := setup_exam st; setup_subject := setup_subject st;
     setup_topic := setup_topic st; setup_level := setup_level st;
     isMergingTopics := isMergingTopics st; setup_mergeTopic := setup_mergeTopic st;
     setup_error := message |}.

Definition Subject_eqb (a b : Subject) : bool :=
  match a, b with
  | Physics, Physics | Chemistry, Chemistry | Maths, Maths | Biology, Biology => true
  | _, _ => false
  end.

(** What the user can do in the setup view. *)
Inductive setupEvent :=
| ClickExam (e : Exam)                  (* [setExam(e); setSubject(null)] *)
| ClickSubject (s : Subject)            (* a button of [subjectsConfig[exam].map] *)
| TypeTopic (t : string)
| ToggleMerging (b : bool)
| TypeMergeTopic (t : string)
| ClickLevel (l : DifficultyLevel)
| ClickStart                            (* [handleStart] *)
| ClickRevision.                        (* [handleStartRevisionQuiz] *)

Section Setup.

Variable trim : string -> string.

(** [handleStart], lines 80-96: the state it leaves and the configuration it
    passes to [onStartQuiz], if any. *)
Definition handleStart (st : SetupState) : SetupState * option QuizConfig :=
  match setup_exam st, setup_subject st, setup_level st with
  | Some e, Some s, Some l =>
      if String.eqb (trim (setup_topic st)) ""
      then (withSetupError "Please complete all steps before starting the quiz." st, None)
      else if isMergingTopics st && String.eqb (trim (setup_mergeTopic st)) ""
      then (withSetupError "Please enter the second topic to merge or disable the option." st,
            None)
      else
        (withSetupError "" st,
         Some {| exam := e; subject := s; topic := setup_topic st; level := l;
                 mergeTopic :=
                   if isMergingTopics st && negb (String.eqb (trim (setup_mergeTopic st)) "")
                   then Some (trim (setup_mergeTopic st)) else None |})
  | _, _, _ =>
      (withSetupError "Please complete all steps before starting the quiz." st, None)
  end.

(** [handleStartRevisionQuiz], lines 98-106. *)
Definition handleStartRevisionQuiz (st : SetupState) : SetupState * option QuizConfig :=
  match setup_exam st, setup_subject st, setup_level st with
  | Some e, Some s, Some l =>
      (withSetupError "" st,
       Some {| exam := e; subject := s; topic := "Foundational Concepts"; level := l;
               mergeTopic := None |})
  | _, _, _ =>
      (withSetupError
         "Please select an exam, subject, and difficulty level for the revision quiz." st,
       None)
  end.

(** One event.  The subject buttons are rendered from [subjectsConfig[exam]]
    once an exam is chosen (lines 148-156), so a click on a subject is a
    click on one of those. *)
Definition setupStep (st : SetupState) (e : setupEvent) : SetupState * option QuizConfig :=
  match e with
  | ClickExam ex =>
      ({| setup_exam := Some ex; setup_subject := None;
          setup_topic := setup_topic st; setup_level := setup_level st;
          isMergingTopics := isMergingTopics st; setup_mergeTopic := setup_mergeTopic st;
          setup_error := setup_error st |}, None)
  | ClickSubject s =>
      match setup_exam st with
      | Some ex =>
          if existsb (Subject_eqb s) (subjectsConfig ex) then
            ({| setup_exam := setup_exam st; setup_subject := Some s;
                setup_topic := setup_topic st; setup_level := setup_level st;
                isMergingTopics := isMergingTopics st; setup_mergeTopic := setup_mergeTopic st;
                setup_error := setup_error st |}, None)
          else (st, None)
      | None => (st, None)
      end
  | TypeTopic t =>
      ({| setup_exam := setup_exam st; setup_subject := setup_subject st;
          setup_topic := t; setup_level := setup_level st;
          isMergingTopics := isMergingTopics st; setup_mergeTopic := setup_mergeTopic st;
          setup_error := setup_error st |}, None)
  | ToggleMerging b =>
      ({| setup_exam := setup_exam st; setup_subject := setup_subject st;
          setup_topic := setup_topic st; setup_level := setup_level st;
          isMergingTopics := b; setup_mergeTopic := setup_mergeTopic st;
          setup_error := setup_error st |}, None)
  | TypeMergeTopic t =>
      ({| setup_exam := setup_exam st; setup_subject := setup_subject st;
          setup_topic := setup_topic st; setup_level := setup_level st;
          isMergingTopics := isMergingTopics st; setup_mergeTopic := t;
          setup_error := setup_error st |}, None)
  | ClickLevel l =>
      ({| setup_exam := setup_exam st; setup_subject := setup_subject st;
          setup_topic := setup_topic st; setup_level := Some l;
          isMergingTopics := isMergingTopics st; setup_mergeTopic := setup_mergeTopic st;
          setup_error := setup_error st |}, None)
  | ClickStart => handleStart st
  | ClickRevision => handleStartRevisionQuiz st
  end.

(** The configurations passed to [onStartQuiz] along a sequence of events,
    in order, and the state reached. *)
Fixpoint setupRun (st : SetupState) (events : list setupEvent)
  : SetupState * list QuizConfig :=
  match events with
  | [] => (st, [])
  | e :: rest =>
      let '(st1, emitted) := setupStep st e in
      let '(st2, later) := setupRun st1 rest in
      (st2, match emitted with Some c => c :: later | None => later end)
  end.

End Setup.

(** A configuration as the setup view builds them: the subject is one the
    exam offers, the topic is the revision sentinel or has visible text, and
    a secondary topic, when present, is not empty. *)
Definition wellFormed (trim : string -> string) (c : QuizConfig) : Prop :=
  In (subject c) (subjectsConfig (exam c)) /\
  (topic c = "Foundational Concepts" \/ trim (topic c) <> "") /\
  (forall m, mergeTopic c = Some m -> m <> "").

(** The chosen subject is one the chosen exam offers. *)
Definition subjectOffered (st : SetupState) : Prop :=
  match setup_subject st with
  | Some s => exists e, setup_exam st = Some e /\ In s (subjectsConfig e)
  | None => True
  end.

(* ===================================================================== *)
(** * Math renderer (second half of [src/components/HistoryView.tsx])     *)
(* ===================================================================== *)

Module Math.

(** [t] up to its first dollar sign: what is before it and what is after
    it.  This is how the lazy [[\s\S]*?\$] of the pattern matches. *)
Fixpoint untilDollar (t : string) : option (string * string) :=
  match t with
  | EmptyString => None
  | String ch rest =>
      if Ascii.eqb ch "$" then Some (EmptyString, rest)
      else match untilDollar rest with
           | Some (body, after) => Some (String ch body, after)
           | None => None
           end
  end.

(** [t] up to its first pair of dollar signs, for [[\s\S]*?\$\$]. *)
Fixpoint untilDollars (t : string) : option (string * string) :=
  match t with
  | EmptyString => None
  | String ch rest =>
      match (if Ascii.eqb ch "$" then
               match rest with
               | String ch2 after => if Ascii.eqb ch2 "$" then Some after else None
               | EmptyString => None
               end
             else None) with
      | Some after => Some (EmptyString, after)
      | None =>
          match untilDollars rest with
          | Some (body, after) => Some (String ch body, after)
          | None => None
          end
      end
  end.

(** A match of the pattern of line 98 at the start of [s]: the text matched
    and what follows it.  The first alternative, a block between double
    dollars, is tried first; failing that, the second one, from one dollar
    to the next, at the same place. *)
Definition matchAt (s : string) : option (string * string) :=
  match s with
  | String ch t =>
      if Ascii.eqb ch "$" then
        match (match t with
               | String ch2 t2 =>
                   if Ascii.eqb ch2 "$" then
                     match untilDollars t2 with
                     | Some (body, after) => Some ("$$" ++ body ++ "$$", after)
                     | None => None
                     end
                   else None
               | EmptyString => None
               end) with
        | Some found => Some found
        | None =>
            match untilDollar t with
            | Some (body, after) => Some ("$" ++ body ++ "$", after)
            | None => None
            end
        end
      else None
  | EmptyString => None
  end.

(** [content.split(pattern)] with the whole pattern captured: the text
    before the first match, the match, the text up to the next match, and so
    on, ending with the text after the last match.  [pending] is the text
    read since the last match. *)
Fixpoint splitFrom (fuel : nat) (pending s : string) : list string :=
  match fuel with
  | O => [pending ++ s]
  | S fuel' =>
      match matchAt s with
      | Some (found, after) => pending :: found :: splitFrom fuel' EmptyString after
      | None =>
          match s with
          | EmptyString => [pending]
          | String ch rest => splitFrom fuel' (pending ++ String ch EmptyString) rest
          end
      end
  end.

(** Each round consumes a character, so the length of the text is fuel
    enough. *)
Definition split (content : string) : list string :=
  splitFrom (S (String.length content)) EmptyString content.

(** [part.endsWith(suffix)] and [part.slice(a, -b)]. *)
Definition endsWith (part suffix : string) : bool :=
  if Nat.leb (String.length suffix) (String.length part)
  then String.eqb (substring (String.length part - String.length suffix)
                             (String.length suffix) part) suffix
  else false.

Definition slice (a b : nat) (part : string) : string :=
  substring a (String.length part - b - a) part.

(** What a part is rendered as (lines 102-113). *)
Inductive piece :=
| BlockMath (math : string)
| InlineMath (math : string)
| Span (text : string).

Definition renderPart (part : string) : piece :=
  if prefix "$$" part && endsWith part "$$" then BlockMath (slice 2 2 part)
  else if prefix "$" part && endsWith part "$" then InlineMath (slice 1 1 part)
  else Span part.

(** [MathRenderer] for a string [content]; [None] is the [null] returned
    for the empty string. *)
Definition MathRenderer (content : string) : option (list piece) :=
  if String.eqb content "" then None
  else Some (map renderPart (split content)).

(** The text has no dollar sign. *)
Fixpoint dollarFree (s : string) : bool :=
  match s with
  | EmptyString => true
  | String ch rest => negb (Ascii.eqb ch "$") && dollarFree rest
  end.

(** The parts at the odd positions of a split: the matches. *)
Fixpoint oddParts (parts : list string) : list string :=
  match parts with
  | _ :: found :: rest => found :: oddParts rest
  | _ => []
  end.

(** A text between dollar signs. *)
Definition delimited (part : string) : Prop :=
  prefix "$" part = true /\ endsWith part "$" = true /\ (2 <= String.length part)%nat.

End Math.

Module MoreExamples.

(** An operation that fails with a 503 on its first two calls and returns
    the number of the call from then on.  The state counts the calls. *)
Definition flaky (w : nat) : outcome nat * nat :=
  if Nat.ltb w 2 then (Thrown (newError "503 Service Unavailable"), S w)
  else (Returned w, S w).

(** A provider that is down: every request fails with a 503. *)
Definition unavailableProvider (_ : GenerateContentRequest) (w : nat)
  : outcome GenerateContentResponse * nat :=
  (Thrown (newError "503 Service Unavailable"), S w).

(** [missed_units] with a chosen index that no option has. *)
Definition missed_out_of_range : IncorrectAnswer :=
  {| asQuestion := Examples.q_units; userAnswerIndex := num 7 |}.

(** A quiz of three questions in progress. *)
Definition activeThree : AppState :=
  setQuizState active
    (setQuestions (repeat Examples.q_units 3)
       (setQuizConfig (Some Examples.kinematics) (initialState []))).

(** A setup with every step done and the sentinel typed as the topic. *)
Definition sentinelTyped : SetupState :=
  {| setup_exam := Some NEET; setup_subject := Some Biology;
     setup_topic := "Foundational Concepts"; setup_level := Some Level2_MainsNEET;
     isMergingTopics := false; setup_mergeTopic := ""; setup_error := "" |}.

End MoreExamples.

(* ===================================================================== *)
(** * Facts about strings                                                 *)
(* ===================================================================== *)

Module StrFacts.

Lemma append_assoc (a b c : string) : (a ++ b) ++ c = a ++ (b ++ c).
Proof. induction a as [|x a IH]; simpl; [reflexivity | now rewrite IH]. Qed.

Lemma append_nil_r (a : string) : a ++ EmptyString = a.
Proof. induction a as [|x a IH]; simpl; [reflexivity | now rewrite IH]. Qed.

Lemma append_length (a b : string) :
  String.length (a ++ b) = (String.length a + String.length b)%nat.
Proof. induction a as [|x a IH]; simpl; [reflexivity | now rewrite IH]. Qed.

Lemma prefix_append (sub rest : string) : prefix sub (sub ++ rest) = true.
Proof.
  induction sub as [|x sub IH]; simpl.
  - now destruct rest.
  - destruct (ascii_dec x x) as [_|ne]; [exact IH | now elim ne].
Qed.

Lemma prefix_weaken (sub a b : string) :
  prefix sub a = true -> prefix sub (a ++ b) = true.
Proof.
  revert a; induction sub as [|x sub IH]; intros a H.
  - simpl. now destruct (a ++ b).
  - destruct a as [|y a]; simpl in *; [discriminate|].
    destruct (ascii_dec x y); [now apply IH | discriminate].
Qed.

Lemma includes_prefix (s sub : string) : prefix sub s = true -> includes s sub = true.
Proof. intros H. destruct s; cbn [includes]; now rewrite H. Qed.

Lemma includes_self (s : string) : includes s s = true.
Proof.
  apply includes_prefix. rewrite <- (append_nil_r s) at 2. apply prefix_append.
Qed.

Lemma includes_append_r (a b sub : string) :
  includes b sub = true -> includes (a ++ b) sub = true.
Proof.
  intros H. induction a as [|x a IH]; [exact H|].
  change (String x a ++ b) with (String x (a ++ b)).
  cbn [includes]. rewrite IH. now destruct (prefix sub (String x (a ++ b))).
Qed.

Lemma includes_append_l (a b sub : string) :
  includes a sub = true -> includes (a ++ b) sub = true.
Proof.
  induction a as [|x a IH]; intros H.
  - cbn [includes] in H. apply includes_prefix.
    destruct (prefix sub EmptyString) eqn:E; [|discriminate].
    now apply (prefix_weaken sub EmptyString b).
  - cbn [includes] in H. change (String x a ++ b) with (String x (a ++ b)).
    destruct (prefix sub (String x a)) eqn:E.
    + apply includes_prefix. now apply (prefix_weaken sub (String x a) b).
    + cbn [includes]. rewrite (IH H). now destruct (prefix sub (String x (a ++ b))).
Qed.

Lemma includes_trans (s mid sub : string) :
  includes s mid = true -> includes mid sub = true -> includes s sub = true.
Proof.
  intros Hs Hm. induction s as [|x s IH].
  - destruct mid; [exact Hm | discriminate].
  - cbn [includes] in Hs. destruct (prefix mid (String x s)) eqn:E.
    + clear Hs IH. revert Hm.
      assert (exists rest, String x s = mid ++ rest) as [rest ->].
      { clear -E. revert E. generalize (String x s) as t.
        induction mid as [|m mid IH]; intros t E.
        - now exists t.
        - destruct t as [|y t]; simpl in E; [discriminate|].
          destruct (ascii_dec m y) as [->|]; [|discriminate].
          destruct (IH _ E) as [rest ->]. now exists rest. }
      apply includes_append_l.
    + cbn [includes]. rewrite (IH Hs). now destruct (prefix sub (String x s)).
Qed.

Lemma includes_join (sep : string) (parts : list string) (p : string) :
  In p parts -> includes (join sep parts) p = true.
Proof.
  induction parts as [|q parts IH]; intros Hin; [destruct Hin|].
  destruct Hin as [->|Hin].
  - destruct parts; simpl join; [apply includes_self|].
    apply includes_append_l, includes_self.
  - destruct parts as [|r parts]; [destruct Hin|].
    change (join sep (q :: r :: parts)) with (q ++ sep ++ join sep (r :: parts)).
    now apply includes_append_r, includes_append_r, IH.
Qed.

Lemma append_neq_self (a b : string) : b <> EmptyString -> a ++ b <> a.
Proof.
  intros Hb E. apply (f_equal String.length) in E.
  rewrite append_length in E. destruct b; [now apply Hb | simpl in E; lia].
Qed.

End StrFacts.

Import StrFacts.

Create HintDb incl discriminated.
#[export] Hint Resolve includes_self includes_append_l includes_append_r : incl.

(** Search a concatenation of literals and fields for one of its parts. *)
Ltac find_part := simpl; auto 40 with incl.

(* ===================================================================== *)
(** * The prompt builder                                                  *)
(* ===================================================================== *)

Section PromptFacts.

Lemma generateQuizPrompt_split (c : QuizConfig) (ias : option (list IncorrectAnswer)) :
  generateQuizPrompt c ias = generateQuizPrompt c None ++ retrySuffix ias.
Proof.
  destruct ias as [[|a rest]|]; cbn [retrySuffix];
    try (symmetry; apply append_nil_r).
  reflexivity.
Qed.

Lemma base_prompt_shape (c : QuizConfig) :
  generateQuizPrompt c None =
  opening c ++ topicSentence c ++ levelSentence c ++ mergeSentence c ++ rules.
Proof.
  unfold generateQuizPrompt. cbv zeta. now rewrite !append_assoc.
Qed.

Lemma mistakeBlock_nonempty (ias : list IncorrectAnswer) : mistakeBlock ias <> EmptyString.
Proof. unfold mistakeBlock, nl. cbv zeta. discriminate. Qed.

Lemma mistakeLine_quotes (a : IncorrectAnswer) (chosen correct : string) :
  at_slot (options a) (userAnswerIndex a) = Some chosen ->
  at_index (options a) (correctAnswerIndex a) = Some correct ->
  includes (mistakeLine a) ("My incorrect answer: " ++ dq ++ chosen ++ dq) = true /\
  includes (mistakeLine a) ("Correct answer: " ++ dq ++ correct ++ dq) = true.
Proof.
  intros Hu Hc. unfold mistakeLine. rewrite Hu, Hc. cbn [interpolate].
  split.
  - do 5 apply includes_append_r.
    replace ("  My incorrect answer: " ++ dq ++ chosen ++ dq ++ nl ++
             "  Correct answer: " ++ dq ++ correct ++ dq)
      with ("  " ++ ("My incorrect answer: " ++ dq ++ chosen ++ dq) ++
            (nl ++ "  Correct answer: " ++ dq ++ correct ++ dq))
      by (rewrite !append_assoc; reflexivity).
    apply includes_append_r, includes_append_l, includes_self.
  - do 10 apply includes_append_r.
    change ("  Correct answer: " ++ dq ++ correct ++ dq)
      with ("  " ++ ("Correct answer: " ++ dq ++ correct ++ dq)).
    apply includes_append_r, includes_self.
Qed.

Lemma mistakeBlock_includes_line (ias : list IncorrectAnswer) (a : IncorrectAnswer) :
  In a ias -> includes (mistakeBlock ias) (mistakeLine a) = true.
Proof.
  intros Hin. unfold mistakeBlock. cbv zeta.
  do 4 apply includes_append_r. apply includes_append_l.
  apply includes_join. now apply in_map.
Qed.

End PromptFacts.

(** C4.  For every quiz configuration, with or without a mistake list, the
    prompt opens with the sentence asking for a 20-question quiz for the
    configured exam and subject, it contains the exam, subject and level
    literals, and when the topic is not the sentinel "Foundational Concepts"
    it contains the topic, quoted in the primary-topic sentence. *)
Theorem quiz_prompt_requests_20_and_names_config :
  forall (c : QuizConfig) (ias : option (list IncorrectAnswer)),
    let prompt := generateQuizPrompt c ias in
    (exists rest,
        prompt = "Generate a 20-question multiple-choice quiz for a student preparing for the "
                   ++ Exam_text (exam c) ++ " exam. The subject is "
                   ++ Subject_text (subject c) ++ "." ++ rest) /\
    includes prompt (Exam_text (exam c)) = true /\
    includes prompt (Subject_text (subject c)) = true /\
    includes prompt (DifficultyLevel_text (level c)) = true /\
    (topic c <> "Foundational Concepts" ->
       includes prompt (topic c) = true /\
       includes prompt (" The primary topic is " ++ dq ++ topic c ++ dq ++ ".") = true).
Proof.
  intros c ias prompt. subst prompt.
  rewrite generateQuizPrompt_split, base_prompt_shape.
  repeat split.
  - exists (topicSentence c ++ levelSentence c ++ mergeSentence c ++ rules ++ retrySuffix ias).
    unfold opening. now rewrite !append_assoc.
  - unfold opening. auto 10 with incl.
  - unfold opening. auto 10 with incl.
  - unfold levelSentence. auto 10 with incl.
  - unfold topicSentence.
    destruct (String.eqb_spec (topic c) "Foundational Concepts") as [E|_]; [contradiction|].
    auto 10 with incl.
  - unfold topicSentence.
    destruct (String.eqb_spec (topic c) "Foundational Concepts") as [E|_]; [contradiction|].
    auto 10 with incl.
Qed.

Lemma quiz_prompt_requests_20_and_names_config_witness :
  includes (generateQuizPrompt Examples.kinematics None) "Kinematics" = true.
Proof.
  destruct (quiz_prompt_requests_20_and_names_config Examples.kinematics None)
    as (_ & _ & _ & _ & H).
  apply H. discriminate.
Defined.

(** C10.  For every quiz configuration, the prompt built with an empty
    mistake list is the same string as the prompt built without the
    argument; the mistake block is appended exactly when the list supplied is
    non-empty. *)
Theorem empty_mistakes_same_prompt :
  forall c : QuizConfig,
    generateQuizPrompt c (Some []) = generateQuizPrompt c None /\
    (forall ias : list IncorrectAnswer,
        generateQuizPrompt c (Some ias) =
        generateQuizPrompt c None ++ (if Nat.eqb (List.length ias) 0 then "" else mistakeBlock ias)).
Proof.
  intros c. split; [reflexivity|].
  intros [|a rest]; [symmetry; apply append_nil_r | reflexivity].
Qed.

(** C5.  For every quiz configuration and every non-empty list of
    incorrect answers whose two indices index into their options, the retry
    prompt is the prompt built without mistakes followed by a block; it
    differs from that prompt, and for each mistake the block (hence the
    prompt) contains the option the user chose and the correct option, each
    quoted after its label. *)
Theorem retry_prompt_lists_mistakes :
  forall (c : QuizConfig) (ias : list IncorrectAnswer),
    ias <> [] ->
    Forall indexesIntoOptions ias ->
    exists block,
      generateQuizPrompt c (Some ias) = generateQuizPrompt c None ++ block /\
      generateQuizPrompt c (Some ias) <> generateQuizPrompt c None /\
      forall a, In a ias ->
        exists chosen correct,
          at_slot (options a) (userAnswerIndex a) = Some chosen /\
          at_index (options a) (correctAnswerIndex a) = Some correct /\
          includes block ("My incorrect answer: " ++ dq ++ chosen ++ dq) = true /\
          includes block ("Correct answer: " ++ dq ++ correct ++ dq) = true /\
          includes (generateQuizPrompt c (Some ias)) chosen = true /\
          includes (generateQuizPrompt c (Some ias)) correct = true.
Proof.
  intros c ias Hne Hidx.
  exists (mistakeBlock ias).
  assert (Hsplit : generateQuizPrompt c (Some ias) = generateQuizPrompt c None ++ mistakeBlock ias).
  { rewrite generateQuizPrompt_split. destruct ias; [now elim Hne | reflexivity]. }
  split; [exact Hsplit|]. split.
  - rewrite Hsplit. apply append_neq_self, mistakeBlock_nonempty.
  - intros a Hin.
    rewrite Forall_forall in Hidx. destruct (Hidx a Hin) as (chosen & correct & Hu & Hc).
    exists chosen, correct.
    destruct (mistakeLine_quotes a chosen correct Hu Hc) as [H1 H2].
    pose proof (mistakeBlock_includes_line ias a Hin) as Hline.
    assert (B1 : includes (mistakeBlock ias) ("My incorrect answer: " ++ dq ++ chosen ++ dq) = true)
      by exact (includes_trans _ _ _ Hline H1).
    assert (B2 : includes (mistakeBlock ias) ("Correct answer: " ++ dq ++ correct ++ dq) = true)
      by exact (includes_trans _ _ _ Hline H2).
    repeat split; try assumption; rewrite Hsplit; apply includes_append_r.
    + apply (includes_trans _ _ _ B1). auto 10 with incl.
    + apply (includes_trans _ _ _ B2). auto 10 with incl.
Qed.

Lemma retry_prompt_lists_mistakes_witness :
  exists block,
    generateQuizPrompt Examples.kinematics (Some [Examples.missed_units]) =
    generateQuizPrompt Examples.kinematics None ++ block /\
    includes block "m/s^2" = true.
Proof.
  destruct (retry_prompt_lists_mistakes Examples.kinematics [Examples.missed_units])
    as (block & Heq & _ & Hall).
  - discriminate.
  - repeat constructor. exists "m/s", "m/s^2". split; reflexivity.
  - exists block. split; [exact Heq|].
    destruct (Hall Examples.missed_units (or_introl eq_refl))
      as (chosen & correct & _ & Hc & _ & Hb & _).
    vm_compute in Hc. injection Hc as <-.
    apply (includes_trans _ _ _ Hb). vm_compute. reflexivity.
Defined.

(* ===================================================================== *)
(** * The resilient invoker                                               *)
(* ===================================================================== *)

Section InvokerFacts.

Variable toLowerCase : string -> string.
Context {W T : Type}.
Variable apiCall : W -> outcome T * W.

#[local] Abbreviation loop := (withRetry_loop toLowerCase apiCall).
#[local] Abbreviation transient error := (isTransientError (errorMessage toLowerCase error)).

(** One round of the loop, by how the call ends. *)
Lemma loop_returned (maxRetries attempt : Z) (w w1 : W) (r : T) :
  apiCall w = (Returned r, w1) ->
  loop maxRetries attempt w = (Returned r, [Invoked], w1).
Proof. intros H. simp withRetry_loop. now rewrite H. Qed.

Lemma loop_retries (maxRetries attempt : Z) (w w1 : W) (error : thrown) :
  apiCall w = (Thrown error, w1) ->
  transient error = true ->
  attempt + 1 < maxRetries ->
  loop maxRetries attempt w =
  (let '(r, effects, w2) := loop maxRetries (attempt + 1) w1 in
   (r, Invoked :: Slept (1000 * 2 ^ (attempt + 1 - 1)) :: effects, w2)).
Proof.
  intros H Ht Hlt. simp withRetry_loop. rewrite H.
  cbn -[Z.mul Z.pow finalError].
  destruct (Z_lt_dec (attempt + 1) maxRetries) as [l|n]; [|contradiction].
  cbn -[Z.mul Z.pow finalError]. rewrite Ht. now simp withRetry_loop.
Qed.

Lemma loop_gives_up (maxRetries attempt : Z) (w w1 : W) (error : thrown) :
  apiCall w = (Thrown error, w1) ->
  transient error = false \/ ~ attempt + 1 < maxRetries ->
  loop maxRetries attempt w =
  (Thrown (finalError error (transient error)), [Invoked], w1).
Proof.
  intros H Hor. simp withRetry_loop. rewrite H.
  cbn -[Z.mul Z.pow finalError].
  destruct (Z_lt_dec (attempt + 1) maxRetries) as [l|n];
    cbn -[Z.mul Z.pow finalError]; [|reflexivity].
  destruct Hor as [Hf|Hn]; [now rewrite Hf | contradiction].
Qed.

Hypothesis always_transient :
  forall w, exists error w1, apiCall w = (Thrown error, w1) /\ transient error = true.

(** The run of an operation that always fails transiently: it calls the
    operation once per attempt, each call from the state the one before left,
    and gives up in the state the last call left. *)
Lemma loop_exhausts (more : nat) :
  forall (maxRetries attempt : Z) (w : W),
    Z.to_nat (maxRetries - attempt - 1) = more ->
    exists w',
      failsTransiently toLowerCase apiCall (S more) w w' /\
      loop maxRetries attempt w =
      (Thrown serviceUnavailable, backoffEffects attempt more, w').
Proof.
  induction more as [|k IH]; intros maxRetries attempt w Hm;
    destruct (always_transient w) as (error & w1 & Hcall & Ht).
  - exists w1. split.
    + exact (failsTransiently_S _ _ 0 w w1 w1 error Hcall Ht (failsTransiently_0 _ _ w1)).
    + rewrite (loop_gives_up _ _ _ _ _ Hcall) by (right; lia).
      now rewrite Ht.
  - rewrite (loop_retries _ _ _ _ _ Hcall Ht) by lia.
    destruct (IH maxRetries (attempt + 1) w1) as (w' & Hfail & ->); [lia|].
    exists w'. split; [|reflexivity].
    exact (failsTransiently_S _ _ (S k) w w1 w' error Hcall Ht Hfail).
Qed.

(** Failing calls in a row leave the state of as many calls. *)
Lemma failsTransiently_state (k : nat) :
  forall w w' : W,
    failsTransiently toLowerCase apiCall k w w' -> w' = stateAfterCalls apiCall k w.
Proof.
  induction k as [|k IH]; intros w w' H; inversion H; subst; [reflexivity|].
  cbn [stateAfterCalls].
  match goal with Hc : apiCall w = _ |- _ => rewrite Hc end.
  now apply IH.
Qed.

End InvokerFacts.

(** C1.  For every operation each call of which throws a value whose
    lower-cased message is classified transient, [withRetry] with
    [maxRetries = 3] calls the operation exactly 3 times, each call from the
    state the call before left, so that the operation ends in the state after
    three failing calls; it waits [1000 * 2^(attempt-1)] milliseconds after
    the first and the second failure (1000 then 2000), waits no more after the
    third, and raises the fixed service-unavailable error. *)
Theorem always_transient_three_calls_then_unavailable :
  forall (toLowerCase : string -> string) (W T : Type) (apiCall : W -> outcome T * W),
    (forall w, exists error w1,
        apiCall w = (Thrown error, w1) /\
        isTransientError (errorMessage toLowerCase error) = true) ->
    forall w, exists effects w',
      withRetry toLowerCase apiCall 3 w =
        (Thrown (newError "The AI service is currently unavailable. Please try again in a few moments."),
         effects, w') /\
      failsTransiently toLowerCase apiCall 3 w w' /\
      w' = stateAfterCalls apiCall 3 w /\
      effects = [Invoked; Slept 1000; Invoked; Slept 2000; Invoked] /\
      calls effects = 3%nat /\
      delays effects = map (fun attempt => 1000 * 2 ^ (attempt - 1)) [1; 2] /\
      delays effects = [1000; 2000].
Proof.
  intros toLowerCase W T apiCall Hall w.
  destruct (loop_exhausts toLowerCase apiCall Hall 2 3 0 w eq_refl) as (w' & Hfail & Hrun).
  exists (backoffEffects 0 2), w'. split; [exact Hrun|].
  split; [exact Hfail|].
  split; [exact (failsTransiently_state toLowerCase apiCall 3 w w' Hfail)|].
  repeat split.
Qed.

Lemma always_transient_three_calls_then_unavailable_witness :
  exists effects,
    withRetry Examples.asciiLowerCase Examples.alwaysUnavailable 3 0%nat =
      (Thrown serviceUnavailable, effects, 3%nat) /\
    calls effects = 3%nat.
Proof.
  destruct (always_transient_three_calls_then_unavailable
              Examples.asciiLowerCase nat unit Examples.alwaysUnavailable) with (w := 0%nat)
    as (effects & w' & Hrun & _ & Hstate & _ & Hcalls & _).
  - intros w. exists (newError "503 Service Unavailable"), (S w).
    split; [reflexivity | vm_compute; reflexivity].
  - exists effects. split; [|exact Hcalls].
    rewrite Hrun, Hstate. reflexivity.
Defined.

(** C2, as the code has it.  For every operation whose first call throws a
    value not classified transient, and for every [maxRetries], [withRetry]
    raises after exactly 1 call and no wait.  When the thrown value is an
    instance of [Error] the raised error is the wrapped message, which ends
    with the original message; when it is any other value the raised error is
    the fixed unknown-error message. *)
Theorem non_transient_failure_raised_at_once :
  forall (toLowerCase : string -> string) (W T : Type) (apiCall : W -> outcome T * W)
         (maxRetries : Z) (w w1 : W) (error : thrown),
    apiCall w = (Thrown error, w1) ->
    isTransientError (errorMessage toLowerCase error) = false ->
    exists raised,
      withRetry toLowerCase apiCall maxRetries w = (@Thrown T raised, [Invoked], w1) /\
      calls [Invoked] = 1%nat /\
      delays [Invoked] = [] /\
      raised =
        match error with
        | ErrorObject _ message =>
            newError ("An unexpected error occurred while communicating with the AI service. Details: "
                        ++ message)
        | OtherValue _ =>
            newError "An unknown error occurred while communicating with the AI service."
        end.
Proof.
  intros toLowerCase W T apiCall maxRetries w w1 error Hcall Hnt.
  eexists. split; [|repeat split].
  unfold withRetry. rewrite (loop_gives_up _ _ _ _ _ _ _ Hcall) by (now left).
  now rewrite Hnt.
Qed.

Lemma non_transient_failure_raised_at_once_witness :
  withRetry Examples.asciiLowerCase Examples.badApiKey 3 0%nat =
    (Thrown (newError "An unexpected error occurred while communicating with the AI service. Details: API key not valid"),
     [Invoked], 1%nat).
Proof.
  destruct (non_transient_failure_raised_at_once
              Examples.asciiLowerCase nat unit Examples.badApiKey 3 0%nat 1%nat
              (newError "API key not valid"))
    as (raised & Hrun & _ & _ & ->).
  - reflexivity.
  - vm_compute. reflexivity.
  - exact Hrun.
Defined.

(** C2 as stated fails: an operation that rejects with the string "boom",
    which no heuristic matches, makes [withRetry] raise after one call, but
    the raised message does not carry the text "boom". *)
Lemma rejected_string_is_not_quoted :
  isTransientError (errorMessage Examples.asciiLowerCase (OtherValue "boom")) = false /\
  exists message,
    withRetry Examples.asciiLowerCase Examples.rejectsWithString 3 0%nat =
      (Thrown (newError message), [Invoked], 1%nat) /\
    includes message "boom" = false.
Proof.
  split; [vm_compute; reflexivity|].
  eexists. split; vm_compute; reflexivity.
Qed.

Section InvokerRaises.

Variable toLowerCase : string -> string.
Context {W T : Type}.
Variable apiCall : W -> outcome T * W.

(** Whatever [withRetry] raises was built by [finalError]. *)
Lemma loop_raises_final (n : nat) :
  forall (maxRetries attempt : Z) (w w' : W) (e : thrown) (effects : list effect),
    (Z.to_nat (maxRetries - attempt) <= n)%nat ->
    withRetry_loop toLowerCase apiCall maxRetries attempt w = (Thrown e, effects, w') ->
    exists error transient, e = finalError error transient.
Proof.
  induction n as [|n IH]; intros maxRetries attempt w w' e effects Hn Hrun;
    destruct (apiCall w) as [[r|error] w1] eqn:Hcall.
  1,3: rewrite (loop_returned _ _ _ _ _ _ _ Hcall) in Hrun; discriminate.
  - rewrite (loop_gives_up _ _ _ _ _ _ _ Hcall) in Hrun by (right; lia).
    injection Hrun as <- _ _. eauto.
  - destruct (isTransientError (errorMessage toLowerCase error)) eqn:Ht.
    + destruct (Z_lt_dec (attempt + 1) maxRetries) as [l|g].
      * rewrite (loop_retries _ _ _ _ _ _ _ Hcall Ht l) in Hrun.
        destruct (withRetry_loop toLowerCase apiCall maxRetries (attempt + 1) w1)
          as [[r2 effects2] w2] eqn:Hrest.
        injection Hrun as -> _ _.
        apply (IH maxRetries (attempt + 1) w1 w2 e effects2); [lia | exact Hrest].
      * rewrite (loop_gives_up _ _ _ _ _ _ _ Hcall) in Hrun by (now right).
        injection Hrun as <- _ _. eauto.
    + rewrite (loop_gives_up _ _ _ _ _ _ _ Hcall) in Hrun by (now left).
      injection Hrun as <- _ _. eauto.
Qed.

Lemma withRetry_raises_final (maxRetries : Z) (w w' : W) (e : thrown) (effects : list effect) :
  withRetry toLowerCase apiCall maxRetries w = (Thrown e, effects, w') ->
  exists error transient, e = finalError error transient.
Proof. apply (loop_raises_final (Z.to_nat (maxRetries - 0))). lia. Qed.

End InvokerRaises.

Lemma finalError_is_Error (error : thrown) (transient : bool) :
  exists message, finalError error transient = ErrorObject "Error" message.
Proof. destruct transient, error; eexists; reflexivity. Qed.

Lemma finalError_not_format (error : thrown) (transient : bool) :
  finalError error transient <> invalidQuizFormat.
Proof. destruct transient, error; cbn; discriminate. Qed.

(* ===================================================================== *)
(** * Quiz generation                                                     *)
(* ===================================================================== *)

Section GenerationFacts.

Variable toLowerCase : string -> string.
Variable trim : string -> string.
Variable JSON_parse : string -> string + json.
Context {W : Type}.
Variable generateContent : GenerateContentRequest -> W -> outcome GenerateContentResponse * W.

#[local] Abbreviation invoked := (invoked toLowerCase generateContent).

Lemma generateQuiz_unfold (c : QuizConfig) (ias : option (list IncorrectAnswer)) (w : W) :
  generateQuiz toLowerCase trim JSON_parse generateContent c ias w =
  (rethrow (match fst (fst (invoked c ias w)) with
            | Returned response => parseQuiz trim JSON_parse response
            | Thrown e => Thrown e
            end),
   snd (fst (invoked c ias w)), snd (invoked c ias w)).
Proof.
  unfold generateQuiz, invoked. cbv zeta.
  now destruct (withRetry _ _ _ _) as [[r effects] w1].
Qed.

Lemma parseQuiz_format_error (response : GenerateContentResponse) :
  parseQuiz trim JSON_parse response = Thrown invalidQuizFormat <->
  exists t quizData,
    text response = Some t /\ JSON_parse (trim t) = inr quizData /\
    (Array_isArray quizData = false \/ quizData = JArray []).
Proof.
  unfold parseQuiz. split.
  - destruct (text response) as [t|]; [|discriminate].
    destruct (JSON_parse (trim t)) as [message|quizData] eqn:Hp; [discriminate|].
    intros H. exists t, quizData. repeat split; trivial.
    destruct quizData as [| | | |[|q qs]|]; cbn in H; try discriminate; auto.
  - intros (t & quizData & -> & -> & [Hna| ->]); [|reflexivity].
    now rewrite Hna.
Qed.

Lemma parseQuiz_returns (response : GenerateContentResponse) (v : json) :
  parseQuiz trim JSON_parse response = Returned v <->
  exists t q qs,
    text response = Some t /\ JSON_parse (trim t) = inr v /\ v = JArray (q :: qs).
Proof.
  unfold parseQuiz. split.
  - destruct (text response) as [t|]; [|discriminate].
    destruct (JSON_parse (trim t)) as [message|quizData] eqn:Hp; [discriminate|].
    destruct quizData as [| | | |[|q qs]|]; cbn; try discriminate.
    intros H. injection H as <-. now exists t, q, qs.
  - intros (t & q & qs & -> & -> & ->). reflexivity.
Qed.

End GenerationFacts.

(** C3.  [generateQuiz] raises the format error "AI returned an invalid quiz
    format." exactly when its invoker returned a response whose trimmed text
    parses to a value that is not an array or is the empty array; the
    effects and the provider state of [generateQuiz] are in every case those
    of its single invoker run, so no provider call follows the parse; and
    when the text parses to a non-empty array, [generateQuiz] returns that
    array. *)
Theorem generateQuiz_format_error_iff :
  forall (toLowerCase trim : string -> string) (JSON_parse : string -> string + json)
         (W : Type)
         (generateContent : GenerateContentRequest -> W -> outcome GenerateContentResponse * W)
         (c : QuizConfig) (ias : option (list IncorrectAnswer)) (w : W),
    let run := invoked toLowerCase generateContent c ias w in
    let result := generateQuiz toLowerCase trim JSON_parse generateContent c ias w in
    snd (fst result) = snd (fst run) /\
    snd result = snd run /\
    (fst (fst result) = Thrown invalidQuizFormat <->
       exists response t quizData,
         fst (fst run) = Returned response /\
         text response = Some t /\
         JSON_parse (trim t) = inr quizData /\
         (Array_isArray quizData = false \/ quizData = JArray [])) /\
    (forall response t q qs,
        fst (fst run) = Returned response ->
        text response = Some t ->
        JSON_parse (trim t) = inr (JArray (q :: qs)) ->
        fst (fst result) = Returned (JArray (q :: qs))).
Proof.
  intros toLowerCase trim JSON_parse W generateContent c ias w run result.
  subst result. rewrite generateQuiz_unfold. fold run. cbn [fst snd].
  split; [reflexivity|]. split; [reflexivity|]. split.
  - split.
    + destruct (fst (fst run)) as [response|e] eqn:Hrun.
      * intros H. exists response.
        destruct (parseQuiz trim JSON_parse response) as [v|e] eqn:Hparse;
          [discriminate|].
        assert (e = invalidQuizFormat) as ->
            by (destruct e; cbn in H; [now injection H as -> -> | discriminate]).
        apply parseQuiz_format_error in Hparse.
        destruct Hparse as (t & quizData & Ht & Hp & Hshape).
        exists t, quizData. auto.
      * intros H. exfalso.
        destruct (withRetry_raises_final toLowerCase
                    (generateContent (quizRequest (generateQuizPrompt c ias)))
                    defaultMaxRetries w (snd run) e (snd (fst run)))
          as (error & transient & ->).
        { unfold run in *. unfold invoked in *.
          destruct (withRetry _ _ _ _) as [[r effects] w1]. cbn in *. now subst r. }
        destruct (finalError_is_Error error transient) as [message Hm].
        apply (finalError_not_format error transient).
        rewrite Hm in *. cbn in H. now injection H as ->.
    + intros (response & t & quizData & -> & Ht & Hp & Hshape).
      assert (Hparse : parseQuiz trim JSON_parse response = Thrown invalidQuizFormat)
        by (apply parseQuiz_format_error; eauto).
      now rewrite Hparse.
  - intros response t q qs -> Ht Hp.
    assert (Hparse : parseQuiz trim JSON_parse response = Returned (JArray (q :: qs)))
      by (apply parseQuiz_returns; eauto 6).
    now rewrite Hparse.
Qed.

Lemma generateQuiz_format_error_iff_witness :
  generateQuiz Examples.asciiLowerCase Examples.asciiTrim Examples.parseKnown
               (Examples.answering " [] ") Examples.kinematics None 0%nat
  = (Thrown invalidQuizFormat, [Invoked], 1%nat).
Proof.
  pose proof (generateQuiz_format_error_iff
                Examples.asciiLowerCase Examples.asciiTrim Examples.parseKnown nat
                (Examples.answering " [] ") Examples.kinematics None 0%nat)
    as (Heffects & Hstate & [_ Hraise] & _).
  destruct (generateQuiz _ _ _ _ _ _ _) as [[r effects] w1].
  cbn [fst snd] in *.
  rewrite Hraise, Heffects, Hstate; [reflexivity|].
  exists {| text := Some " [] " |}, " [] ", (JArray []).
  repeat split. now right.
Defined.




(* ===================================================================== *)
(** * Quiz completion                                                     *)
(* ===================================================================== *)

Section CompletionFacts.

Lemma at_index_middle {A : Type} (pre : list A) (x : A) (suf : list A) :
  at_index (pre ++ x :: suf) (Z.of_nat (List.length pre)) = Some x.
Proof.
  unfold at_index.
  destruct (Z.ltb_spec (Z.of_nat (List.length pre)) 0) as [H|_]; [lia|].
  rewrite Nat2Z.id, nth_error_app2 by lia.
  now rewrite Nat.sub_diag.
Qed.

Lemma answer_at_middle (pre : list (option Z)) (a : option Z) (suf : list (option Z)) :
  answer_at (pre ++ a :: suf) (Z.of_nat (List.length pre)) =
  match a with Some n => num n | None => null end.
Proof. unfold answer_at. rewrite at_index_middle. now destruct a. Qed.

Lemma next_index {A : Type} (pre : list A) (x : A) :
  Z.of_nat (List.length pre) + 1 = Z.of_nat (List.length (pre ++ [x])).
Proof. rewrite length_app. cbn. lia. Qed.

(** The [map]/[filter] pipeline from position [length qpre] on. *)
Lemma incorrect_from (qsuf : list Question) :
  forall (asuf : list (option Z)) (qpre : list Question) (apre : list (option Z)),
    List.length qpre = List.length apre ->
    List.length qsuf = List.length asuf ->
    filteri_from (Z.of_nat (List.length qpre))
      (fun (_ : IncorrectAnswer) i =>
         if is_not_null (answer_at (apre ++ asuf) i) then
           match at_index (qpre ++ qsuf) i with
           | Some q => Some (negb (strict_eq_num (answer_at (apre ++ asuf) i)
                                                 (correctAnswerIndex q)))
           | None => None
           end
         else Some false)
      (mapi_from (Z.of_nat (List.length qpre))
         (fun q i => {| asQuestion := q; userAnswerIndex := answer_at (apre ++ asuf) i |})
         qsuf)
    = Some (answeredWrong qsuf asuf).
Proof.
  induction qsuf as [|q qsuf IH]; intros [|a asuf] qpre apre Hpre Hsuf;
    try discriminate; [reflexivity|].
  cbn [mapi_from filteri_from answeredWrong].
  rewrite (next_index qpre q).
  replace (qpre ++ q :: qsuf)%list with ((qpre ++ [q]) ++ qsuf)%list
    by now rewrite <- app_assoc.
  replace (apre ++ a :: asuf)%list with ((apre ++ [a]) ++ asuf)%list
    by now rewrite <- app_assoc.
  rewrite IH by (rewrite ?length_app; cbn in *; lia).
  rewrite <- !app_assoc. cbn [List.app].
  rewrite Hpre, answer_at_middle. rewrite <- Hpre, at_index_middle.
  destruct a as [n|]; cbn; [|reflexivity].
  now destruct (n =? correctAnswerIndex q).
Qed.

Lemma incorrectOf_answeredWrong (qs : list Question) (answers : list (option Z)) :
  List.length answers = List.length qs ->
  incorrectOf qs answers = Some (answeredWrong qs answers).
Proof.
  intros H. exact (incorrect_from qs answers [] [] eq_refl (eq_sym H)).
Qed.

(** The [reduce] from position [length apre] on. *)
Lemma score_from (asuf : list (option Z)) :
  forall (qsuf qpre : list Question) (apre : list (option Z)) (acc : Z),
    List.length qpre = List.length apre ->
    List.length qsuf = List.length asuf ->
    reducei_from (Z.of_nat (List.length apre))
      (fun acc answer index =>
         match at_index (qpre ++ qsuf) index with
         | Some q =>
             Some (if strict_eq_num (match answer with Some n => num n | None => null end)
                                    (correctAnswerIndex q)
                   then acc + 1 else acc)
         | None => None
         end)
      acc asuf
    = Some (acc + matches qsuf asuf).
Proof.
  induction asuf as [|a asuf IH]; intros [|q qsuf] qpre apre acc Hpre Hsuf;
    try discriminate.
  - cbn. f_equal. lia.
  - cbn [reducei_from matches].
    rewrite <- Hpre, at_index_middle, Hpre.
    rewrite (next_index apre a).
    replace (qpre ++ q :: qsuf)%list with ((qpre ++ [q]) ++ qsuf)%list
      by now rewrite <- app_assoc.
    rewrite IH by (rewrite ?length_app; cbn in *; lia).
    f_equal. destruct a as [n|]; cbn; [destruct (n =? correctAnswerIndex q)|]; lia.
Qed.

(** The computed score is the number of matching positions. *)
Lemma scoreOf_matches (qs : list Question) (answers : list (option Z)) :
  List.length answers = List.length qs ->
  scoreOf qs answers = Some (matches qs answers).
Proof.
  intros H. exact (score_from answers qs [] [] 0 eq_refl (eq_sym H)).
Qed.

Lemma answeredWrong_In (qs : list Question) :
  forall (answers : list (option Z)) (ia : IncorrectAnswer),
    In ia (answeredWrong qs answers) <->
    exists i q n,
      nth_error qs i = Some q /\
      nth_error answers i = Some (Some n) /\
      n <> correctAnswerIndex q /\
      ia = {| asQuestion := q; userAnswerIndex := num n |}.
Proof.
  induction qs as [|q qs IH]; intros answers ia.
  - cbn. split; [contradiction|]. intros ([|i] & q & n & H & _); discriminate.
  - destruct answers as [|[n|] answers].
    + cbn. split; [contradiction|]. intros ([|i] & q' & n & _ & H & _); discriminate.
    + cbn [answeredWrong]. destruct (Z.eqb_spec n (correctAnswerIndex q)) as [E|NE].
      * rewrite IH. split.
        -- intros (i & q' & m & ?). exists (S i), q', m. assumption.
        -- intros ([|i] & q' & m & Hq & Ha & Hne & Hia); cbn in *.
           ++ injection Hq as <-. injection Ha as <-. contradiction.
           ++ exists i, q', m. auto.
      * cbn [In]. rewrite IH. split.
        -- intros [<-|(i & q' & m & ?)].
           ++ exists 0%nat, q, n. auto.
           ++ exists (S i), q', m. assumption.
        -- intros ([|i] & q' & m & Hq & Ha & Hne & Hia); cbn in *.
           ++ injection Hq as <-. injection Ha as <-. now left.
           ++ right. exists i, q', m. auto.
    + cbn [answeredWrong]. rewrite IH. split.
      * intros (i & q' & m & ?). exists (S i), q', m. assumption.
      * intros ([|i] & q' & m & Hq & Ha & Hne & Hia); cbn in *; [discriminate|].
        exists i, q', m. auto.
Qed.

Lemma handleQuizCompletion_completes (s : AppState) (answers : list (option Z))
    (now1 now2 : Z) :
  List.length answers = List.length (questions s) ->
  exists s',
    handleQuizCompletion answers now1 now2 s = (Returned tt, s') /\
    quizState s' = finished /\
    userAnswers s' = answers /\
    incorrectAnswers s' = answeredWrong (questions s) answers /\
    quizHistory s' =
      match quizConfig s with
      | Some c =>
          {| id := now1; config := c;
             score := matches (questions s) answers;
             totalQuestions := Z.of_nat (List.length (questions s));
             percentage := percentageOf (matches (questions s) answers)
                                        (Z.of_nat (List.length (questions s)));
             date := now2 |} :: quizHistory s
      | None => quizHistory s
      end.
Proof.
  intros H. unfold handleQuizCompletion. cbv zeta.
  rewrite (incorrectOf_answeredWrong _ _ H), (scoreOf_matches _ _ H).
  eexists. split; [reflexivity|].
  destruct (quizConfig s); repeat split.
Qed.

End CompletionFacts.

(** C8.  When a quiz is completed with one recorded answer per question,
    the handler ends in the finished state and the incorrect-answer list it
    stores is, in order, the questions whose recorded answer is a number
    other than the question's [correctAnswerIndex], each carrying that
    number as [userAnswerIndex]; no entry comes from a [null] answer. *)
Theorem completion_keeps_answered_wrong :
  forall (s : AppState) (answers : list (option Z)) (now1 now2 : Z),
    List.length answers = List.length (questions s) ->
    let s' := snd (handleQuizCompletion answers now1 now2 s) in
    quizState s' = finished /\
    incorrectAnswers s' = answeredWrong (questions s) answers /\
    (forall ia,
        In ia (incorrectAnswers s') <->
        exists i q n,
          nth_error (questions s) i = Some q /\
          nth_error answers i = Some (Some n) /\
          n <> correctAnswerIndex q /\
          ia = {| asQuestion := q; userAnswerIndex := num n |}) /\
    (forall ia, In ia (incorrectAnswers s') ->
        userAnswerIndex ia <> null /\ userAnswerIndex ia <> undefined).
Proof.
  intros s answers now1 now2 H s'.
  destruct (handleQuizCompletion_completes s answers now1 now2 H)
    as (s1 & Hrun & Hfin & _ & Hinc & _).
  subst s'. rewrite Hrun. cbn [snd]. rewrite Hinc.
  split; [exact Hfin|]. split; [reflexivity|]. split.
  - intros ia. apply answeredWrong_In.
  - intros ia Hin. apply answeredWrong_In in Hin.
    destruct Hin as (i & q & n & _ & _ & _ & ->). cbn. split; discriminate.
Qed.

Lemma completion_keeps_answered_wrong_witness :
  List.length (incorrectAnswers
                 (snd (handleQuizCompletion Examples.answers23of40 0 0 Examples.activeForty)))
  = 17%nat.
Proof.
  destruct (completion_keeps_answered_wrong
              Examples.activeForty Examples.answers23of40 0 0 eq_refl) as (_ & -> & _).
  reflexivity.
Defined.

(** For a quiz of 20 questions, the number the prompt asks for, the
    recorded percentage is the rounded quotient for every score. *)
Lemma percentage_of_twenty :
  Forall (fun k => percentageOf k 20 = Number.of_Z (Number.round_div (100 * k) 20))
         (map Z.of_nat (seq 0 21)).
Proof. repeat constructor. Qed.

(** C7 at a failing input.  For 40 questions and an answer array matching
    [correctAnswerIndex] at exactly 23 positions, the handler records the
    score 23 and the percentage 57, while [round (100 * 23 / 40)] is 58:
    23 / 40 * 100 evaluates to 57.49999999999999 in binary64. *)
Theorem percentage_23_of_40_recorded_as_57 :
  let out := handleQuizCompletion Examples.answers23of40 0 0 Examples.activeForty in
  matches Examples.fortyQuestions Examples.answers23of40 = 23 /\
  List.length Examples.fortyQuestions = 40%nat /\
  fst out = Returned tt /\
  map score (quizHistory (snd out)) = [23] /\
  map percentage (quizHistory (snd out)) = [Number.of_Z 57] /\
  Number.round_div (100 * 23) 40 = 58 /\
  SFltb (Number.mul (Number.div (Number.of_Z 23) (Number.of_Z 40)) (Number.of_Z 100))
        (Number.div (Number.of_Z 115) (Number.of_Z 2)) = true.
Proof. vm_compute. repeat split. Qed.

(* ===================================================================== *)
(** * The session and its re-entrancy guard                               *)
(* ===================================================================== *)

Section SessionFacts.


Lemma startQuiz_begin_accepted (c : QuizConfig) (isRetry : bool) (s : AppState) :
  isSubmittingRef s = false ->
  exists s' call,
    startQuiz_begin c isRetry s = (s', Some call) /\
    isSubmittingRef s' = true /\ quizState s' = loading /\ call_config call = c.
Proof.
  intros H. unfold startQuiz_begin. rewrite H. cbv zeta.
  eexists _, _. repeat split.
Qed.

Lemma handleQuizCompletion_keeps_ref (answers : list (option Z)) (now1 now2 : Z)
    (s : AppState) :
  isSubmittingRef (snd (handleQuizCompletion answers now1 now2 s)) = isSubmittingRef s.
Proof.
  unfold handleQuizCompletion. cbv zeta.
  destruct (incorrectOf _ _); [|reflexivity].
  destruct (scoreOf _ _); [|reflexivity].
  now destruct (quizConfig s).
Qed.

Lemma request_guarded (c : QuizConfig) (isRetry : bool) (x : Session) :
  guarded x -> guarded (request c isRetry x).
Proof.
  unfold guarded, request, startQuiz_begin.
  destruct (isSubmittingRef (appState x)) eqn:E; cbn; [now rewrite E|].
  intros ->. eexists. reflexivity.
Qed.

Lemma dispatch_guarded (x : Session) (e : event) : guarded x -> guarded (dispatch x e).
Proof.
  intros G. destruct e as [c| | |answers now1 now2|confirmed|v|n r]; cbn [dispatch].
  - now apply request_guarded.
  - destruct (quizConfig (appState x)); [now apply request_guarded | exact G].
  - exact G.
  - unfold guarded in *. cbn [appState inflight].
    now rewrite handleQuizCompletion_keeps_ref.
  - unfold guarded in *. now destruct confirmed.
  - exact G.
  - destruct (nth_error (inflight x) n) as [call|] eqn:Hn; [|exact G].
    unfold guarded in *. cbn.
    destruct (isSubmittingRef (appState x)).
    + destruct G as [call' G]. rewrite G in *.
      destruct n as [|[|n]]; cbn in Hn; try discriminate. reflexivity.
    + rewrite G in Hn. destruct n; discriminate.
Qed.

Lemma run_guarded (history : list QuizHistoryItem) (events : list event) :
  guarded (run history events).
Proof.
  unfold run. generalize (eq_refl : guarded (initialSession history)).
  generalize (initialSession history) as x. 
  induction events as [|e events IH]; intros x G; cbn [fold_left]; [exact G|].
  apply IH, dispatch_guarded, G.
Qed.

End SessionFacts.





(* ===================================================================== *)
(** * More about the invoker                                              *)
(* ===================================================================== *)

Lemma calls_backoffEffects (k : nat) :
  forall attempt, calls (backoffEffects attempt k) = S k.
Proof.
  induction k as [|k IH]; intros attempt; [reflexivity|].
  specialize (IH (attempt + 1)). unfold calls in *. cbn [backoffEffects filter List.length].
  now rewrite IH.
Qed.

Lemma delays_backoffEffects (k : nat) :
  forall attempt,
    delays (backoffEffects attempt k) =
    map (fun i => 1000 * 2 ^ (attempt + Z.of_nat i)) (seq 0 k).
Proof.
  induction k as [|k IH]; intros attempt; [reflexivity|].
  cbn [backoffEffects delays flat_map List.app seq map].
  change (flat_map _ (backoffEffects (attempt + 1) k))
    with (delays (backoffEffects (attempt + 1) k)).
  rewrite IH, <- seq_shift, map_map. f_equal.
  - f_equal. f_equal. cbn. lia.
  - apply map_ext. intros i. f_equal. f_equal. lia.
Qed.

Lemma totalDelay_backoffEffects (k : nat) :
  forall attempt,
    0 <= attempt ->
    totalDelay (backoffEffects attempt k) = 1000 * 2 ^ attempt * (2 ^ Z.of_nat k - 1).
Proof.
  induction k as [|k IH]; intros attempt Ha.
  - cbn. lia.
  - unfold totalDelay in *. cbn [backoffEffects delays flat_map List.app fold_right].
    change (flat_map _ (backoffEffects (attempt + 1) k))
      with (delays (backoffEffects (attempt + 1) k)).
    rewrite IH by lia.
    replace (attempt + 1 - 1) with attempt by lia.
    rewrite Nat2Z.inj_succ, Z.pow_succ_r by lia.
    rewrite (Z.pow_add_r 2 attempt 1) by lia. change (2 ^ 1) with 2. ring.
Qed.

(** Up to 22 waits, each wait is one the timer serves as asked. *)
Lemma delays_within_timer (k : nat) :
  (k <= 22)%nat ->
  Forall (fun ms => 0 < ms <= maxTimerDelay) (map (fun i => 1000 * 2 ^ Z.of_nat i) (seq 0 k)).
Proof.
  intros Hk. apply Forall_forall. intros ms Hin.
  apply in_map_iff in Hin. destruct Hin as (i & <- & Hi). apply in_seq in Hi.
  assert (H1 : 2 ^ Z.of_nat i <= 2 ^ 21) by (apply Z.pow_le_mono_r; lia).
  assert (H0 : 0 < 2 ^ Z.of_nat i) by (apply Z.pow_pos_nonneg; lia).
  unfold maxTimerDelay. change (2 ^ 31) with 2147483648. change (2 ^ 21) with 2097152 in H1.
  lia.
Qed.

Section InvokerRuns.

Variable toLowerCase : string -> string.
Context {W T : Type}.
Variable apiCall : W -> outcome T * W.

(** Every run is a sequence of call-and-wait rounds closed by a last call,
    with as many rounds as the attempts left allow. *)
Lemma loop_shape (n : nat) :
  forall (maxRetries attempt : Z) (w : W),
    (Z.to_nat (maxRetries - attempt) <= n)%nat ->
    exists k,
      snd (fst (withRetry_loop toLowerCase apiCall maxRetries attempt w))
        = backoffEffects attempt k /\
      Z.of_nat k <= Z.max 0 (maxRetries - attempt - 1).
Proof.
  induction n as [|n IH]; intros maxRetries attempt w Hn;
    destruct (apiCall w) as [[r|error] w1] eqn:Hcall.
  1,3: rewrite (loop_returned _ _ _ _ _ _ _ Hcall); exists 0%nat; split;
       [reflexivity | lia].
  - rewrite (loop_gives_up _ _ _ _ _ _ _ Hcall) by (right; lia).
    exists 0%nat. split; [reflexivity | lia].
  - destruct (isTransientError (errorMessage toLowerCase error)) eqn:Ht.
    + destruct (Z_lt_dec (attempt + 1) maxRetries) as [l|g].
      * rewrite (loop_retries _ _ _ _ _ _ _ Hcall Ht l).
        destruct (IH maxRetries (attempt + 1) w1) as (k & Hk & Hle); [lia|].
        destruct (withRetry_loop toLowerCase apiCall maxRetries (attempt + 1) w1)
          as [[r2 effects2] w2].
        cbn [fst snd] in *. subst effects2. exists (S k). split; [reflexivity | lia].
      * rewrite (loop_gives_up _ _ _ _ _ _ _ Hcall) by (now right).
        exists 0%nat. split; [reflexivity | lia].
    + rewrite (loop_gives_up _ _ _ _ _ _ _ Hcall) by (now left).
      exists 0%nat. split; [reflexivity | lia].
Qed.

(** A run that meets [k] transient failures with attempts to spare and then
    a success returns it. *)
Lemma loop_recovers (k : nat) :
  forall (maxRetries attempt : Z) (w wk w' : W) (r : T),
    failsTransiently toLowerCase apiCall k w wk ->
    apiCall wk = (Returned r, w') ->
    attempt + Z.of_nat k < maxRetries ->
    withRetry_loop toLowerCase apiCall maxRetries attempt w
      = (Returned r, backoffEffects attempt k, w').
Proof.
  induction k as [|k IH]; intros maxRetries attempt w wk w' r Hfail Hok Hlt;
    inversion Hfail; subst.
  - now apply loop_returned.
  - match goal with
    | Hc : apiCall w = (Thrown ?e, ?w1), Ht : isTransientError _ = true |- _ =>
        rewrite (loop_retries _ _ _ _ _ _ _ Hc Ht) by lia;
        rewrite (IH maxRetries (attempt + 1) w1 wk w' r) by (trivial; lia)
    end.
    reflexivity.
Qed.

(** A run that meets as many transient failures as it has attempts gives
    up at the last of them. *)
Lemma loop_exhausted_by (k : nat) :
  forall (maxRetries attempt : Z) (w w' : W),
    failsTransiently toLowerCase apiCall (S k) w w' ->
    Z.of_nat k = Z.max 0 (maxRetries - attempt - 1) ->
    withRetry_loop toLowerCase apiCall maxRetries attempt w
      = (Thrown serviceUnavailable, backoffEffects attempt k, w').
Proof.
  induction k as [|k IH]; intros maxRetries attempt w w' Hfail Hk;
    inversion Hfail; subst.
  - match goal with
    | Hc : apiCall w = (Thrown ?e, ?w1), Ht : isTransientError _ = true,
      Hr : failsTransiently _ _ 0 _ _ |- _ =>
        inversion Hr; subst;
        rewrite (loop_gives_up _ _ _ _ _ _ _ Hc) by (right; lia);
        now rewrite Ht
    end.
  - match goal with
    | Hc : apiCall w = (Thrown ?e, ?w1), Ht : isTransientError _ = true |- _ =>
        rewrite (loop_retries _ _ _ _ _ _ _ Hc Ht) by lia;
        rewrite (IH maxRetries (attempt + 1) w1 w') by (trivial; lia)
    end.
    reflexivity.
Qed.

(** A run leaves the operation in the state after as many calls in a row as
    its trace counts. *)
Lemma loop_state (n : nat) :
  forall (maxRetries attempt : Z) (w : W),
    (Z.to_nat (maxRetries - attempt) <= n)%nat ->
    snd (withRetry_loop toLowerCase apiCall maxRetries attempt w)
      = stateAfterCalls apiCall
          (calls (snd (fst (withRetry_loop toLowerCase apiCall maxRetries attempt w)))) w.
Proof.
  induction n as [|n IH]; intros maxRetries attempt w Hn;
    destruct (apiCall w) as [[r|error] w1] eqn:Hcall.
  1,3: rewrite (loop_returned _ _ _ _ _ _ _ Hcall); cbn; now rewrite Hcall.
  - rewrite (loop_gives_up _ _ _ _ _ _ _ Hcall) by (right; lia). cbn. now rewrite Hcall.
  - destruct (isTransientError (errorMessage toLowerCase error)) eqn:Ht.
    + destruct (Z_lt_dec (attempt + 1) maxRetries) as [l|g].
      * rewrite (loop_retries _ _ _ _ _ _ _ Hcall Ht l).
        pose proof (IH maxRetries (attempt + 1) w1) as Hrest.
        destruct (withRetry_loop toLowerCase apiCall maxRetries (attempt + 1) w1)
          as [[r2 effects2] w2].
        cbn [fst snd] in *. rewrite Hrest by lia.
        unfold calls. cbn [filter List.length stateAfterCalls]. now rewrite Hcall.
      * rewrite (loop_gives_up _ _ _ _ _ _ _ Hcall) by (now right). cbn. now rewrite Hcall.
    + rewrite (loop_gives_up _ _ _ _ _ _ _ Hcall) by (now left). cbn. now rewrite Hcall.
Qed.

(** What a run raises comes from its last call, whose state it leaves; a
    transient last failure means the attempts are used up. *)
Lemma loop_raises_last (n : nat) :
  forall (maxRetries attempt : Z) (w w' : W) (e : thrown) (effects : list effect),
    (Z.to_nat (maxRetries - attempt) <= n)%nat ->
    0 <= attempt ->
    withRetry_loop toLowerCase apiCall maxRetries attempt w = (Thrown e, effects, w') ->
    exists error wl,
      apiCall wl = (Thrown error, w') /\
      e = finalError error (isTransientError (errorMessage toLowerCase error)) /\
      (isTransientError (errorMessage toLowerCase error) = true ->
       maxRetries <= attempt + Z.of_nat (calls effects)).
Proof.
  induction n as [|n IH]; intros maxRetries attempt w w' e effects Hn Ha Hrun;
    destruct (apiCall w) as [[r|error] w1] eqn:Hcall.
  1,3: rewrite (loop_returned _ _ _ _ _ _ _ Hcall) in Hrun; discriminate.
  - rewrite (loop_gives_up _ _ _ _ _ _ _ Hcall) in Hrun by (right; lia).
    injection Hrun as <- <- <-. exists error, w. repeat split; trivial. cbn. lia.
  - destruct (isTransientError (errorMessage toLowerCase error)) eqn:Ht.
    + destruct (Z_lt_dec (attempt + 1) maxRetries) as [l|g].
      * rewrite (loop_retries _ _ _ _ _ _ _ Hcall Ht l) in Hrun.
        destruct (withRetry_loop toLowerCase apiCall maxRetries (attempt + 1) w1)
          as [[r2 effects2] w2] eqn:Hrest.
        injection Hrun as -> <- ->.
        destruct (IH maxRetries (attempt + 1) w1 w' e effects2) as (err & wl & H1 & H2 & H3);
          [lia | lia | exact Hrest |].
        exists err, wl. repeat split; trivial.
        intros Htr. specialize (H3 Htr).
        unfold calls in *. cbn [filter List.length]. lia.
      * rewrite (loop_gives_up _ _ _ _ _ _ _ Hcall) in Hrun by (now right).
        injection Hrun as <- <- <-. exists error, w. rewrite Ht.
        repeat split; trivial. cbn. lia.
    + rewrite (loop_gives_up _ _ _ _ _ _ _ Hcall) in Hrun by (now left).
      injection Hrun as <- <- <-. exists error, w. rewrite Ht.
      repeat split; trivial. discriminate.
Qed.

End InvokerRuns.

(** X1.  When the operation fails [k] times in a row with transient
    failures, [k] being less than [maxRetries] and at most 22, and its next
    call succeeds, [withRetry] returns the value of that call after [k + 1]
    calls, leaving the operation in the state after them, having waited 1000,
    2000, ... [1000 * 2^(k-1)] milliseconds between them.  Up to 22 failures
    every one of these delays is below the limit of the timer, so it is the
    time waited. *)
Theorem withRetry_recovers_after_transient_failures :
  forall (toLowerCase : string -> string) (W T : Type) (apiCall : W -> outcome T * W)
         (maxRetries : Z) (k : nat) (w wk w' : W) (r : T),
    failsTransiently toLowerCase apiCall k w wk ->
    apiCall wk = (Returned r, w') ->
    Z.of_nat k < maxRetries ->
    (k <= 22)%nat ->
    exists effects,
      withRetry toLowerCase apiCall maxRetries w = (Returned r, effects, w') /\
      calls effects = S k /\
      delays effects = map (fun i => 1000 * 2 ^ Z.of_nat i) (seq 0 k) /\
      Forall (fun ms => 0 < ms <= maxTimerDelay) (delays effects).
Proof.
  intros toLowerCase W T apiCall maxRetries k w wk w' r Hfail Hok Hlt Hk.
  exists (backoffEffects 0 k). split.
  - apply (loop_recovers toLowerCase apiCall k maxRetries 0 w wk w' r Hfail Hok). lia.
  - split; [apply calls_backoffEffects|].
    rewrite delays_backoffEffects. split; [reflexivity | now apply delays_within_timer].
Qed.

Lemma withRetry_recovers_after_transient_failures_witness :
  exists effects,
    withRetry Examples.asciiLowerCase MoreExamples.flaky 3 0%nat = (Returned 2%nat, effects, 3%nat) /\
    calls effects = 3%nat /\
    delays effects = [1000; 2000] /\
    Forall (fun ms => 0 < ms <= maxTimerDelay) (delays effects).
Proof.
  apply (withRetry_recovers_after_transient_failures
           Examples.asciiLowerCase nat nat MoreExamples.flaky 3 2 0%nat 2%nat 3%nat 2%nat).
  - apply (failsTransiently_S _ _ 1 0%nat 1%nat 2%nat (newError "503 Service Unavailable"));
      [reflexivity | vm_compute; reflexivity |].
    apply (failsTransiently_S _ _ 0 1%nat 2%nat 2%nat (newError "503 Service Unavailable"));
      [reflexivity | vm_compute; reflexivity |].
    apply failsTransiently_0.
  - reflexivity.
  - lia.
  - lia.
Defined.

(** X2.  For every operation, every [maxRetries] up to 23 and every start
    state, a run of [withRetry] makes at least one call and at most
    [max 1 maxRetries] calls, each from the state the call before left, and
    leaves the operation in the state after them.  It waits only between
    calls (never after the last one), the i-th wait being [1000 * 2^(i-1)]
    milliseconds, so that the waits of a run with [n] calls add up to
    [1000 * (2^(n-1) - 1)].  With [maxRetries] up to 23 there are at most 22
    waits, each below the limit of the timer. *)
Theorem withRetry_calls_and_waits_bounded :
  forall (toLowerCase : string -> string) (W T : Type) (apiCall : W -> outcome T * W)
         (maxRetries : Z) (w : W),
    maxRetries <= 23 ->
    let run := withRetry toLowerCase apiCall maxRetries w in
    let effects := snd (fst run) in
    exists k,
      effects = backoffEffects 0 k /\
      calls effects = S k /\
      Z.of_nat (calls effects) <= Z.max 1 maxRetries /\
      snd run = stateAfterCalls apiCall (calls effects) w /\
      delays effects = map (fun i => 1000 * 2 ^ Z.of_nat i) (seq 0 k) /\
      Forall (fun ms => 0 < ms <= maxTimerDelay) (delays effects) /\
      totalDelay effects = 1000 * (2 ^ Z.of_nat k - 1).
Proof.
  intros toLowerCase W T apiCall maxRetries w Hmax run effects.
  pose proof (loop_state toLowerCase apiCall (Z.to_nat (maxRetries - 0)) maxRetries 0 w
                (Nat.le_refl _)) as Hstate.
  destruct (loop_shape toLowerCase apiCall (Z.to_nat (maxRetries - 0)) maxRetries 0 w)
    as (k & Hk & Hle); [lia|].
  exists k. subst effects run. unfold withRetry in *. rewrite Hstate, Hk.
  rewrite calls_backoffEffects, delays_backoffEffects, totalDelay_backoffEffects by lia.
  repeat split; try lia.
  apply delays_within_timer. lia.
Qed.

Lemma withRetry_calls_and_waits_bounded_witness :
  let run := withRetry Examples.asciiLowerCase MoreExamples.flaky 3 0%nat in
  let effects := snd (fst run) in
  exists k,
    effects = backoffEffects 0 k /\
    calls effects = S k /\
    Z.of_nat (calls effects) <= Z.max 1 3 /\
    snd run = stateAfterCalls MoreExamples.flaky (calls effects) 0%nat /\
    delays effects = map (fun i => 1000 * 2 ^ Z.of_nat i) (seq 0 k) /\
    Forall (fun ms => 0 < ms <= maxTimerDelay) (delays effects) /\
    totalDelay effects = 1000 * (2 ^ Z.of_nat k - 1).
Proof.
  apply (withRetry_calls_and_waits_bounded
           Examples.asciiLowerCase nat nat MoreExamples.flaky 3 0%nat).
  lia.
Defined.

(** X3.  When the operation fails with transient failures as many times in
    a row as the run has attempts ([max 1 maxRetries], so once for a
    [maxRetries] of 1, 0 or less), [withRetry] raises the service-unavailable
    error at the last of them, whatever a further call would have given. *)
Theorem withRetry_gives_up_when_attempts_used :
  forall (toLowerCase : string -> string) (W T : Type) (apiCall : W -> outcome T * W)
         (maxRetries : Z) (n : nat) (w w' : W),
    Z.of_nat n = Z.max 1 maxRetries ->
    failsTransiently toLowerCase apiCall n w w' ->
    exists effects,
      withRetry toLowerCase apiCall maxRetries w = (Thrown serviceUnavailable, effects, w') /\
      calls effects = n /\
      List.length (delays effects) = (n - 1)%nat.
Proof.
  intros toLowerCase W T apiCall maxRetries n w w' Hn Hfail.
  destruct n as [|k]; [lia|].
  exists (backoffEffects 0 k). split.
  - apply (loop_exhausted_by toLowerCase apiCall k maxRetries 0 w w' Hfail). lia.
  - rewrite calls_backoffEffects, delays_backoffEffects, length_map, length_seq.
    split; [reflexivity | lia].
Qed.

Lemma withRetry_gives_up_when_attempts_used_witness :
  exists effects,
    withRetry Examples.asciiLowerCase MoreExamples.flaky 2 0%nat
      = (Thrown serviceUnavailable, effects, 2%nat) /\
    calls effects = 2%nat /\
    List.length (delays effects) = 1%nat.
Proof.
  apply (withRetry_gives_up_when_attempts_used
           Examples.asciiLowerCase nat nat MoreExamples.flaky 2 2 0%nat 2%nat).
  - reflexivity.
  - apply (failsTransiently_S _ _ 1 0%nat 1%nat 2%nat (newError "503 Service Unavailable"));
      [reflexivity | vm_compute; reflexivity |].
    apply (failsTransiently_S _ _ 0 1%nat 2%nat 2%nat (newError "503 Service Unavailable"));
      [reflexivity | vm_compute; reflexivity |].
    apply failsTransiently_0.
Defined.

(** X4.  Whatever [withRetry] raises is one of its own three errors, built
    from the failure of its last call: the service-unavailable error when
    that failure is transient, the wrapped message when it is another
    [Error], the unknown-error message otherwise.  It leaves the operation
    in the state after that call, and it raises on a transient failure only
    when [maxRetries] calls have been made. *)
Theorem withRetry_raises_from_last_failure :
  forall (toLowerCase : string -> string) (W T : Type) (apiCall : W -> outcome T * W)
         (maxRetries : Z) (w w' : W) (e : thrown) (effects : list effect),
    withRetry toLowerCase apiCall maxRetries w = (Thrown e, effects, w') ->
    exists error wl,
      apiCall wl = (Thrown error, w') /\
      (isTransientError (errorMessage toLowerCase error) = true ->
         e = newError "The AI service is currently unavailable. Please try again in a few moments." /\
         maxRetries <= Z.of_nat (calls effects)) /\
      (isTransientError (errorMessage toLowerCase error) = false ->
         e = match error with
             | ErrorObject _ message =>
                 newError ("An unexpected error occurred while communicating with the AI service. Details: "
                             ++ message)
             | OtherValue _ =>
                 newError "An unknown error occurred while communicating with the AI service."
             end).
Proof.
  intros toLowerCase W T apiCall maxRetries w w' e effects Hrun.
  destruct (loop_raises_last toLowerCase apiCall (Z.to_nat (maxRetries - 0))
              maxRetries 0 w w' e effects) as (error & wl & Hcall & He & Hmax);
    [lia | lia | exact Hrun |].
  exists error, wl. split; [exact Hcall|]. split.
  - intros Ht. rewrite Ht in He. split; [exact He | specialize (Hmax Ht); lia].
  - intros Hf. now rewrite Hf in He.
Qed.

Lemma withRetry_raises_from_last_failure_witness :
  exists error wl,
    Examples.badApiKey wl = (Thrown error, 1%nat) /\
    isTransientError (errorMessage Examples.asciiLowerCase error) = false.
Proof.
  destruct (withRetry_raises_from_last_failure
              Examples.asciiLowerCase nat unit Examples.badApiKey 3 0%nat 1%nat
              (newError "An unexpected error occurred while communicating with the AI service. Details: API key not valid")
              [Invoked])
    as (error & wl & Hcall & _ & _).
  - vm_compute. reflexivity.
  - exists error, wl. split; [exact Hcall|].
    unfold Examples.badApiKey in Hcall. injection Hcall as <- _. vm_compute. reflexivity.
Defined.

(* ===================================================================== *)
(** * More about generation                                               *)
(* ===================================================================== *)

Section MoreGenerationFacts.

Variable toLowerCase : string -> string.
Variable trim : string -> string.
Variable JSON_parse : string -> string + json.
Context {W : Type}.
Variable generateContent : GenerateContentRequest -> W -> outcome GenerateContentResponse * W.

(** The runs of the invoker inside the two suggestion functions. *)
#[local] Abbreviation suggestionsRun c ias w :=
  (withRetry toLowerCase
     (generateContent (suggestionsRequest (generateSuggestionsPrompt c ias)))
     defaultMaxRetries w).

#[local] Abbreviation improvementRun c ias w :=
  (withRetry toLowerCase
     (generateContent (improvementRequest (generateImprovementSuggestionsPrompt c ias)))
     defaultMaxRetries w).

Lemma generateSuggestions_unfold (c : QuizConfig) (ias : list IncorrectAnswer) (w : W) :
  generateSuggestions toLowerCase trim JSON_parse generateContent c ias w =
  (rethrowAs "An unknown error occurred while fetching learning suggestions."
     (match fst (fst (suggestionsRun c ias w)) with
      | Returned response => parseSuggestions trim JSON_parse response
      | Thrown e => Thrown e
      end),
   snd (fst (suggestionsRun c ias w)), snd (suggestionsRun c ias w)).
Proof.
  unfold generateSuggestions. cbv zeta.
  now destruct (withRetry _ _ _ _) as [[r effects] w1].
Qed.

Lemma generateImprovementSuggestions_unfold (c : QuizConfig) (ias : list IncorrectAnswer)
    (w : W) :
  generateImprovementSuggestions toLowerCase trim JSON_parse generateContent c ias w =
  (rethrowAs "An unknown error occurred while fetching improvement topics."
     (match fst (fst (improvementRun c ias w)) with
      | Returned response => parseImprovement trim JSON_parse response
      | Thrown e => Thrown e
      end),
   snd (fst (improvementRun c ias w)), snd (improvementRun c ias w)).
Proof.
  unfold generateImprovementSuggestions. cbv zeta.
  now destruct (withRetry _ _ _ _) as [[r effects] w1].
Qed.

Lemma parseSuggestions_returns (response : GenerateContentResponse) (v : json) :
  parseSuggestions trim JSON_parse response = Returned v <->
  exists t,
    text response = Some t /\ JSON_parse (trim t) = inr v /\
    truthy v = true /\ truthyField v "books" = true /\ truthyField v "youtube" = true.
Proof.
  unfold parseSuggestions. split.
  - destruct (text response) as [t|]; [|discriminate].
    destruct (JSON_parse (trim t)) as [message|data] eqn:Hp; [discriminate|].
    destruct (truthy data) eqn:H1, (truthyField data "books") eqn:H2,
             (truthyField data "youtube") eqn:H3; cbn; try discriminate.
    intros H. injection H as <-. exists t. auto.
  - intros (t & -> & -> & -> & -> & ->). reflexivity.
Qed.

Lemma parseSuggestions_format_error (response : GenerateContentResponse) :
  parseSuggestions trim JSON_parse response = Thrown invalidSuggestionFormat <->
  exists t v,
    text response = Some t /\ JSON_parse (trim t) = inr v /\
    (truthy v = false \/ truthyField v "books" = false \/ truthyField v "youtube" = false).
Proof.
  unfold parseSuggestions. split.
  - destruct (text response) as [t|]; [|discriminate].
    destruct (JSON_parse (trim t)) as [message|data] eqn:Hp; [discriminate|].
    intros H. exists t, data. repeat split; trivial.
    destruct (truthy data), (truthyField data "books"), (truthyField data "youtube");
      cbn in H; try discriminate; auto.
  - intros (t & v & -> & -> & H).
    destruct (truthy v), (truthyField v "books"), (truthyField v "youtube");
      cbn; try reflexivity; destruct H as [H|[H|H]]; discriminate.
Qed.

Lemma parseImprovement_returns (response : GenerateContentResponse) (v : json) :
  parseImprovement trim JSON_parse response = Returned v <->
  exists t,
    text response = Some t /\ JSON_parse (trim t) = inr v /\
    truthy v = true /\ truthyField v "topicsToImprove" = true.
Proof.
  unfold parseImprovement. split.
  - destruct (text response) as [t|]; [|discriminate].
    destruct (JSON_parse (trim t)) as [message|data] eqn:Hp; [discriminate|].
    destruct (truthy data) eqn:H1, (truthyField data "topicsToImprove") eqn:H2;
      cbn; try discriminate.
    intros H. injection H as <-. exists t. auto.
  - intros (t & -> & -> & -> & ->). reflexivity.
Qed.

Lemma parseImprovement_format_error (response : GenerateContentResponse) :
  parseImprovement trim JSON_parse response = Thrown invalidImprovementFormat <->
  exists t v,
    text response = Some t /\ JSON_parse (trim t) = inr v /\
    (truthy v = false \/ truthyField v "topicsToImprove" = false).
Proof.
  unfold parseImprovement. split.
  - destruct (text response) as [t|]; [|discriminate].
    destruct (JSON_parse (trim t)) as [message|data] eqn:Hp; [discriminate|].
    intros H. exists t, data. repeat split; trivial.
    destruct (truthy data), (truthyField data "topicsToImprove");
      cbn in H; try discriminate; auto.
  - intros (t & v & -> & -> & H).
    destruct (truthy v), (truthyField v "topicsToImprove");
      cbn; try reflexivity; destruct H as [H|H]; discriminate.
Qed.

(** What the invoker raises passes the [catch] blocks unchanged. *)
Lemma raised_by_invoker_is_rethrown {A B : Type} (apiCall : W -> outcome A * W)
    (maxRetries : Z) (w w' : W) (e : thrown) (effects : list effect) (unknown : string) :
  withRetry toLowerCase apiCall maxRetries w = (Thrown e, effects, w') ->
  rethrowAs unknown (@Thrown B e) = Thrown e /\ rethrow (@Thrown B e) = Thrown e /\
  exists error transient, e = finalError error transient.
Proof.
  intros Hrun.
  destruct (withRetry_raises_final toLowerCase apiCall maxRetries w w' e effects Hrun)
    as (error & transient & ->).
  destruct (finalError_is_Error error transient) as [message Hm].
  rewrite Hm. repeat split. rewrite <- Hm. eauto.
Qed.

End MoreGenerationFacts.

Lemma split_run {A W : Type} (x : outcome A * list effect * W) :
  x = (fst (fst x), snd (fst x), snd x).
Proof. now destruct x as [[r effects] w]. Qed.

(** X5.  When its invoker raises, [generateQuiz] raises the invoker's error
    unchanged; and whatever the provider, the parser and the input, it never
    raises the error "An unknown error occurred while generating the quiz."
    of its [catch] block. *)
Theorem generateQuiz_propagates_invoker_error :
  forall (toLowerCase trim : string -> string) (JSON_parse : string -> string + json)
         (W : Type)
         (generateContent : GenerateContentRequest -> W -> outcome GenerateContentResponse * W)
         (c : QuizConfig) (ias : option (list IncorrectAnswer)) (w : W),
    let result := fst (fst (generateQuiz toLowerCase trim JSON_parse generateContent c ias w)) in
    (forall e, fst (fst (invoked toLowerCase generateContent c ias w)) = Thrown e ->
               result = Thrown e) /\
    result <> Thrown (newError "An unknown error occurred while generating the quiz.").
Proof.
  intros toLowerCase trim JSON_parse W generateContent c ias w result.
  subst result. rewrite generateQuiz_unfold. cbn [fst snd].
  pose proof (split_run (invoked toLowerCase generateContent c ias w)) as Hrun.
  destruct (fst (fst (invoked toLowerCase generateContent c ias w))) as [response|e0].
  - split; [discriminate|].
    unfold parseQuiz. destruct (text response) as [t|]; [|discriminate].
    destruct (JSON_parse (trim t)) as [message|quizData]; [discriminate|].
    destruct (negb (Array_isArray quizData) || (json_length quizData =? 0)); discriminate.
  - unfold invoked in Hrun.
    destruct (raised_by_invoker_is_rethrown (B := json) toLowerCase _ _ _ _ _ _ "" Hrun)
      as (_ & Hre & error & transient & He).
    rewrite Hre. split.
    + now intros e [= ->].
    + rewrite He. destruct transient, error; discriminate.
Qed.

Lemma generateQuiz_propagates_invoker_error_witness :
  fst (fst (generateQuiz Examples.asciiLowerCase Examples.asciiTrim Examples.parseKnown
                         MoreExamples.unavailableProvider
                         Examples.kinematics None 0%nat))
  = Thrown serviceUnavailable.
Proof.
  apply (generateQuiz_propagates_invoker_error
           Examples.asciiLowerCase Examples.asciiTrim Examples.parseKnown nat
           MoreExamples.unavailableProvider Examples.kinematics None 0%nat).
  vm_compute. reflexivity.
Defined.

(** X6.  Whatever the provider does, each of the three generation functions
    makes at least one and at most 3 provider calls and waits at most 3000
    milliseconds in all. *)
Theorem generation_calls_and_waits_bounded :
  forall (toLowerCase trim : string -> string) (JSON_parse : string -> string + json)
         (W : Type)
         (generateContent : GenerateContentRequest -> W -> outcome GenerateContentResponse * W)
         (c : QuizConfig) (optional : option (list IncorrectAnswer))
         (ias : list IncorrectAnswer) (w : W),
    let bounded (effects : list effect) :=
      (1 <= calls effects <= 3)%nat /\ 0 <= totalDelay effects <= 3000 in
    bounded (snd (fst (generateQuiz toLowerCase trim JSON_parse generateContent c optional w))) /\
    bounded (snd (fst (generateSuggestions toLowerCase trim JSON_parse generateContent c ias w))) /\
    bounded (snd (fst (generateImprovementSuggestions toLowerCase trim JSON_parse
                         generateContent c ias w))).
Proof.
  intros toLowerCase trim JSON_parse W generateContent c optional ias w bounded.
  assert (B : forall apiCall : W -> outcome GenerateContentResponse * W,
             bounded (snd (fst (withRetry toLowerCase apiCall defaultMaxRetries w)))).
  { intros apiCall.
    destruct (loop_shape toLowerCase apiCall (Z.to_nat (defaultMaxRetries - 0))
                defaultMaxRetries 0 w) as (k & Hk & Hle); [lia|].
    unfold bounded, withRetry. rewrite Hk.
    rewrite calls_backoffEffects, totalDelay_backoffEffects by lia.
    unfold defaultMaxRetries in Hle.
    assert (k = 0 \/ k = 1 \/ k = 2)%nat as [ -> | [ -> | -> ] ] by lia; cbn; lia. }
  rewrite generateQuiz_unfold, generateSuggestions_unfold, generateImprovementSuggestions_unfold.
  cbn [fst snd]. unfold invoked. repeat split; apply B.
Qed.

(** X7.  [generateSuggestions] returns a value exactly when its invoker
    returned a response whose trimmed text parses to a truthy value with a
    truthy [books] and a truthy [youtube]; it raises the error "AI returned
    an invalid suggestion format." exactly when the text parses and one of
    the three is falsy.  A present field is enough: empty [books] and
    [youtube] arrays are accepted. *)
Theorem generateSuggestions_validation :
  forall (toLowerCase trim : string -> string) (JSON_parse : string -> string + json)
         (W : Type)
         (generateContent : GenerateContentRequest -> W -> outcome GenerateContentResponse * W)
         (c : QuizConfig) (ias : list IncorrectAnswer) (w : W),
    let run := withRetry toLowerCase
                 (generateContent (suggestionsRequest (generateSuggestionsPrompt c ias)))
                 defaultMaxRetries w in
    let result :=
      fst (fst (generateSuggestions toLowerCase trim JSON_parse generateContent c ias w)) in
    (forall v,
        result = Returned v <->
        exists response t,
          fst (fst run) = Returned response /\ text response = Some t /\
          JSON_parse (trim t) = inr v /\
          truthy v = true /\ truthyField v "books" = true /\ truthyField v "youtube" = true) /\
    (result = Thrown invalidSuggestionFormat <->
       exists response t v,
         fst (fst run) = Returned response /\ text response = Some t /\
         JSON_parse (trim t) = inr v /\
         (truthy v = false \/ truthyField v "books" = false \/ truthyField v "youtube" = false)) /\
    (forall response t rest,
        fst (fst run) = Returned response -> text response = Some t ->
        JSON_parse (trim t)
          = inr (JObject (("books", JArray []) :: ("youtube", JArray []) :: rest)) ->
        result = Returned (JObject (("books", JArray []) :: ("youtube", JArray []) :: rest))).
Proof.
  intros toLowerCase trim JSON_parse W generateContent c ias w run result.
  subst result. rewrite generateSuggestions_unfold. fold run. cbn [fst snd].
  pose proof (split_run run) as Hrun.
  assert (Hpass : forall response,
             rethrowAs "An unknown error occurred while fetching learning suggestions."
               (parseSuggestions trim JSON_parse response)
             = parseSuggestions trim JSON_parse response).
  { intros response. unfold parseSuggestions.
    destruct (text response) as [t|]; [|reflexivity].
    destruct (JSON_parse (trim t)) as [message|v]; [reflexivity|].
    now destruct (negb (truthy v) || negb (truthyField v "books")
                  || negb (truthyField v "youtube")). }
  destruct (fst (fst run)) as [response|e].
  - rewrite Hpass. split; [|split].
    + intros v. rewrite parseSuggestions_returns. split.
      * intros (t & H). exists response, t. tauto.
      * intros (response' & t & [= ->] & H). exists t. tauto.
    + rewrite parseSuggestions_format_error. split.
      * intros (t & v & H). exists response, t, v. tauto.
      * intros (response' & t & v & [= ->] & H). exists t, v. tauto.
    + intros response' t rest [= ->] Ht Hp.
      apply parseSuggestions_returns. exists t. repeat split; trivial.
  - destruct (raised_by_invoker_is_rethrown (B := json) toLowerCase _ _ _ _ _ _
                "An unknown error occurred while fetching learning suggestions." Hrun)
      as (Hre & _ & error & transient & He).
    rewrite Hre. split; [|split].
    + intros v. split; [discriminate|]. intros (response & t & H & _). discriminate.
    + split.
      * rewrite He. destruct transient, error; discriminate.
      * intros (response & t & v & H & _). discriminate.
    + intros response t rest H. discriminate.
Qed.

(** X8.  [generateImprovementSuggestions] returns a value exactly when its
    invoker returned a response whose trimmed text parses to a truthy value
    with a truthy [topicsToImprove], and raises the error "AI returned an
    invalid improvement topics format." exactly when the text parses and one
    of the two is falsy. *)
Theorem generateImprovementSuggestions_validation :
  forall (toLowerCase trim : string -> string) (JSON_parse : string -> string + json)
         (W : Type)
         (generateContent : GenerateContentRequest -> W -> outcome GenerateContentResponse * W)
         (c : QuizConfig) (ias : list IncorrectAnswer) (w : W),
    let run := withRetry toLowerCase
                 (generateContent
                    (improvementRequest (generateImprovementSuggestionsPrompt c ias)))
                 defaultMaxRetries w in
    let result :=
      fst (fst (generateImprovementSuggestions toLowerCase trim JSON_parse
                  generateContent c ias w)) in
    (forall v,
        result = Returned v <->
        exists response t,
          fst (fst run) = Returned response /\ text response = Some t /\
          JSON_parse (trim t) = inr v /\
          truthy v = true /\ truthyField v "topicsToImprove" = true) /\
    (result = Thrown invalidImprovementFormat <->
       exists response t v,
         fst (fst run) = Returned response /\ text response = Some t /\
         JSON_parse (trim t) = inr v /\
         (truthy v = false \/ truthyField v "topicsToImprove" = false)).
Proof.
  intros toLowerCase trim JSON_parse W generateContent c ias w run result.
  subst result. rewrite generateImprovementSuggestions_unfold. fold run. cbn [fst snd].
  pose proof (split_run run) as Hrun.
  assert (Hpass : forall response,
             rethrowAs "An unknown error occurred while fetching improvement topics."
               (parseImprovement trim JSON_parse response)
             = parseImprovement trim JSON_parse response).
  { intros response. unfold parseImprovement.
    destruct (text response) as [t|]; [|reflexivity].
    destruct (JSON_parse (trim t)) as [message|v]; [reflexivity|].
    now destruct (negb (truthy v) || negb (truthyField v "topicsToImprove")). }
  destruct (fst (fst run)) as [response|e].
  - rewrite Hpass. split.
    + intros v. rewrite parseImprovement_returns. split.
      * intros (t & H). exists response, t. tauto.
      * intros (response' & t & [= ->] & H). exists t. tauto.
    + rewrite parseImprovement_format_error. split.
      * intros (t & v & H). exists response, t, v. tauto.
      * intros (response' & t & v & [= ->] & H). exists t, v. tauto.
  - destruct (raised_by_invoker_is_rethrown (B := json) toLowerCase _ _ _ _ _ _
                "An unknown error occurred while fetching improvement topics." Hrun)
      as (Hre & _ & error & transient & He).
    rewrite Hre. split.
    + intros v. split; [discriminate|]. intros (response & t & H & _). discriminate.
    + split.
      * rewrite He. destruct transient, error; discriminate.
      * intros (response & t & v & H & _). discriminate.
Qed.

(** A part between a given beginning and whatever follows. *)
Lemma includes_middle (before part after : string) :
  includes (before ++ part ++ after) part = true.
Proof. apply includes_append_r, includes_append_l, includes_self. Qed.

(** [between before]: the part searched for follows [before] in the string. *)
Ltac between before :=
  match goal with
  | |- includes ?s ?part = true =>
      let H := fresh in
      assert (H : exists rest, s = before ++ part ++ rest)
        by (eexists; rewrite ?append_assoc; reflexivity);
      destruct H as [? ->]; apply includes_middle
  end.

Lemma suggestion_prompts_lines (c : QuizConfig) (ias : list IncorrectAnswer)
    (a : IncorrectAnswer) :
  In a ias ->
  includes (generateSuggestionsPrompt c ias) (mistakeLine a) = true /\
  includes (generateQuizPrompt c (Some ias)) (mistakeLine a) = true /\
  includes (generateImprovementSuggestionsPrompt c ias) (improvementLine a) = true.
Proof.
  intros Hin.
  unfold generateSuggestionsPrompt, generateImprovementSuggestionsPrompt. cbv zeta.
  assert (Hline : includes (join nl (map mistakeLine ias)) (mistakeLine a) = true)
    by (apply includes_join; now apply in_map).
  assert (Himp : includes (join nl (map improvementLine ias)) (improvementLine a) = true)
    by (apply includes_join; now apply in_map).
  split; [|split].
  - do 11 apply includes_append_r. apply includes_append_l. exact Hline.
  - rewrite generateQuizPrompt_split. apply includes_append_r.
    destruct ias as [|b rest]; [destruct Hin|].
    now apply mistakeBlock_includes_line.
  - do 10 apply includes_append_r. apply includes_append_l. exact Himp.
Qed.

(** X9.  For every configuration and every list of incorrect answers, the
    learning-resources prompt names the subject, the topic and the exam and
    contains, for each mistake, the very line the retry quiz prompt lists
    for it (question, chosen option, correct option); the improvement prompt
    names the exam, the subject and the quoted topic and contains, for each
    mistake, its question and chosen option.  Neither builder checks for an
    empty list: the prompt is then built with an empty mistake section. *)
Theorem suggestion_prompts_list_mistakes :
  forall (c : QuizConfig) (ias : list IncorrectAnswer),
    let resources := generateSuggestionsPrompt c ias in
    let improvement := generateImprovementSuggestionsPrompt c ias in
    includes resources
      ("a quiz on " ++ Subject_text (subject c) ++ " (" ++ topic c ++ ") for the "
         ++ Exam_text (exam c) ++ " exam") = true /\
    includes improvement
      ("for the " ++ Exam_text (exam c) ++ " exam in " ++ Subject_text (subject c)
         ++ ". I took a quiz on the topic " ++ dq ++ topic c ++ dq) = true /\
    (forall a, In a ias ->
       includes resources (mistakeLine a) = true /\
       includes (generateQuizPrompt c (Some ias)) (mistakeLine a) = true /\
       includes improvement
         ("- Question: " ++ dq ++ question a ++ dq ++ " (My incorrect answer was " ++ dq
            ++ interpolate (at_slot (options a) (userAnswerIndex a)) ++ dq ++ ")") = true) /\
    (ias = [] ->
       includes resources ("My mistakes were:" ++ nl ++ nl ++ nl ++ "Provide me with:") = true /\
       includes improvement
         (" and made the following mistakes:" ++ nl ++ nl ++ nl ++ "Based *only* on") = true).
Proof.
  intros c ias resources improvement. subst resources improvement.
  split; [|split; [|split]].
  - unfold generateSuggestionsPrompt. cbv zeta.
    between ( "Based on my incorrect answers from ").
  - unfold generateImprovementSuggestionsPrompt. cbv zeta.
    between ( "I am preparing ").
  - intros a Hin. exact (suggestion_prompts_lines c ias a Hin).
  - intros ->. unfold generateSuggestionsPrompt, generateImprovementSuggestionsPrompt.
    cbn [map join]. cbv zeta. split.
    + between (
               ("Based on my incorrect answers from a quiz on " ++ Subject_text (subject c)
                  ++ " (" ++ topic c ++ ") for the " ++ Exam_text (exam c)
                  ++ " exam, please recommend some learning resources." ++ nl ++ nl)).
    + between (
               ("I am preparing for the " ++ Exam_text (exam c) ++ " exam in "
                  ++ Subject_text (subject c) ++ ". I took a quiz on the topic "
                  ++ dq ++ topic c ++ dq)).
Qed.

Lemma suggestion_prompts_list_mistakes_witness :
  includes (generateSuggestionsPrompt Examples.kinematics [Examples.missed_units])
           (mistakeLine Examples.missed_units) = true.
Proof.
  destruct (suggestion_prompts_list_mistakes Examples.kinematics [Examples.missed_units])
    as (_ & _ & H & _).
  apply H. now left.
Defined.

(** X10.  An index that does not index into the options of a mistake (out
    of range, [null] or [undefined]) is rendered in all three prompts as the
    text undefined between quotes, not reported. *)
Theorem out_of_range_index_rendered_as_undefined :
  forall (c : QuizConfig) (ias : list IncorrectAnswer) (a : IncorrectAnswer),
    In a ias ->
    at_slot (options a) (userAnswerIndex a) = None ->
    includes (generateQuizPrompt c (Some ias))
             ("My incorrect answer: " ++ dq ++ "undefined" ++ dq) = true /\
    includes (generateSuggestionsPrompt c ias)
             ("My incorrect answer: " ++ dq ++ "undefined" ++ dq) = true /\
    includes (generateImprovementSuggestionsPrompt c ias)
             ("(My incorrect answer was " ++ dq ++ "undefined" ++ dq ++ ")") = true.
Proof.
  intros c ias a Hin Hnone.
  destruct (suggestion_prompts_lines c ias a Hin) as (H1 & H2 & H3).
  assert (L : includes (mistakeLine a) ("My incorrect answer: " ++ dq ++ "undefined" ++ dq) = true).
  { unfold mistakeLine. rewrite Hnone. cbn [interpolate].
    between ( ("- Question: " ++ dq ++ question a ++ dq ++ nl ++ "  ")). }
  split; [|split].
  - exact (includes_trans _ _ _ H2 L).
  - exact (includes_trans _ _ _ H1 L).
  - apply (includes_trans _ _ _ H3). unfold improvementLine. rewrite Hnone. cbn [interpolate].
    between ( ("- Question: " ++ dq ++ question a ++ dq ++ " ")).
Qed.

Lemma out_of_range_index_rendered_as_undefined_witness :
  includes (generateQuizPrompt Examples.kinematics (Some [MoreExamples.missed_out_of_range]))
           ("My incorrect answer: " ++ dq ++ "undefined" ++ dq) = true.
Proof.
  apply (out_of_range_index_rendered_as_undefined
           Examples.kinematics [MoreExamples.missed_out_of_range]
           MoreExamples.missed_out_of_range).
  - now left.
  - reflexivity.
Defined.

(* ===================================================================== *)
(** * More about quiz completion and the results view                     *)
(* ===================================================================== *)

Section MoreCompletionFacts.

(** The [map]/[filter] pipeline for answer arrays of any length. *)
Lemma kept_from (qsuf : list Question) :
  forall (asuf : list (option Z)) (qpre : list Question) (apre : list (option Z)),
    (asuf = [] -> List.length apre <= List.length qpre)%nat ->
    (asuf <> [] -> List.length apre = List.length qpre) ->
    filteri_from (Z.of_nat (List.length qpre))
      (fun (_ : IncorrectAnswer) i =>
         if is_not_null (answer_at (apre ++ asuf) i) then
           match at_index (qpre ++ qsuf) i with
           | Some q => Some (negb (strict_eq_num (answer_at (apre ++ asuf) i)
                                                 (correctAnswerIndex q)))
           | None => None
           end
         else Some false)
      (mapi_from (Z.of_nat (List.length qpre))
         (fun q i => {| asQuestion := q; userAnswerIndex := answer_at (apre ++ asuf) i |})
         qsuf)
    = Some (keptAsIncorrect qsuf asuf).
Proof.
  induction qsuf as [|q qsuf IH]; intros asuf qpre apre Hnil Hcons; [reflexivity|].
  cbn [mapi_from filteri_from keptAsIncorrect].
  rewrite (next_index qpre q).
  replace (qpre ++ q :: qsuf)%list with ((qpre ++ [q]) ++ qsuf)%list
    by now rewrite <- app_assoc.
  destruct asuf as [|a asuf].
  - rewrite IH; [| intros _; rewrite length_app; cbn; specialize (Hnil eq_refl); lia
                 | intros H; now elim H].
    rewrite <- !app_assoc. cbn [List.app]. rewrite app_nil_r.
    specialize (Hnil eq_refl).
    assert (Hu : answer_at apre (Z.of_nat (List.length qpre)) = undefined).
    { unfold answer_at, at_index.
      destruct (Z.ltb_spec (Z.of_nat (List.length qpre)) 0) as [H|_]; [lia|].
      rewrite Nat2Z.id.
      destruct (nth_error apre (List.length qpre)) eqn:E; [|reflexivity].
      assert (List.length qpre < List.length apre)%nat
        by (apply nth_error_Some; rewrite E; discriminate).
      lia. }
    rewrite Hu, at_index_middle. reflexivity.
  - assert (Hlen : List.length apre = List.length qpre) by (apply Hcons; discriminate).
    replace (apre ++ a :: asuf)%list with ((apre ++ [a]) ++ asuf)%list
      by now rewrite <- app_assoc.
    rewrite IH by (intros; rewrite !length_app; cbn; lia).
    rewrite <- !app_assoc. cbn [List.app].
    rewrite <- Hlen, answer_at_middle. rewrite Hlen, at_index_middle.
    destruct a as [n|]; cbn; [|reflexivity].
    now destruct (n =? correctAnswerIndex q).
Qed.

Lemma incorrectOf_kept (qs : list Question) (answers : list (option Z)) :
  incorrectOf qs answers = Some (keptAsIncorrect qs answers).
Proof. apply (kept_from qs answers [] []); intros; cbn; lia. Qed.

End MoreCompletionFacts.

Section ResultsFacts.

Lemma unattempted_from (qsuf : list Question) :
  forall (asuf : list (option Z)) (qpre : list Question) (apre : list (option Z)),
    List.length qpre = List.length apre ->
    List.length qsuf = List.length asuf ->
    filteri_from (Z.of_nat (List.length qpre))
      (fun (_ : Question) index => Some (is_null (answer_at (apre ++ asuf) index))) qsuf
    = Some (leftNull qsuf asuf).
Proof.
  induction qsuf as [|q qsuf IH]; intros [|a asuf] qpre apre Hpre Hsuf;
    try discriminate; [reflexivity|].
  cbn [filteri_from leftNull].
  rewrite (next_index qpre q).
  replace (apre ++ a :: asuf)%list with ((apre ++ [a]) ++ asuf)%list
    by now rewrite <- app_assoc.
  rewrite IH by (rewrite ?length_app; cbn in *; lia).
  rewrite <- !app_assoc. cbn [List.app].
  rewrite Hpre, answer_at_middle. now destruct a.
Qed.

Lemma unattemptedQuestions_leftNull (qs : list Question) (answers : list (option Z)) :
  List.length answers = List.length qs ->
  unattemptedQuestions qs answers = leftNull qs answers.
Proof.
  intros H. unfold unattemptedQuestions.
  pose proof (unattempted_from qs answers [] [] eq_refl (eq_sym H)) as E.
  cbn [List.length List.app Z.of_nat] in E. now rewrite E.
Qed.

(** Right, wrong and left out add up. *)
Lemma three_way_count (qs : list Question) :
  forall answers : list (option Z),
    List.length answers = List.length qs ->
    matches qs answers + Z.of_nat (List.length (answeredWrong qs answers))
      + Z.of_nat (List.length (leftNull qs answers))
    = Z.of_nat (List.length qs).
Proof.
  induction qs as [|q qs IH]; intros [|a answers] H; try discriminate; [reflexivity|].
  injection H as H. specialize (IH answers H).
  cbn [matches answeredWrong leftNull].
  destruct a as [n|]; [destruct (n =? correctAnswerIndex q)|]; cbn [List.length]; lia.
Qed.

Lemma handleQuizCompletion_keeps_questions (answers : list (option Z)) (now1 now2 : Z)
    (s : AppState) :
  questions (snd (handleQuizCompletion answers now1 now2 s)) = questions s /\
  quizConfig (snd (handleQuizCompletion answers now1 now2 s)) = quizConfig s /\
  isSubmitting (snd (handleQuizCompletion answers now1 now2 s)) = isSubmitting s.
Proof.
  unfold handleQuizCompletion. cbv zeta.
  destruct (incorrectOf _ _); [|repeat split; reflexivity].
  destruct (scoreOf _ _); [|repeat split; reflexivity].
  destruct (quizConfig s) eqn:E; repeat split; cbn; congruence.
Qed.

End ResultsFacts.

(** X11.  After a quiz is completed with one recorded answer per
    question, the results view counts every question exactly once: the score
    it shows, the number of incorrect answers and the number of unattempted
    questions add up to the number of questions; the unattempted questions
    are those whose answer is [null]; and the score and percentage shown are
    the ones recorded in the history item. *)
Theorem results_count_every_question_once :
  forall (s : AppState) (answers : list (option Z)) (now1 now2 : Z),
    List.length answers = List.length (questions s) ->
    let s' := snd (handleQuizCompletion answers now1 now2 s) in
    let unattempted := unattemptedQuestions (questions s') (userAnswers s') in
    exists sc,
      shownScore (questions s') (userAnswers s') = Some sc /\
      sc + Z.of_nat (List.length (incorrectAnswers s')) + Z.of_nat (List.length unattempted)
        = Z.of_nat (List.length (questions s')) /\
      unattempted = leftNull (questions s) answers /\
      (forall c, quizConfig s = Some c ->
         exists item, quizHistory s' = item :: quizHistory s /\
                      score item = sc /\
                      totalQuestions item = Z.of_nat (List.length (questions s')) /\
                      shownPercentage (questions s') (userAnswers s') = Some (percentage item)).
Proof.
  intros s answers now1 now2 H s' unattempted.
  destruct (handleQuizCompletion_completes s answers now1 now2 H)
    as (s1 & Hrun & _ & Hans & Hinc & Hhist).
  destruct (handleQuizCompletion_keeps_questions answers now1 now2 s) as (Hq & _ & _).
  subst s' unattempted. rewrite Hq. rewrite Hrun in *. cbn [snd] in *.
  rewrite Hans, Hinc.
  exists (matches (questions s) answers).
  unfold shownPercentage, shownScore. rewrite (scoreOf_matches _ _ H).
  rewrite (unattemptedQuestions_leftNull _ _ H).
  split; [reflexivity|]. split; [now apply three_way_count|]. split; [reflexivity|].
  intros c Hc. rewrite Hc in Hhist. eexists. split; [exact Hhist|]. repeat split.
Qed.

Lemma results_count_every_question_once_witness :
  exists sc,
    shownScore Examples.fortyQuestions Examples.answers23of40 = Some sc /\ sc = 23.
Proof.
  destruct (results_count_every_question_once
              Examples.activeForty Examples.answers23of40 0 0 eq_refl)
    as (sc & Hsc & _).
  exists sc. split; [exact Hsc|].
  vm_compute in Hsc. now injection Hsc.
Defined.

(** X12.  When the in-flight flag is not set, a start request is accepted
    whatever the quiz state: it issues one call, for the given configuration,
    and shows the loading state.  If that call fails, the application goes
    to the idle state showing the error's message (for an [Error]; a fixed
    text otherwise) and the questions, the answers, the incorrect list and
    the history are as before the request.  If it succeeds, the new
    questions replace the old ones, the answers and the incorrect list are
    emptied, the quiz is active with no error, and the history is as before.
    Either way both submitting flags are cleared. *)
Theorem start_request_outcomes :
  forall (c : QuizConfig) (isRetry : bool) (s : AppState),
    isSubmittingRef s = false ->
    exists s1 call,
      startQuiz_begin c isRetry s = (s1, Some call) /\
      call_config call = c /\
      call_incorrectAnswers call = (if isRetry then Some (incorrectAnswers s) else None) /\
      quizState s1 = loading /\ error s1 = None /\
      (forall e,
          let s2 := startQuiz_resume (Thrown e) s1 in
          quizState s2 = idle /\
          error s2 = Some (match e with
                           | ErrorObject _ message => message
                           | OtherValue _ => "An unknown error occurred."
                           end) /\
          questions s2 = questions s /\ userAnswers s2 = userAnswers s /\
          incorrectAnswers s2 = incorrectAnswers s /\ quizHistory s2 = quizHistory s /\
          quizConfig s2 = Some c /\
          isSubmitting s2 = false /\ isSubmittingRef s2 = false) /\
      (forall generated,
          let s2 := startQuiz_resume (Returned generated) s1 in
          quizState s2 = active /\ error s2 = None /\
          questions s2 = generated /\ userAnswers s2 = [] /\ incorrectAnswers s2 = [] /\
          quizHistory s2 = quizHistory s /\ quizConfig s2 = Some c /\
          isSubmitting s2 = false /\ isSubmittingRef s2 = false).
Proof.
  intros c isRetry s H. unfold startQuiz_begin. rewrite H. cbv zeta.
  eexists _, _. split; [reflexivity|]. repeat split.
Qed.

Lemma start_request_outcomes_witness :
  quizState (startQuiz_resume (Thrown serviceUnavailable)
               (fst (startQuiz_begin Examples.kinematics true Examples.activeForty))) = idle.
Proof.
  destruct (start_request_outcomes Examples.kinematics true Examples.activeForty eq_refl)
    as (s1 & call & Hbegin & _ & _ & _ & _ & Hfail & _).
  rewrite Hbegin. cbn [fst]. apply (Hfail serviceUnavailable).
Defined.

(* ===================================================================== *)
(** * More about the session                                              *)
(* ===================================================================== *)

Section HistoryFacts.

Lemma request_app (c : QuizConfig) (isRetry : bool) (x : Session) :
  appState (request c isRetry x) = fst (startQuiz_begin c isRetry (appState x)).
Proof. unfold request. now destruct (startQuiz_begin c isRetry (appState x)) as [s [call|]]. Qed.

Lemma startQuiz_begin_keeps_history (c : QuizConfig) (isRetry : bool) (s : AppState) :
  quizHistory (fst (startQuiz_begin c isRetry s)) = quizHistory s.
Proof. unfold startQuiz_begin. now destruct (isSubmittingRef s). Qed.

Lemma handleQuizCompletion_history (answers : list (option Z)) (now1 now2 : Z)
    (s : AppState) :
  exists added,
    quizHistory (snd (handleQuizCompletion answers now1 now2 s)) = (added ++ quizHistory s)%list /\
    (List.length added <= 1)%nat.
Proof.
  unfold handleQuizCompletion. cbv zeta.
  destruct (incorrectOf _ _); [|exists []; split; [reflexivity | cbn; lia]].
  destruct (scoreOf _ _); [|exists []; split; [reflexivity | cbn; lia]].
  destruct (quizConfig s).
  - eexists [_]. split; [reflexivity | cbn; lia].
  - exists []. split; [reflexivity | cbn; lia].
Qed.

Lemma dispatch_history (x : Session) (e : event) :
  e <> OnClearHistory true ->
  exists added,
    quizHistory (appState (dispatch x e)) = (added ++ quizHistory (appState x))%list /\
    (List.length added <= if isCompletion e then 1 else 0)%nat.
Proof.
  intros Hne.
  destruct e as [c| | |answers now1 now2|[|]|v|n r]; cbn [dispatch isCompletion];
    try (exists []; split; [reflexivity | cbn; lia]).
  - exists []. split; [|cbn; lia].
    now rewrite request_app, startQuiz_begin_keeps_history.
  - exists []. split; [|cbn; lia].
    destruct (quizConfig (appState x)); [|reflexivity].
    now rewrite request_app, startQuiz_begin_keeps_history.
  - apply handleQuizCompletion_history.
  - now elim Hne.
  - exists []. split; [|cbn; lia].
    destruct (nth_error (inflight x) n); [destruct r|]; reflexivity.
Qed.

Lemma fold_history (events : list event) :
  forall x : Session,
    (forall e, In e events -> e <> OnClearHistory true) ->
    exists added,
      quizHistory (appState (fold_left dispatch events x))
        = (added ++ quizHistory (appState x))%list /\
      (List.length added <= completions events)%nat.
Proof.
  induction events as [|e events IH]; intros x Hall.
  - exists []. split; [reflexivity | cbn; lia].
  - cbn [fold_left].
    destruct (dispatch_history x e) as (a1 & H1 & L1); [apply Hall; now left|].
    destruct (IH (dispatch x e)) as (a2 & H2 & L2); [intros; apply Hall; now right|].
    exists (a2 ++ a1)%list. split.
    + now rewrite H2, H1, app_assoc.
    + unfold completions in *. cbn [filter]. rewrite length_app.
      destruct (isCompletion e); cbn [List.length]; lia.
Qed.

End HistoryFacts.

(** X13.  The history is append-only: along every sequence of events
    without a confirmed clear-history, the history the session started with
    stays in place at the end of the list, unchanged, and what is added in
    front of it is at most one item per quiz completion. *)
Theorem history_is_append_only :
  forall (history : list QuizHistoryItem) (events : list event),
    (forall e, In e events -> e <> OnClearHistory true) ->
    exists added,
      quizHistory (appState (run history events)) = (added ++ history)%list /\
      (List.length added <= completions events)%nat.
Proof.
  intros history events Hall.
  exact (fold_history events (initialSession history) Hall).
Qed.

Lemma history_is_append_only_witness :
  exists added,
    quizHistory (appState (run [] [OnStartQuiz Examples.kinematics;
                                   Settled 0 (Returned Examples.fortyQuestions);
                                   OnQuizComplete Examples.answers23of40 0 0]))
      = (added ++ [])%list /\
    (List.length added <= 1)%nat.
Proof.
  apply (history_is_append_only []
           [OnStartQuiz Examples.kinematics;
            Settled 0 (Returned Examples.fortyQuestions);
            OnQuizComplete Examples.answers23of40 0 0]).
  intros e [<-|[<-|[<-|[]]]]; discriminate.
Defined.

Section FlagFacts.

Lemma request_flagsAgree (c : QuizConfig) (isRetry : bool) (x : Session) :
  flagsAgree x -> flagsAgree (request c isRetry x).
Proof.
  unfold flagsAgree. rewrite request_app. unfold startQuiz_begin.
  destruct (isSubmittingRef (appState x)) eqn:E; cbn; [now rewrite E|].
  intros _. split; reflexivity.
Qed.

Lemma dispatch_flagsAgree (x : Session) (e : event) : flagsAgree x -> flagsAgree (dispatch x e).
Proof.
  intros G. destruct e as [c| | |answers now1 now2|confirmed|v|n r]; cbn [dispatch].
  - now apply request_flagsAgree.
  - destruct (quizConfig (appState x)); [now apply request_flagsAgree | exact G].
  - destruct G as [G1 G2]. split; [exact G1 | discriminate].
  - destruct G as [G1 G2]. unfold flagsAgree. cbn [appState].
    destruct (handleQuizCompletion_keeps_questions answers now1 now2 (appState x))
      as (_ & _ & Hs).
    rewrite Hs, handleQuizCompletion_keeps_ref. split; [exact G1|].
    intros Hl. apply G2.
    revert Hl. unfold handleQuizCompletion. cbv zeta.
    destruct (incorrectOf _ _); [|now cbn].
    destruct (scoreOf _ _); [|now cbn].
    destruct (quizConfig (appState x)); discriminate.
  - destruct confirmed; exact G.
  - exact G.
  - destruct (nth_error (inflight x) n); [|exact G].
    split; [reflexivity|]. cbn. destruct r; discriminate.
Qed.

Lemma run_flagsAgree (history : list QuizHistoryItem) (events : list event) :
  flagsAgree (run history events).
Proof.
  unfold run.
  assert (G : flagsAgree (initialSession history)) by (split; [reflexivity | discriminate]).
  revert G. generalize (initialSession history) as x.
  induction events as [|e events IH]; intros x G; cbn [fold_left]; [exact G|].
  apply IH, dispatch_flagsAgree, G.
Qed.

End FlagFacts.

(** X14.  In every session the application can reach, the [isSubmitting]
    state the buttons read equals the in-flight flag, and whenever the loading
    state is shown exactly one [generateQuiz] call issued by [startQuiz] is in
    flight: the application is never left loading with no quiz pending.
    Suggestion calls of the results view are not counted here; they may be in
    flight as well. *)
Theorem loading_means_call_in_flight :
  forall x : Session,
    reachable x ->
    isSubmitting (appState x) = isSubmittingRef (appState x) /\
    (quizState (appState x) = loading -> exists call, inflight x = [call]).
Proof.
  intros x (history & events & ->).
  destruct (run_flagsAgree history events) as [H1 H2].
  split; [exact H1|].
  intros Hl. specialize (H2 Hl).
  pose proof (run_guarded history events) as G. unfold guarded in G.
  now rewrite H2 in G.
Qed.

Lemma loading_means_call_in_flight_witness :
  exists call, inflight (run [] [OnStartQuiz Examples.kinematics]) = [call].
Proof.
  apply (loading_means_call_in_flight (run [] [OnStartQuiz Examples.kinematics])).
  - exists [], [OnStartQuiz Examples.kinematics]. reflexivity.
  - reflexivity.
Defined.

Section RetryFacts.

Lemma answeredWrong_nil (qs : list Question) (answers : list (option Z)) :
  (forall i q n, nth_error qs i = Some q -> nth_error answers i = Some (Some n) ->
                 n = correctAnswerIndex q) ->
  answeredWrong qs answers = [].
Proof.
  intros Hall.
  destruct (answeredWrong qs answers) as [|ia rest] eqn:E; [reflexivity|].
  assert (Hin : In ia (answeredWrong qs answers)) by (rewrite E; now left).
  apply answeredWrong_In in Hin. destruct Hin as (i & q & n & Hq & Ha & Hne & _).
  now elim Hne; apply (Hall i q n).
Qed.

End RetryFacts.

(** X15.  When a quiz with a configuration is completed with one answer per
    question and no call is in flight, "try again" issues one generation call
    for the same configuration, carrying exactly the incorrect answers just
    computed.  If no answer was wrong (all correct or unattempted), the prompt
    of that call is the very prompt of a fresh start; otherwise it is that
    prompt followed by the mistake block. *)
Theorem try_again_carries_computed_mistakes :
  forall (x : Session) (c : QuizConfig) (answers : list (option Z)) (now1 now2 : Z),
    isSubmittingRef (appState x) = false ->
    quizConfig (appState x) = Some c ->
    List.length answers = List.length (questions (appState x)) ->
    let wrong := answeredWrong (questions (appState x)) answers in
    let x2 := dispatch (dispatch x (OnQuizComplete answers now1 now2)) OnTryAgain in
    exists call,
      inflight x2 = (inflight x ++ [call])%list /\
      call_config call = c /\
      call_incorrectAnswers call = Some wrong /\
      quizState (appState x2) = loading /\
      ((forall i q n, nth_error (questions (appState x)) i = Some q ->
                      nth_error answers i = Some (Some n) -> n = correctAnswerIndex q) ->
       generateQuizPrompt (call_config call) (call_incorrectAnswers call)
         = generateQuizPrompt c None) /\
      (wrong <> [] ->
       generateQuizPrompt (call_config call) (call_incorrectAnswers call)
         = generateQuizPrompt c None ++ mistakeBlock wrong).
Proof.
  intros x c answers now1 now2 Href Hcfg Hlen wrong x2.
  destruct (handleQuizCompletion_completes (appState x) answers now1 now2 Hlen)
    as (s1 & Hrun & _ & _ & Hinc & _).
  destruct (handleQuizCompletion_keeps_questions answers now1 now2 (appState x))
    as (_ & Hc & _).
  pose proof (handleQuizCompletion_keeps_ref answers now1 now2 (appState x)) as Hr.
  subst x2. cbn [dispatch appState inflight].
  rewrite Hc, Hcfg. unfold request. cbn [appState inflight].
  unfold startQuiz_begin. rewrite Hr, Href. cbv zeta. cbn [appState inflight].
  rewrite Hrun. cbn [snd]. rewrite Hinc. fold wrong.
  eexists. split; [reflexivity|]. cbn [call_config call_incorrectAnswers].
  repeat split.
  - intros Hall. unfold wrong. now rewrite (answeredWrong_nil _ _ Hall).
  - intros Hne. rewrite generateQuizPrompt_split.
    destruct wrong; [now elim Hne | reflexivity].
Qed.

Lemma try_again_carries_computed_mistakes_witness :
  exists call,
    inflight (dispatch (dispatch {| appState := Examples.activeForty; inflight := [] |}
                                 (OnQuizComplete Examples.answers23of40 0 0))
                       OnTryAgain) = [call] /\
    call_config call = Examples.kinematics.
Proof.
  destruct (try_again_carries_computed_mistakes
              {| appState := Examples.activeForty; inflight := [] |}
              Examples.kinematics Examples.answers23of40 0 0 eq_refl eq_refl eq_refl)
    as (call & Hin & Hc & _).
  exists call. split; [exact Hin | exact Hc].
Defined.

Section PercentageFacts.

Lemma same_float_eq (x y : spec_float) : same_float x y = true -> x = y.
Proof.
  destruct x as [s|s| |s m e], y as [s'|s'| |s' m' e']; cbn; try discriminate; trivial.
  - intros H. apply Bool.eqb_prop in H. now subst.
  - intros H. apply Bool.eqb_prop in H. now subst.
  - intros H. apply andb_prop in H. destruct H as [H He].
    apply andb_prop in H. destruct H as [Hs Hm].
    apply Bool.eqb_prop in Hs. apply Pos.eqb_eq in Hm. apply Z.eqb_eq in He. now subst.
Qed.

Lemma percentage_checked_100 : percentageCheckedUpTo 100 = true.
Proof. vm_compute. reflexivity. Qed.

Lemma percentageCheckedUpTo_unfold (bound : nat) :
  percentageCheckedUpTo bound =
  forallb (fun n => forallb (fun k => percentageChecked (Z.of_nat k) (Z.of_nat n))
                            (seq 0 (S n)))
          (seq 1 bound).
Proof. reflexivity. Qed.

Lemma percentageChecked_unfold (k n : Z) :
  percentageChecked k n =
  same_float (percentageOf k n)
    (Number.of_Z (Number.round_div (100 * k) n - (if isException k n then 1 else 0))).
Proof. reflexivity. Qed.

(** One cell of the checked table. *)
Lemma percentage_cell (k n : Z) :
  1 <= n <= 100 ->
  0 <= k <= n ->
  percentageOf k n =
  Number.of_Z (Number.round_div (100 * k) n - (if isException k n then 1 else 0)).
Proof.
  intros Hn Hk. apply same_float_eq. rewrite <- percentageChecked_unfold.
  pose proof percentage_checked_100 as H. rewrite percentageCheckedUpTo_unfold in H.
  rewrite forallb_forall in H.
  assert (Hrow : In (Z.to_nat n) (seq 1 100)) by (apply in_seq; lia).
  pose proof (H _ Hrow) as Hrow'. rewrite forallb_forall in Hrow'.
  assert (Hcol : In (Z.to_nat k) (seq 0 (S (Z.to_nat n)))) by (apply in_seq; lia).
  pose proof (Hrow' _ Hcol) as Hcell. rewrite !Z2Nat.id in Hcell by lia.
  exact Hcell.
Qed.

Lemma round_div_range (k n : Z) :
  1 <= n -> 0 <= k <= n -> 0 <= Number.round_div (100 * k) n <= 100.
Proof.
  intros Hn Hk. unfold Number.round_div. split.
  - apply Z.div_pos; lia.
  - apply Z.lt_succ_r. apply Z.div_lt_upper_bound; lia.
Qed.

End PercentageFacts.

(** X16.  For every quiz of 1 to 100 questions and every score from 0 to
    the number of questions, the recorded percentage is an integer from 0 to
    100, and it is [round (100 * score / total)] (ties upwards) except at 23
    of 40 and 46 of 80, where it is one less (57 instead of 58). *)
Theorem percentage_is_rounded_quotient_up_to_100 :
  forall k n : Z,
    1 <= n <= 100 ->
    0 <= k <= n ->
    let rounded := Number.round_div (100 * k) n in
    0 <= rounded <= 100 /\
    ((k, n) <> (23, 40) -> (k, n) <> (46, 80) -> percentageOf k n = Number.of_Z rounded) /\
    ((k, n) = (23, 40) \/ (k, n) = (46, 80) ->
       rounded = 58 /\ percentageOf k n = Number.of_Z 57).
Proof.
  intros k n Hn Hk rounded.
  split; [apply round_div_range; lia|].
  pose proof (percentage_cell k n Hn Hk) as Hc.
  split.
  - intros H1 H2.
    assert (E : isException k n = false).
    { unfold isException, percentageExceptions. cbn [existsb fst snd].
      assert (E1 : (23 =? k) && (40 =? n) = false).
      { apply andb_false_iff. destruct (Z.eq_dec k 23) as [->|N]; [right|left];
          apply Z.eqb_neq; [intros <-; now elim H1 | lia]. }
      assert (E2 : (46 =? k) && (80 =? n) = false).
      { apply andb_false_iff. destruct (Z.eq_dec k 46) as [->|N]; [right|left];
          apply Z.eqb_neq; [intros <-; now elim H2 | lia]. }
      now rewrite E1, E2. }
    rewrite E, Z.sub_0_r in Hc. exact Hc.
  - intros [ [= -> ->] | [= -> ->] ]; split; vm_compute; reflexivity.
Qed.

Lemma percentage_is_rounded_quotient_up_to_100_witness :
  percentageOf 15 20 = Number.of_Z 75.
Proof.
  destruct (percentage_is_rounded_quotient_up_to_100 15 20) as (_ & H & _); [lia | lia |].
  apply H; discriminate.
Defined.

Section MisalignedFacts.

(** The [reduce] when the answers may stop before the questions do. *)
Lemma score_from_short (asuf : list (option Z)) :
  forall (qsuf qpre : list Question) (apre : list (option Z)) (acc : Z),
    List.length qpre = List.length apre ->
    (List.length asuf <= List.length qsuf)%nat ->
    reducei_from (Z.of_nat (List.length apre))
      (fun acc answer index =>
         match at_index (qpre ++ qsuf) index with
         | Some q =>
             Some (if strict_eq_num (match answer with Some n => num n | None => null end)
                                    (correctAnswerIndex q)
                   then acc + 1 else acc)
         | None => None
         end)
      acc asuf
    = Some (acc + matches qsuf asuf).
Proof.
  induction asuf as [|a asuf IH]; intros qsuf qpre apre acc Hpre Hsuf.
  - destruct qsuf; cbn; f_equal; lia.
  - destruct qsuf as [|q qsuf]; [cbn in Hsuf; lia|].
    cbn [reducei_from matches].
    rewrite <- Hpre, at_index_middle, Hpre.
    rewrite (next_index apre a).
    replace (qpre ++ q :: qsuf)%list with ((qpre ++ [q]) ++ qsuf)%list
      by now rewrite <- app_assoc.
    rewrite IH by (rewrite ?length_app; cbn in *; lia).
    f_equal. destruct a as [n|]; cbn; [destruct (n =? correctAnswerIndex q)|]; lia.
Qed.

(** The [reduce] when the answers go on after the questions stop: the
    first answer without a question ends it. *)
Lemma score_from_long (asuf : list (option Z)) :
  forall (qsuf qpre : list Question) (apre : list (option Z)) (acc : Z),
    List.length qpre = List.length apre ->
    (List.length qsuf < List.length asuf)%nat ->
    reducei_from (Z.of_nat (List.length apre))
      (fun acc answer index =>
         match at_index (qpre ++ qsuf) index with
         | Some q =>
             Some (if strict_eq_num (match answer with Some n => num n | None => null end)
                                    (correctAnswerIndex q)
                   then acc + 1 else acc)
         | None => None
         end)
      acc asuf
    = None.
Proof.
  induction asuf as [|a asuf IH]; intros qsuf qpre apre acc Hpre Hsuf;
    [cbn in Hsuf; lia|].
  destruct qsuf as [|q qsuf].
  - cbn [reducei_from]. rewrite app_nil_r.
    unfold at_index.
    destruct (Z.ltb_spec (Z.of_nat (List.length apre)) 0) as [H|_]; [reflexivity|].
    rewrite Nat2Z.id.
    destruct (nth_error qpre (List.length apre)) eqn:E; [|reflexivity].
    assert (List.length apre < List.length qpre)%nat
      by (apply nth_error_Some; rewrite E; discriminate).
    lia.
  - cbn [reducei_from].
    rewrite <- Hpre, at_index_middle, Hpre.
    rewrite (next_index apre a).
    replace (qpre ++ q :: qsuf)%list with ((qpre ++ [q]) ++ qsuf)%list
      by now rewrite <- app_assoc.
    apply IH; rewrite ?length_app; cbn in *; lia.
Qed.

Lemma keptAsIncorrect_missing (qs : list Question) :
  forall (answers : list (option Z)) (i : nat) (q : Question),
    nth_error qs i = Some q ->
    (List.length answers <= i)%nat ->
    In {| asQuestion := q; userAnswerIndex := undefined |} (keptAsIncorrect qs answers).
Proof.
  induction qs as [|q0 qs IH]; intros answers i q Hq Hi; [destruct i; discriminate|].
  destruct answers as [|a answers].
  - cbn [keptAsIncorrect]. destruct i as [|i]; cbn in Hq.
    + injection Hq as ->. now left.
    + right. apply (IH [] i q Hq). cbn. lia.
  - destruct i as [|i]; [cbn in Hi; lia|]. cbn in Hq, Hi.
    assert (Hrec : In {| asQuestion := q; userAnswerIndex := undefined |}
                      (keptAsIncorrect qs answers)) by (apply (IH answers i q Hq); lia).
    cbn [keptAsIncorrect]. destruct a as [n|]; [|exact Hrec].
    destruct (n =? correctAnswerIndex q0); [exact Hrec | now right].
Qed.

End MisalignedFacts.

(** X17.  [handleQuizCompletion] does not check the length of the answer
    array.  With more answers than questions it throws a [TypeError] at the
    first answer without a question: no history item is recorded and the
    quiz state does not change.  With fewer answers than questions it completes, and every
    question without an answer slot is put in the incorrect list with an
    undefined [userAnswerIndex]. *)
Theorem completion_with_misaligned_answers :
  forall (s : AppState) (answers : list (option Z)) (now1 now2 : Z),
    let out := handleQuizCompletion answers now1 now2 s in
    ((List.length (questions s) < List.length answers)%nat ->
       fst out = Thrown undefinedQuestionError /\
       quizState (snd out) = quizState s /\
       quizHistory (snd out) = quizHistory s) /\
    ((List.length answers < List.length (questions s))%nat ->
       fst out = Returned tt /\
       quizState (snd out) = finished /\
       forall i q,
         nth_error (questions s) i = Some q ->
         (List.length answers <= i)%nat ->
         In {| asQuestion := q; userAnswerIndex := undefined |} (incorrectAnswers (snd out))).
Proof.
  intros s answers now1 now2 out. subst out.
  unfold handleQuizCompletion. cbv zeta. rewrite incorrectOf_kept.
  split; intros Hlen.
  - unfold scoreOf.
    pose proof (score_from_long answers (questions s) [] [] 0 eq_refl Hlen) as E.
    cbn [List.length List.app Z.of_nat] in E. rewrite E. repeat split.
  - unfold scoreOf.
    assert (Hle : (List.length answers <= List.length (questions s))%nat) by lia.
    pose proof (score_from_short answers (questions s) [] [] 0 eq_refl Hle) as E.
    cbn [List.length List.app Z.of_nat] in E. rewrite E.
    split; [reflexivity|]. split; [now destruct (quizConfig s)|].
    intros i q Hq Hi.
    assert (Hin := keptAsIncorrect_missing (questions s) answers i q Hq Hi).
    now destruct (quizConfig s).
Qed.

Lemma completion_with_misaligned_answers_witness :
  fst (handleQuizCompletion (None :: Examples.answers23of40) 0 0 Examples.activeForty)
  = Thrown undefinedQuestionError.
Proof.
  destruct (completion_with_misaligned_answers
              Examples.activeForty (None :: Examples.answers23of40) 0 0) as [Hlong _].
  apply Hlong. cbn. lia.
Defined.

(* ===================================================================== *)
(** * The quiz view                                                       *)
(* ===================================================================== *)

Section ViewFacts.

Lemma replace_nth_length {A : Type} (n : nat) (v : A) (arr : list A) :
  List.length (replace_nth n v arr) = List.length arr.
Proof.
  revert n; induction arr as [|x arr IH]; intros [|n]; cbn; trivial. now rewrite IH.
Qed.

Lemma replace_nth_same {A : Type} (n : nat) (v : A) (arr : list A) :
  (n < List.length arr)%nat -> nth_error (replace_nth n v arr) n = Some v.
Proof.
  revert n; induction arr as [|x arr IH]; intros [|n] H; cbn in *; try lia; trivial.
  apply IH. lia.
Qed.

Lemma replace_nth_other {A : Type} (n j : nat) (v : A) (arr : list A) :
  j <> n -> nth_error (replace_nth n v arr) j = nth_error arr j.
Proof.
  revert n j; induction arr as [|x arr IH]; intros [|n] [|j] H; cbn; trivial.
  - now elim H.
  - apply IH. congruence.
Qed.

Lemma replace_nth_id {A : Type} (n : nat) (v : A) (arr : list A) :
  nth_error arr n = Some v -> replace_nth n v arr = arr.
Proof.
  revert n; induction arr as [|x arr IH]; intros [|n] H; cbn in *; trivial.
  - now injection H as ->.
  - now rewrite IH.
Qed.

Lemma replace_nth_twice {A : Type} (n : nat) (v v' : A) (arr : list A) :
  replace_nth n v' (replace_nth n v arr) = replace_nth n v' arr.
Proof.
  revert n; induction arr as [|x arr IH]; intros [|n]; cbn; trivial. now rewrite IH.
Qed.

Lemma assign_in_range (arr : list (option Z)) (i : Z) (v : option Z) :
  0 <= i < Z.of_nat (List.length arr) ->
  assign arr i v = Some (replace_nth (Z.to_nat i) v arr).
Proof.
  intros H. unfold assign.
  destruct (Z.ltb_spec i 0); [lia|].
  destruct (Z.ltb_spec i (Z.of_nat (List.length arr))); [reflexivity | lia].
Qed.

Lemma at_index_in_range {A : Type} (arr : list A) (i : Z) :
  0 <= i < Z.of_nat (List.length arr) ->
  exists v, at_index arr i = Some v /\ nth_error arr (Z.to_nat i) = Some v.
Proof.
  intros H. unfold at_index. destruct (Z.ltb_spec i 0); [lia|].
  destruct (nth_error arr (Z.to_nat i)) as [v|] eqn:E; [now exists v|].
  apply nth_error_None in E. lia.
Qed.

(** One step from a view within its bounds. *)
Lemma viewStep_ok (n : nat) (st : QuizViewState) (e : viewEvent) :
  viewOk n st ->
  exists st' out,
    viewStep (Z.of_nat n) st e = Some (st', out) /\
    viewOk n st' /\
    (forall submitted, out = Some submitted ->
       submitted = replace_nth (Z.to_nat (currentQuestionIndex st)) (currentSelection st)
                               (selectedAnswers st)) /\
    (out <> None <->
       (e = Next /\ currentQuestionIndex st = Z.of_nat n - 1) \/
       e = EndQuiz true \/
       (e = Tick /\ timeLeft st <= 1)) /\
    timeLeft st' = (match e with
                    | Tick => if timeLeft st <=? 1 then 0 else timeLeft st - 1
                    | _ => timeLeft st
                    end).
Proof.
  intros [Hidx Hlen].
  assert (Hin : 0 <= currentQuestionIndex st < Z.of_nat (List.length (selectedAnswers st)))
    by (rewrite Hlen; lia).
  pose proof (assign_in_range (selectedAnswers st) (currentQuestionIndex st)
                (currentSelection st) Hin) as Ha.
  set (saved := replace_nth (Z.to_nat (currentQuestionIndex st)) (currentSelection st)
                            (selectedAnswers st)) in *.
  assert (Hsl : List.length saved = n) by (unfold saved; now rewrite replace_nth_length).
  assert (Hsync : forall i t sel,
             0 <= i < Z.of_nat n ->
             exists v, syncSelection {| currentQuestionIndex := i; selectedAnswers := saved;
                                        currentSelection := sel; timeLeft := t |}
                       = Some {| currentQuestionIndex := i; selectedAnswers := saved;
                                 currentSelection := v; timeLeft := t |}).
  { intros i t sel Hi. unfold syncSelection. cbn [selectedAnswers currentQuestionIndex timeLeft].
    destruct (at_index_in_range saved i) as (v & -> & _); [rewrite Hsl; lia|]. now exists v. }
  destruct e as [k| | |[|]|]; cbn [viewStep].
  - eexists _, None. split; [reflexivity|]. split; [now split|]. split; [discriminate|].
    split; [|reflexivity]. split; [now intros H | intros [[H _]|[H|[H _]]]; discriminate].
  - rewrite Ha. destruct (Z.ltb_spec (currentQuestionIndex st) (Z.of_nat n - 1)) as [Hlt|Hge].
    + destruct (Hsync (currentQuestionIndex st + 1) (timeLeft st) (currentSelection st))
        as [v ->]; [lia|].
      eexists _, None. split; [reflexivity|]. split; [split; cbn; [lia | exact Hsl]|].
      split; [discriminate|]. split; [|reflexivity].
      split; [now intros H | intros [[_ H]|[H|[H _]]]; [lia | discriminate | discriminate]].
    + destruct (Hsync (currentQuestionIndex st) (timeLeft st) (currentSelection st))
        as [v ->]; [lia|].
      eexists _, (Some saved). split; [reflexivity|]. split; [split; cbn; [lia | exact Hsl]|].
      split; [now intros ? [= <-]|]. split; [|reflexivity].
      split; [intros _; left; split; [reflexivity | lia] | discriminate].
  - destruct (Z.ltb_spec 0 (currentQuestionIndex st)) as [Hpos|Hz].
    + rewrite Ha.
      destruct (Hsync (currentQuestionIndex st - 1) (timeLeft st) (currentSelection st))
        as [v ->]; [lia|].
      eexists _, None. split; [reflexivity|]. split; [split; cbn; [lia | exact Hsl]|].
      split; [discriminate|]. split; [|reflexivity].
      split; [now intros H | intros [[H _]|[H|[H _]]]; discriminate].
    + eexists _, None. split; [reflexivity|]. split; [now split|].
      split; [discriminate|]. split; [|reflexivity].
      split; [now intros H | intros [[H _]|[H|[H _]]]; discriminate].
  - rewrite Ha.
    destruct (Hsync (currentQuestionIndex st) (timeLeft st) (currentSelection st))
      as [v ->]; [lia|].
    eexists _, (Some saved). split; [reflexivity|]. split; [split; cbn; [lia | exact Hsl]|].
    split; [now intros ? [= <-]|]. split; [|reflexivity].
    split; [intros _; right; now left | discriminate].
  - eexists _, None. split; [reflexivity|]. split; [now split|].
    split; [discriminate|]. split; [|reflexivity].
    split; [now intros H | intros [[H _]|[H|[H _]]]; discriminate].
  - destruct (Z.leb_spec (timeLeft st) 1) as [Hle|Hgt].
    + rewrite Ha. eexists _, (Some saved). split; [reflexivity|].
      split; [split; cbn; [lia | exact Hlen]|].
      split; [now intros ? [= <-]|]. split; [|reflexivity].
      split; [intros _; right; right; now split | discriminate].
    + eexists _, None. split; [reflexivity|]. split; [split; cbn; [lia | exact Hlen]|].
      split; [discriminate|]. split; [|reflexivity].
      split; [now intros H | intros [[H _]|[H|[_ H]]]; [discriminate | discriminate | lia]].
Qed.

Lemma initialView_ok (n : nat) (l : DifficultyLevel) :
  (1 <= n)%nat ->
  initialView n l = Some {| currentQuestionIndex := 0; selectedAnswers := repeat None n;
                            currentSelection := None; timeLeft := getTimeLimit l |} /\
  viewOk n {| currentQuestionIndex := 0; selectedAnswers := repeat None n;
              currentSelection := None; timeLeft := getTimeLimit l |}.
Proof.
  intros Hn. split.
  - destruct n as [|n]; [lia | reflexivity].
  - split; cbn; [lia | apply repeat_length].
Qed.

(** A run from a view within its bounds. *)
Lemma viewRun_ok (n : nat) (events : list viewEvent) :
  forall st : QuizViewState,
    viewOk n st ->
    exists st' out,
      viewRun (Z.of_nat n) st events = Some (st', out) /\
      viewOk n st' /\
      (forall submitted, out = Some submitted -> List.length submitted = n) /\
      (out = None -> 1 <= timeLeft st ->
       timeLeft st' = timeLeft st - ticks events /\ 1 <= timeLeft st').
Proof.
  induction events as [|e events IH]; intros st Hok.
  - exists st, None. split; [reflexivity|]. split; [exact Hok|].
    split; [discriminate|]. intros _ H. cbn. split; lia.
  - cbn [viewRun].
    destruct (viewStep_ok n st e Hok) as (st1 & out1 & -> & Hok1 & Hsub & Hiff & Htime).
    destruct out1 as [submitted|].
    + exists st1, (Some submitted). split; [reflexivity|]. split; [exact Hok1|].
      split; [|discriminate].
      intros ? [= <-]. rewrite (Hsub _ eq_refl), replace_nth_length. apply Hok.
    + destruct (IH st1 Hok1) as (st2 & out2 & -> & Hok2 & Hlen2 & Ht2).
      exists st2, out2. split; [reflexivity|]. split; [exact Hok2|]. split; [exact Hlen2|].
      intros Hnone Hpos.
      assert (Hnt : e = Tick -> 1 < timeLeft st).
      { intros ->. destruct (Z.leb_spec (timeLeft st) 1) as [Hle|Hgt]; [|exact Hgt].
        exfalso. apply (proj2 Hiff); [|reflexivity]. right; right. now split. }
      assert (H1 : timeLeft st1 = timeLeft st - ticks [e] /\ 1 <= timeLeft st1).
      { rewrite Htime. unfold ticks. cbn [filter].
        destruct e as [k| | |c|]; cbn [List.length]; try (split; lia).
        specialize (Hnt eq_refl).
        destruct (Z.leb_spec (timeLeft st) 1); [lia|]. cbn. split; lia. }
      destruct H1 as [E1 P1]. destruct (Ht2 Hnone P1) as [E2 P2].
      split; [|exact P2]. rewrite E2, E1. unfold ticks. cbn [filter].
      destruct e; cbn [List.length]; lia.
Qed.

End ViewFacts.

(** X18.  For a quiz of at least one question, whatever the user and the
    timer do, the quiz view stays within its bounds: every step is defined,
    the current index stays between 0 and the last question, the answer
    array keeps one slot per question, and an array passed to
    [onQuizComplete] has exactly one slot per question. *)
Theorem quiz_view_keeps_one_slot_per_question :
  forall (n : nat) (l : DifficultyLevel) (events : list viewEvent),
    (1 <= n)%nat ->
    exists st0 st out,
      initialView n l = Some st0 /\
      viewRun (Z.of_nat n) st0 events = Some (st, out) /\
      0 <= currentQuestionIndex st < Z.of_nat n /\
      List.length (selectedAnswers st) = n /\
      (forall submitted, out = Some submitted -> List.length submitted = n).
Proof.
  intros n l events Hn.
  destruct (initialView_ok n l Hn) as [Hinit Hok].
  destruct (viewRun_ok n events _ Hok) as (st & out & Hrun & [Hidx Hlen] & Hsub & _).
  eexists _, st, out. split; [exact Hinit|]. split; [exact Hrun|]. auto.
Qed.

Lemma quiz_view_keeps_one_slot_per_question_witness :
  exists st0 st out,
    initialView 3 Level3_Boards = Some st0 /\
    viewRun 3 st0 [Select 1; Next; Next; Select 2; Next] = Some (st, out) /\
    0 <= currentQuestionIndex st < 3 /\
    List.length (selectedAnswers st) = 3%nat /\
    (forall submitted, out = Some submitted -> List.length submitted = 3%nat).
Proof.
  apply (quiz_view_keeps_one_slot_per_question 3 Level3_Boards
           [Select 1; Next; Next; Select 2; Next]).
  lia.
Defined.

(** X19.  Whatever array the quiz view passes to [onQuizComplete] for the
    questions of the session, [handleQuizCompletion] accepts it: it does not
    throw, it ends in the finished state, and the incorrect list it stores
    is the list of the questions answered with a number other than their
    [correctAnswerIndex]. *)
Theorem view_submission_is_accepted :
  forall (s : AppState) (l : DifficultyLevel) (events : list viewEvent)
         (st0 st : QuizViewState) (answers : list (option Z)) (now1 now2 : Z),
    questions s <> [] ->
    initialView (List.length (questions s)) l = Some st0 ->
    viewRun (Z.of_nat (List.length (questions s))) st0 events = Some (st, Some answers) ->
    exists s',
      handleQuizCompletion answers now1 now2 s = (Returned tt, s') /\
      quizState s' = finished /\
      userAnswers s' = answers /\
      incorrectAnswers s' = answeredWrong (questions s) answers.
Proof.
  intros s l events st0 st answers now1 now2 Hne Hinit Hrun.
  assert (Hn : (1 <= List.length (questions s))%nat)
    by (destruct (questions s); [now elim Hne | cbn; lia]).
  destruct (initialView_ok _ l Hn) as [Hinit' Hok].
  rewrite Hinit' in Hinit. injection Hinit as <-.
  destruct (viewRun_ok _ events _ Hok) as (st' & out & Hrun' & _ & Hsub & _).
  rewrite Hrun in Hrun'. injection Hrun' as <- <-.
  destruct (handleQuizCompletion_completes s answers now1 now2 (Hsub _ eq_refl))
    as (s' & H1 & H2 & H3 & H4 & _).
  exists s'. auto.
Qed.

Lemma view_submission_is_accepted_witness :
  exists s',
    handleQuizCompletion [Some 1; None; Some 2] 0 0 MoreExamples.activeThree
      = (Returned tt, s') /\
    quizState s' = finished.
Proof.
  destruct (view_submission_is_accepted
              MoreExamples.activeThree Level3_Boards
              [Select 1; Next; Next; Select 2; Next]
              {| currentQuestionIndex := 0; selectedAnswers := [None; None; None];
                 currentSelection := None; timeLeft := 3600 |}
              {| currentQuestionIndex := 2; selectedAnswers := [Some 1; None; Some 2];
                 currentSelection := Some 2; timeLeft := 3600 |}
              [Some 1; None; Some 2] 0 0)
    as (s' & H1 & H2 & _).
  - discriminate.
  - reflexivity.
  - reflexivity.
  - exists s'. split; [exact H1 | exact H2].
Defined.

(** X20.  A step of the quiz view calls [onQuizComplete] exactly in three
    cases: Next on the last question, a confirmed End Quiz, and a timer tick
    with one second or less left.  In each of them the array passed is the
    saved answers with the slot of the current question set to the selection
    on screen, all other slots as they are: the selection on screen is never
    lost, also when the timer ends the quiz. *)
Theorem every_completion_submits_current_selection :
  forall (n : nat) (st st' : QuizViewState) (e : viewEvent)
         (out : option (list (option Z))),
    viewOk n st ->
    viewStep (Z.of_nat n) st e = Some (st', out) ->
    (out <> None <->
       (e = Next /\ currentQuestionIndex st = Z.of_nat n - 1) \/
       e = EndQuiz true \/
       (e = Tick /\ timeLeft st <= 1)) /\
    (forall submitted, out = Some submitted ->
       nth_error submitted (Z.to_nat (currentQuestionIndex st)) = Some (currentSelection st) /\
       (forall j, j <> Z.to_nat (currentQuestionIndex st) ->
                  nth_error submitted j = nth_error (selectedAnswers st) j)).
Proof.
  intros n st st' e out Hok Hstep.
  destruct (viewStep_ok n st e Hok) as (st1 & out1 & Hs & _ & Hsub & Hiff & _).
  rewrite Hstep in Hs. injection Hs as <- <-.
  split; [exact Hiff|].
  intros submitted Hout. rewrite (Hsub _ Hout). split.
  - apply replace_nth_same. destruct Hok as [Hidx ->]. lia.
  - intros j Hj. now apply replace_nth_other.
Qed.

Lemma every_completion_submits_current_selection_witness :
  viewStep 3 {| currentQuestionIndex := 1; selectedAnswers := [Some 0; None; None];
                currentSelection := Some 3; timeLeft := 1 |} Tick
  = Some ({| currentQuestionIndex := 1; selectedAnswers := [Some 0; None; None];
             currentSelection := Some 3; timeLeft := 0 |},
          Some [Some 0; Some 3; None]) /\
  nth_error [Some 0; Some 3; None] 1 = Some (Some 3).
Proof.
  split; [reflexivity|].
  apply (every_completion_submits_current_selection 3
           {| currentQuestionIndex := 1; selectedAnswers := [Some 0; None; None];
              currentSelection := Some 3; timeLeft := 1 |}
           {| currentQuestionIndex := 1; selectedAnswers := [Some 0; None; None];
              currentSelection := Some 3; timeLeft := 0 |}
           Tick (Some [Some 0; Some 3; None])).
  - split; cbn; [lia | reflexivity].
  - reflexivity.
  - reflexivity.
Defined.

(** X21.  Going to the next question and back loses nothing: from a
    question that is not the last, selecting an option, pressing Next and
    then Previous gives the same question with that option selected and saved
    in its slot, every other slot and the timer unchanged, and nothing
    submitted. *)
Theorem next_then_previous_restores_selection :
  forall (n : nat) (st : QuizViewState) (k : Z),
    viewOk n st ->
    currentQuestionIndex st < Z.of_nat n - 1 ->
    viewRun (Z.of_nat n) st [Select k; Next; Previous] =
    Some ({| currentQuestionIndex := currentQuestionIndex st;
             selectedAnswers := replace_nth (Z.to_nat (currentQuestionIndex st)) (Some k)
                                            (selectedAnswers st);
             currentSelection := Some k;
             timeLeft := timeLeft st |}, None).
Proof.
  intros n st k [Hidx Hlen] Hlast.
  set (i := currentQuestionIndex st) in *.
  set (saved := replace_nth (Z.to_nat i) (Some k) (selectedAnswers st)).
  assert (Hsl : List.length saved = n) by (unfold saved; now rewrite replace_nth_length).
  cbn [viewRun viewStep selectedAnswers currentQuestionIndex currentSelection timeLeft].
  rewrite assign_in_range by (rewrite Hlen; lia). fold i saved.
  destruct (Z.ltb_spec i (Z.of_nat n - 1)) as [_|]; [|lia].
  unfold syncSelection at 1. cbn [selectedAnswers currentQuestionIndex timeLeft].
  destruct (at_index_in_range saved (i + 1)) as (w & -> & Hw); [rewrite Hsl; lia|].
  cbn [selectedAnswers currentQuestionIndex currentSelection timeLeft].
  destruct (Z.ltb_spec 0 (i + 1)) as [_|]; [|lia].
  rewrite assign_in_range by (rewrite Hsl; lia).
  rewrite (replace_nth_id _ _ _ Hw).
  unfold syncSelection. cbn [selectedAnswers currentQuestionIndex timeLeft].
  replace (i + 1 - 1) with i by lia.
  destruct (at_index_in_range saved i) as (v & -> & Hv); [rewrite Hsl; lia|].
  unfold saved in Hv. rewrite replace_nth_same in Hv by lia.
  now injection Hv as <-.
Qed.

Lemma next_then_previous_restores_selection_witness :
  viewRun 3 {| currentQuestionIndex := 0; selectedAnswers := [None; None; None];
               currentSelection := None; timeLeft := 3600 |}
          [Select 2; Next; Previous]
  = Some ({| currentQuestionIndex := 0; selectedAnswers := [Some 2; None; None];
             currentSelection := Some 2; timeLeft := 3600 |}, None).
Proof.
  apply (next_then_previous_restores_selection 3
           {| currentQuestionIndex := 0; selectedAnswers := [None; None; None];
              currentSelection := None; timeLeft := 3600 |} 2).
  - split; cbn; [lia | reflexivity].
  - cbn. lia.
Defined.

(** X22.  The quiz cannot outlast its time limit: in a quiz of at least one
    question, a run of events in which nothing has been submitted contains
    fewer timer ticks than the limit of the level (3600 seconds for Boards
    and Advanced, 2700 for Mains/NEET), and the time shown is the limit
    minus the ticks; the tick that finds one second left submits. *)
Theorem timer_ends_quiz_within_limit :
  forall (n : nat) (l : DifficultyLevel) (events : list viewEvent)
         (st0 st : QuizViewState),
    (1 <= n)%nat ->
    initialView n l = Some st0 ->
    viewRun (Z.of_nat n) st0 events = Some (st, None) ->
    ticks events < getTimeLimit l /\
    timeLeft st = getTimeLimit l - ticks events /\
    getTimeLimit l <= 3600 /\
    (timeLeft st = 1 -> exists st' submitted,
        viewStep (Z.of_nat n) st Tick = Some (st', Some submitted)).
Proof.
  intros n l events st0 st Hn Hinit Hrun.
  destruct (initialView_ok n l Hn) as [Hinit' Hok].
  rewrite Hinit' in Hinit. injection Hinit as <-.
  destruct (viewRun_ok n events _ Hok) as (st' & out & Hrun' & Hok' & _ & Ht).
  rewrite Hrun in Hrun'. injection Hrun' as <- <-.
  destruct (Ht eq_refl) as [E P]; [destruct l; cbn; lia|].
  cbn [timeLeft] in E.
  split; [lia|]. split; [exact E|]. split; [destruct l; cbn; lia|].
  intros H1.
  destruct (viewStep_ok n st Tick Hok') as (sx & ox & Hx & _ & _ & Hiff & _).
  destruct ox as [submitted|]; [now exists sx, submitted|].
  exfalso. apply (proj2 Hiff); [|reflexivity]. right; right. split; [reflexivity | lia].
Qed.

Lemma timer_ends_quiz_within_limit_witness :
  ticks [Tick; Select 0; Tick] < getTimeLimit Level2_MainsNEET.
Proof.
  apply (timer_ends_quiz_within_limit 3 Level2_MainsNEET [Tick; Select 0; Tick]
           {| currentQuestionIndex := 0; selectedAnswers := [None; None; None];
              currentSelection := None; timeLeft := 2700 |}
           {| currentQuestionIndex := 0; selectedAnswers := [None; None; None];
              currentSelection := Some 0; timeLeft := 2698 |}).
  - lia.
  - reflexivity.
  - reflexivity.
Defined.

Section ClockFacts.

Lemma formatTimeCheckedUpTo_unfold (bound : nat) :
  formatTimeCheckedUpTo bound =
  forallb (fun s => String.eqb (formatTime (Z.of_nat s)) (clock (Z.of_nat s))) (seq 0 bound).
Proof. reflexivity. Qed.

Lemma formatTime_checked : formatTimeCheckedUpTo (Z.to_nat 6000) = true.
Proof. vm_compute. reflexivity. Qed.

End ClockFacts.

(** X23.  For every whole number of seconds from 0 to 5999 (the timer
    starts at 3600 at most), [formatTime] gives the five characters MM:SS,
    two digits of whole minutes and two digits of the remaining seconds,
    padded with zeros; a negative number is shown as 00:00. *)
Theorem formatTime_is_two_digit_clock :
  forall s : Z,
    (0 <= s < 6000 ->
       formatTime s = digitChar (s / 600) ++ digitChar ((s / 60) mod 10) ++ ":"
                        ++ digitChar ((s mod 60) / 10) ++ digitChar (s mod 10) /\
       String.length (formatTime s) = 5%nat) /\
    (s < 0 -> formatTime s = "00:00").
Proof.
  intros s. split.
  - intros Hs.
    pose proof formatTime_checked as H. rewrite formatTimeCheckedUpTo_unfold in H.
    rewrite forallb_forall in H.
    assert (Hin : In (Z.to_nat s) (seq 0 (Z.to_nat 6000))) by (apply in_seq; lia).
    pose proof (H _ Hin) as Hcell. rewrite Z2Nat.id in Hcell by lia.
    pose proof (proj1 (String.eqb_eq _ _) Hcell) as E.
    split; [exact E|]. rewrite E. reflexivity.
  - intros Hneg. unfold formatTime.
    destruct (Z.ltb_spec s 0); [reflexivity | lia].
Qed.

Lemma formatTime_is_two_digit_clock_witness :
  formatTime 2699 = "44:59".
Proof.
  destruct (formatTime_is_two_digit_clock 2699) as [H _].
  destruct H as [-> _]; [lia | reflexivity].
Defined.

(* ===================================================================== *)
(** * The quiz setup                                                      *)
(* ===================================================================== *)

Section SetupFacts.

Variable trim : string -> string.

Lemma existsb_Subject (s : Subject) (l : list Subject) :
  existsb (Subject_eqb s) l = true -> In s l.
Proof.
  intros H. apply existsb_exists in H. destruct H as (x & Hx & E).
  now destruct s, x; try discriminate.
Qed.

#[local] Abbreviation wellFormed := (wellFormed trim).

Lemma handleStart_emits (st : SetupState) (c : QuizConfig) :
  subjectOffered st ->
  snd (handleStart trim st) = Some c ->
  wellFormed c.
Proof.
  unfold handleStart, subjectOffered.
  destruct (setup_exam st) as [e|], (setup_subject st) as [s|], (setup_level st) as [l|];
    try discriminate.
  intros (e' & [= <-] & Hin).
  destruct (String.eqb_spec (trim (setup_topic st)) "") as [|Ht]; [discriminate|].
  destruct (isMergingTopics st);
    [destruct (String.eqb_spec (trim (setup_mergeTopic st)) "") as [|Hm]|];
    cbn; try discriminate; intros [= <-]; (split; [exact Hin|]);
    (split; [now right|]); cbn; intros m; [intros [= <-]; exact Hm | discriminate].
Qed.

Lemma handleStartRevisionQuiz_emits (st : SetupState) (c : QuizConfig) :
  subjectOffered st ->
  snd (handleStartRevisionQuiz st) = Some c ->
  wellFormed c.
Proof.
  unfold handleStartRevisionQuiz, subjectOffered.
  destruct (setup_exam st) as [e|], (setup_subject st) as [s|], (setup_level st) as [l|];
    try discriminate.
  intros (e' & [= <-] & Hin). cbn. intros [= <-].
  split; [exact Hin|]. split; [now left | discriminate].
Qed.

Lemma setupStep_offered (st : SetupState) (e : setupEvent) :
  subjectOffered st ->
  subjectOffered (fst (setupStep trim st e)) /\
  (forall c, snd (setupStep trim st e) = Some c -> wellFormed c).
Proof.
  intros Hok. destruct e as [ex|s|t|b|t|l| |]; cbn [setupStep].
  - split; [exact I | discriminate].
  - destruct (setup_exam st) as [ex|] eqn:E; [|split; [exact Hok | discriminate]].
    destruct (existsb (Subject_eqb s) (subjectsConfig ex)) eqn:Hs;
      [|split; [exact Hok | discriminate]].
    split; [|discriminate]. unfold subjectOffered. cbn.
    exists ex. split; [reflexivity | now apply existsb_Subject].
  - split; [exact Hok | discriminate].
  - split; [exact Hok | discriminate].
  - split; [exact Hok | discriminate].
  - split; [exact Hok | discriminate].
  - split; [|intros c; now apply handleStart_emits].
    unfold handleStart.
    destruct (setup_exam st), (setup_subject st), (setup_level st); try exact Hok.
    destruct (String.eqb (trim (setup_topic st)) ""); [exact Hok|].
    destruct (isMergingTopics st && String.eqb (trim (setup_mergeTopic st)) ""); exact Hok.
  - split; [|intros c; now apply handleStartRevisionQuiz_emits].
    unfold handleStartRevisionQuiz.
    destruct (setup_exam st), (setup_subject st), (setup_level st); exact Hok.
Qed.

Lemma setupRun_emits (events : list setupEvent) :
  forall st : SetupState,
    subjectOffered st ->
    Forall wellFormed (snd (setupRun trim st events)).
Proof.
  induction events as [|e events IH]; intros st Hok; [constructor|].
  cbn [setupRun].
  destruct (setupStep_offered st e Hok) as [Hok1 Hc].
  destruct (setupStep trim st e) as [st1 emitted]. cbn [fst snd] in *.
  specialize (IH st1 Hok1).
  destruct (setupRun trim st1 events) as [st2 later]. cbn [snd] in *.
  destruct emitted as [c|]; [constructor; [now apply Hc | exact IH] | exact IH].
Qed.

End SetupFacts.

(** X24.  Every configuration the setup view passes to [onStartQuiz],
    along any sequence of clicks and inputs from its initial state, pairs the
    exam with one of its own subjects (never Biology with JEE nor Maths with
    NEET), has a topic that is the revision sentinel or has visible text, and
    has a secondary topic only if that is not empty, so that the quiz prompt
    built for it then carries the secondary-topic sentence. *)
Theorem setup_emits_well_formed_configs :
  forall (trim : string -> string) (events : list setupEvent) (c : QuizConfig),
    In c (snd (setupRun trim initialSetup events)) ->
    In (subject c) (subjectsConfig (exam c)) /\
    (exam c = JEE -> subject c <> Biology) /\
    (exam c = NEET -> subject c <> Maths) /\
    (topic c = "Foundational Concepts" \/ trim (topic c) <> "") /\
    (forall m, mergeTopic c = Some m ->
       m <> "" /\
       includes (generateQuizPrompt c None)
         (" Please also incorporate concepts from the secondary topic " ++ dq ++ m ++ dq)
       = true).
Proof.
  intros trim events c Hin.
  pose proof (setupRun_emits trim events initialSetup I) as Hall.
  rewrite Forall_forall in Hall. destruct (Hall c Hin) as (Hs & Ht & Hm).
  split; [exact Hs|]. split; [|split; [|split; [exact Ht|]]].
  - intros E. rewrite E in Hs. cbn in Hs. intros Hb. rewrite Hb in Hs.
    destruct Hs as [H|[H|[H|[]]]]; discriminate.
  - intros E. rewrite E in Hs. cbn in Hs. intros Hb. rewrite Hb in Hs.
    destruct Hs as [H|[H|[H|[]]]]; discriminate.
  - intros m Hmt. split; [now apply Hm|].
    rewrite base_prompt_shape.
    do 3 apply includes_append_r. apply includes_append_l.
    unfold mergeSentence. rewrite Hmt.
    destruct (String.eqb_spec m "") as [E|_]; [now elim (Hm m Hmt)|].
    between ("").
Qed.

Lemma setup_emits_well_formed_configs_witness :
  In Physics (subjectsConfig JEE).
Proof.
  apply (setup_emits_well_formed_configs Examples.asciiTrim
           [ClickExam JEE; ClickSubject Physics; TypeTopic "Kinematics";
            ClickLevel Level3_Boards; ClickStart]
           Examples.kinematics).
  vm_compute. now left.
Defined.

(** X25.  The revision sentinel is an ordinary topic text: with merging
    off, pressing Start with the topic typed as "Foundational Concepts"
    passes the same configuration as the revision button, and the prompt
    built for it asks for the whole syllabus and names no primary topic
    sentence of its own. *)
Theorem typed_sentinel_starts_revision_quiz :
  forall (trim : string -> string) (st : SetupState),
    trim "Foundational Concepts" <> "" ->
    setup_topic st = "Foundational Concepts" ->
    isMergingTopics st = false ->
    snd (handleStart trim st) = snd (handleStartRevisionQuiz st) /\
    (forall c, snd (handleStart trim st) = Some c ->
       generateQuizPrompt c None =
       opening c
         ++ " The quiz should cover a mix of the most important, foundational, and frequently tested concepts from the entire "
         ++ Subject_text (subject c) ++ " syllabus for " ++ Exam_text (exam c) ++ "."
         ++ levelSentence c ++ rules).
Proof.
  intros trim st Htrim Htopic Hmerge.
  unfold handleStart, handleStartRevisionQuiz. rewrite Htopic, Hmerge.
  destruct (setup_exam st) as [e|], (setup_subject st) as [s|], (setup_level st) as [l|];
    try (split; [reflexivity | discriminate]).
  destruct (String.eqb_spec (trim "Foundational Concepts") "") as [E|_]; [now elim Htrim|].
  cbn [snd andb]. split; [reflexivity|].
  intros c [= <-]. rewrite base_prompt_shape.
  unfold topicSentence, mergeSentence.
  cbn [topic mergeTopic subject exam level]. cbn [String.eqb Ascii.eqb Bool.eqb].
  now rewrite !append_assoc.
Qed.

Lemma typed_sentinel_starts_revision_quiz_witness :
  snd (handleStart Examples.asciiTrim MoreExamples.sentinelTyped)
  = snd (handleStartRevisionQuiz MoreExamples.sentinelTyped).
Proof.
  apply (typed_sentinel_starts_revision_quiz Examples.asciiTrim MoreExamples.sentinelTyped).
  - vm_compute. discriminate.
  - reflexivity.
  - reflexivity.
Defined.

(** X26.  After a quiz is completed with one answer per question, the
    results view asks for suggestions exactly when some question was answered
    with a number other than its [correctAnswerIndex]; a quiz whose answers
    are all correct or [null] never triggers a suggestion call. *)
Theorem suggestions_fetched_only_for_wrong_answers :
  forall (s : AppState) (answers : list (option Z)) (now1 now2 : Z),
    List.length answers = List.length (questions s) ->
    let s' := snd (handleQuizCompletion answers now1 now2 s) in
    fetchesSuggestions (incorrectAnswers s') = true <->
    exists i q n,
      nth_error (questions s) i = Some q /\
      nth_error answers i = Some (Some n) /\
      n <> correctAnswerIndex q.
Proof.
  intros s answers now1 now2 H s'.
  destruct (handleQuizCompletion_completes s answers now1 now2 H)
    as (s1 & Hrun & _ & _ & Hinc & _).
  subst s'. rewrite Hrun. cbn [snd]. rewrite Hinc. unfold fetchesSuggestions.
  split.
  - intros Hpos. destruct (answeredWrong (questions s) answers) as [|ia rest] eqn:E;
      [cbn in Hpos; discriminate|].
    assert (Hin : In ia (answeredWrong (questions s) answers)) by (rewrite E; now left).
    apply answeredWrong_In in Hin. destruct Hin as (i & q & n & Hq & Ha & Hne & _).
    now exists i, q, n.
  - intros (i & q & n & Hq & Ha & Hne).
    assert (Hin : In {| asQuestion := q; userAnswerIndex := num n |}
                     (answeredWrong (questions s) answers))
      by (apply answeredWrong_In; now exists i, q, n).
    destruct (answeredWrong (questions s) answers); [destruct Hin|].
    apply Z.ltb_lt. cbn [List.length]. lia.
Qed.

Lemma suggestions_fetched_only_for_wrong_answers_witness :
  fetchesSuggestions
    (incorrectAnswers (snd (handleQuizCompletion Examples.answers23of40 0 0
                              Examples.activeForty))) = true.
Proof.
  apply (suggestions_fetched_only_for_wrong_answers
           Examples.activeForty Examples.answers23of40 0 0 eq_refl).
  exists 23%nat, Examples.q_units, 0. repeat split. discriminate.
Defined.

(* ===================================================================== *)
(** * The math renderer                                                   *)
(* ===================================================================== *)

Section MathFacts.

Import Math.

Lemma join_empty_cons (x : string) (l : list string) :
  join "" (x :: l) = x ++ join "" l.
Proof. destruct l; cbn [join]; [now rewrite append_nil_r | reflexivity]. Qed.

Lemma substring_skip (a b : string) (n : nat) :
  substring (String.length a) n (a ++ b) = substring 0 n b.
Proof. induction a as [|ch a IH]; [reflexivity | exact IH]. Qed.

Lemma substring_take (m x : string) :
  substring 0 (String.length m) (m ++ x) = m.
Proof.
  induction m as [|ch m IH]; cbn.
  - now destruct x.
  - now rewrite IH.
Qed.

Lemma endsWith_append (x suffix : string) : endsWith (x ++ suffix) suffix = true.
Proof.
  unfold endsWith. rewrite append_length.
  destruct (Nat.leb_spec (String.length suffix) (String.length x + String.length suffix));
    [|lia].
  replace (String.length x + String.length suffix - String.length suffix)%nat
    with (String.length x) by lia.
  rewrite substring_skip.
  rewrite <- (append_nil_r suffix) at 2. rewrite substring_take. apply String.eqb_refl.
Qed.

Lemma slice_between (before m after : string) :
  slice (String.length before) (String.length after) (before ++ m ++ after) = m.
Proof.
  unfold slice. rewrite !append_length.
  replace (String.length before + (String.length m + String.length after)
           - String.length after - String.length before)%nat
    with (String.length m) by lia.
  rewrite substring_skip. apply substring_take.
Qed.

Lemma untilDollar_spec (t : string) :
  forall body after,
    untilDollar t = Some (body, after) ->
    t = body ++ "$" ++ after /\ dollarFree body = true.
Proof.
  induction t as [|ch t IH]; intros body after H; [discriminate|].
  cbn [untilDollar] in H. destruct (Ascii.eqb_spec ch "$") as [->|Hne].
  - injection H as <- <-. now split.
  - destruct (untilDollar t) as [[b a]|]; [|discriminate].
    injection H as <- <-. destruct (IH b a eq_refl) as [-> Hb].
    split; [reflexivity|]. cbn [dollarFree]. rewrite Hb.
    now destruct (Ascii.eqb_spec ch "$").
Qed.

Lemma untilDollars_spec (t : string) :
  forall body after,
    untilDollars t = Some (body, after) -> t = body ++ "$$" ++ after.
Proof.
  induction t as [|ch t IH]; intros body after H; [discriminate|].
  cbn [untilDollars] in H.
  destruct (Ascii.eqb_spec ch "$") as [->|Hne].
  - destruct t as [|ch2 t2].
    + cbn in H. discriminate.
    + destruct (Ascii.eqb_spec ch2 "$") as [->|Hne2].
      * now injection H as <- <-.
      * destruct (untilDollars (String ch2 t2)) as [[b a]|]; [|discriminate].
        injection H as <- <-. now rewrite (IH b a eq_refl).
  - destruct (untilDollars t) as [[b a]|]; [|discriminate].
    injection H as <- <-. now rewrite (IH b a eq_refl).
Qed.

(** A match covers the start of the text, is at least two characters
    long, and begins and ends with a dollar sign. *)
Lemma matchAt_spec (s found after : string) :
  matchAt s = Some (found, after) ->
  s = found ++ after /\ delimited found.
Proof.
  unfold matchAt. destruct s as [|ch t]; [discriminate|].
  destruct (Ascii.eqb_spec ch "$") as [->|]; [|discriminate].
  assert (Hsingle : forall body rest,
             untilDollar t = Some (body, rest) ->
             String "$" t = ("$" ++ body ++ "$") ++ rest /\ delimited ("$" ++ body ++ "$")).
  { intros body rest Hu. destruct (untilDollar_spec t body rest Hu) as [-> _].
    split; [cbn; now rewrite append_assoc|].
    split; [apply (prefix_append "$")|]. split.
    - change ("$" ++ body ++ "$") with (("$" ++ body) ++ "$"). apply endsWith_append.
    - cbn. rewrite append_length. cbn. lia. }
  destruct t as [|ch2 t2].
  - cbn. discriminate.
  - destruct (Ascii.eqb_spec ch2 "$") as [->|Hne].
    + destruct (untilDollars t2) as [[body rest]|] eqn:Hd.
      * intros [= <- <-]. rewrite (untilDollars_spec t2 body rest Hd).
        split; [cbn; now rewrite !append_assoc|].
        split; [exact (prefix_append "$" ("$" ++ body ++ "$$"))|]. split.
        -- replace (body ++ "$$") with ((body ++ "$") ++ "$")
             by now rewrite append_assoc.
           exact (endsWith_append ("$$" ++ body ++ "$") "$").
        -- cbn. rewrite append_length. cbn. lia.
      * destruct (untilDollar (String "$" t2)) as [[body rest]|] eqn:Hu; [|discriminate].
        intros [= <- <-]. now apply Hsingle.
    + destruct (untilDollar (String ch2 t2)) as [[body rest]|] eqn:Hu; [|discriminate].
      intros [= <- <-]. now apply Hsingle.
Qed.

Lemma splitFrom_join (fuel : nat) :
  forall pending s, join "" (splitFrom fuel pending s) = pending ++ s.
Proof.
  induction fuel as [|fuel IH]; intros pending s; [reflexivity|].
  cbn [splitFrom]. destruct (matchAt s) as [[found after]|] eqn:E.
  - rewrite !join_empty_cons, IH. destruct (matchAt_spec s found after E) as [-> _].
    reflexivity.
  - destruct s as [|ch rest]; [cbn [join]; now rewrite append_nil_r|].
    rewrite IH. now rewrite append_assoc.
Qed.

Lemma splitFrom_odd (fuel : nat) :
  forall pending s, Forall delimited (oddParts (splitFrom fuel pending s)).
Proof.
  induction fuel as [|fuel IH]; intros pending s; [constructor|].
  cbn [splitFrom]. destruct (matchAt s) as [[found after]|] eqn:E.
  - cbn [oddParts]. constructor; [apply (matchAt_spec s found after E) | apply IH].
  - destruct s as [|ch rest]; [constructor | apply IH].
Qed.

(** More fuel than characters changes nothing. *)
Lemma splitFrom_fuel (fuel1 : nat) :
  forall fuel2 pending s,
    (String.length s < fuel1)%nat -> (String.length s < fuel2)%nat ->
    splitFrom fuel1 pending s = splitFrom fuel2 pending s.
Proof.
  induction fuel1 as [|fuel1 IH]; intros [|fuel2] pending s H1 H2; try lia.
  cbn [splitFrom]. destruct (matchAt s) as [[found after]|] eqn:E.
  - destruct (matchAt_spec s found after E) as [-> (_ & _ & Hlen)].
    rewrite append_length in H1, H2. f_equal. f_equal. apply IH; lia.
  - destruct s as [|ch rest]; [reflexivity|]. cbn in H1, H2. apply IH; lia.
Qed.

Lemma matchAt_not_dollar (ch : ascii) (rest : string) :
  Ascii.eqb ch "$" = false -> matchAt (String ch rest) = None.
Proof. intros H. unfold matchAt. now rewrite H. Qed.

(** Text without a dollar sign is read into the pending text. *)
Lemma splitFrom_plain (a : string) :
  dollarFree a = true ->
  forall fuel pending s,
    splitFrom (String.length a + fuel) pending (a ++ s) = splitFrom fuel (pending ++ a) s.
Proof.
  induction a as [|ch a IH]; intros Ha fuel pending s.
  - now rewrite append_nil_r.
  - cbn [dollarFree] in Ha. apply andb_prop in Ha. destruct Ha as [Hch Ha].
    apply negb_true_iff in Hch.
    cbn [String.length Nat.add append splitFrom]. rewrite (matchAt_not_dollar _ _ Hch).
    rewrite (IH Ha). now rewrite append_assoc.
Qed.

Lemma untilDollar_plain (m after : string) :
  dollarFree m = true -> untilDollar (m ++ "$" ++ after) = Some (m, after).
Proof.
  induction m as [|ch m IH]; intros Hm; [reflexivity|].
  cbn [dollarFree] in Hm. apply andb_prop in Hm. destruct Hm as [Hch Hm].
  apply negb_true_iff in Hch.
  change (untilDollar (String ch (m ++ "$" ++ after)) = Some (String ch m, after)).
  cbn [untilDollar]. now rewrite Hch, (IH Hm).
Qed.

Lemma untilDollar_none (b : string) : dollarFree b = true -> untilDollar b = None.
Proof.
  induction b as [|ch b IH]; intros Hb; [reflexivity|].
  cbn [dollarFree] in Hb. apply andb_prop in Hb. destruct Hb as [Hch Hb].
  apply negb_true_iff in Hch. cbn [untilDollar]. now rewrite Hch, (IH Hb).
Qed.

Lemma untilDollars_plain (m after : string) :
  dollarFree m = true -> untilDollars (m ++ "$$" ++ after) = Some (m, after).
Proof.
  induction m as [|ch m IH]; intros Hm; [reflexivity|].
  cbn [dollarFree] in Hm. apply andb_prop in Hm. destruct Hm as [Hch Hm].
  apply negb_true_iff in Hch.
  change (untilDollars (String ch (m ++ "$$" ++ after)) = Some (String ch m, after)).
  cbn [untilDollars]. now rewrite Hch, (IH Hm).
Qed.

Lemma renderPart_plain (a : string) : dollarFree a = true -> renderPart a = Span a.
Proof.
  intros Ha. unfold renderPart. destruct a as [|ch a]; [reflexivity|].
  cbn [dollarFree] in Ha. apply andb_prop in Ha. destruct Ha as [Hch _].
  apply negb_true_iff in Hch.
  assert (Hp : forall rest, prefix (String "$" rest) (String ch a) = false).
  { intros rest. cbn [prefix].
    destruct (ascii_dec "$" ch) as [<-|]; [now rewrite Ascii.eqb_refl in Hch | reflexivity]. }
  now rewrite !Hp.
Qed.

Lemma renderPart_not_dollar (ch : ascii) (rest : string) :
  Ascii.eqb ch "$" = false -> renderPart (String ch rest) = Span (String ch rest).
Proof.
  intros Hch. unfold renderPart.
  assert (Hp : forall more, prefix (String "$" more) (String ch rest) = false).
  { intros more. cbn [prefix].
    destruct (ascii_dec "$" ch) as [<-|]; [now rewrite Ascii.eqb_refl in Hch | reflexivity]. }
  now rewrite !Hp.
Qed.

Lemma splitFrom_odd_length (fuel : nat) :
  forall pending s, Nat.odd (List.length (splitFrom fuel pending s)) = true.
Proof.
  induction fuel as [|fuel IH]; intros pending s; [reflexivity|].
  cbn [splitFrom]. destruct (matchAt s) as [[found after]|].
  - cbn [List.length]. rewrite Nat.odd_succ, Nat.even_succ. apply IH.
  - destruct s as [|ch rest]; [reflexivity | apply IH].
Qed.

(** Text without a dollar sign in front of a text that stays whole stays
    whole, whatever the fuel. *)
Lemma splitFrom_plain_whole (a s : string) :
  dollarFree a = true ->
  (forall fuel pending, splitFrom fuel pending s = [pending ++ s]) ->
  forall fuel pending, splitFrom fuel pending (a ++ s) = [pending ++ a ++ s].
Proof.
  intros Ha Hs. induction a as [|ch a IH]; intros fuel pending; [apply Hs|].
  cbn [dollarFree] in Ha. apply andb_prop in Ha. destruct Ha as [Hch Ha].
  apply negb_true_iff in Hch. destruct fuel as [|fuel]; [reflexivity|].
  change (String ch a ++ s) with (String ch (a ++ s)).
  cbn [splitFrom]. rewrite (matchAt_not_dollar _ _ Hch), (IH Ha).
  now rewrite append_assoc.
Qed.

Lemma splitFrom_empty (fuel : nat) (pending : string) :
  splitFrom fuel pending "" = [pending ++ ""].
Proof. destruct fuel; [reflexivity | cbn; now rewrite append_nil_r]. Qed.

Lemma matchAt_lone_dollar (b : string) :
  dollarFree b = true -> matchAt (String "$" b) = None.
Proof.
  intros Hb. unfold matchAt. cbn [Ascii.eqb Bool.eqb].
  rewrite (untilDollar_none b Hb). destruct b as [|ch b]; [reflexivity|].
  cbn [dollarFree] in Hb. apply andb_prop in Hb. destruct Hb as [Hch _].
  apply negb_true_iff in Hch. now rewrite Hch.
Qed.

Lemma splitFrom_lone_dollar (b : string) :
  dollarFree b = true ->
  forall fuel pending, splitFrom fuel pending ("$" ++ b) = [pending ++ "$" ++ b].
Proof.
  intros Hb fuel pending. destruct fuel as [|fuel]; [reflexivity|].
  change ("$" ++ b) with (String "$" b).
  cbn [splitFrom]. rewrite (matchAt_lone_dollar b Hb).
  rewrite <- (append_nil_r b) at 1.
  rewrite (splitFrom_plain_whole b "" Hb splitFrom_empty).
  now rewrite !append_nil_r, append_assoc.
Qed.

Lemma endsWith_step (ch ch2 : ascii) (r : string) :
  endsWith (String ch (String ch2 r)) "$" = endsWith (String ch2 r) "$".
Proof.
  unfold endsWith. cbn [String.length Nat.leb Nat.sub].
  rewrite !Nat.sub_0_r. reflexivity.
Qed.

Lemma endsWith_dollarFree (b : string) :
  dollarFree b = true -> endsWith b "$" = false.
Proof.
  induction b as [|ch b IH]; intros Hb; [reflexivity|].
  cbn [dollarFree] in Hb. apply andb_prop in Hb. destruct Hb as [Hch Hb].
  apply negb_true_iff in Hch. destruct b as [|ch2 b].
  - unfold endsWith. cbn. now rewrite Hch.
  - rewrite endsWith_step. now apply IH.
Qed.

Lemma MathRenderer_not_empty (content : string) :
  content <> "" -> MathRenderer content = Some (map renderPart (split content)).
Proof.
  intros H. unfold MathRenderer. destruct content; [now elim H | reflexivity].
Qed.

Lemma append_not_empty (a b : string) (ch : ascii) : a ++ String ch b <> "".
Proof. now destruct a. Qed.

(** The split of a text that opens with plain text [a]. *)
Lemma split_plain_then (a s : string) :
  dollarFree a = true ->
  split (a ++ s) = splitFrom (S (String.length s)) a s.
Proof.
  intros Ha. unfold split.
  rewrite (splitFrom_fuel _ (String.length a + S (String.length s)) "" (a ++ s));
    [| rewrite append_length; lia ..].
  now rewrite (splitFrom_plain a Ha).
Qed.

Lemma matchAt_inline (m b : string) :
  dollarFree m = true -> m <> "" ->
  matchAt ("$" ++ m ++ "$" ++ b) = Some ("$" ++ m ++ "$", b).
Proof.
  intros Hm Hne. change ("$" ++ m ++ "$" ++ b) with (String "$" (m ++ "$" ++ b)).
  unfold matchAt. cbn [Ascii.eqb Bool.eqb].
  rewrite (untilDollar_plain m b Hm). destruct m as [|ch m]; [now elim Hne|].
  cbn [dollarFree] in Hm. apply andb_prop in Hm. destruct Hm as [Hch _].
  apply negb_true_iff in Hch.
  change (String ch m ++ "$" ++ b) with (String ch (m ++ "$" ++ b)).
  cbv beta iota. now rewrite Hch.
Qed.

Lemma matchAt_block (m b : string) :
  dollarFree m = true ->
  matchAt ("$$" ++ m ++ "$$" ++ b) = Some ("$$" ++ m ++ "$$", b).
Proof.
  intros Hm.
  change ("$$" ++ m ++ "$$" ++ b) with (String "$" (String "$" (m ++ "$$" ++ b))).
  unfold matchAt. cbn [Ascii.eqb Bool.eqb].
  now rewrite (untilDollars_plain m b Hm).
Qed.

Lemma renderPart_inline (m : string) :
  dollarFree m = true -> m <> "" -> renderPart ("$" ++ m ++ "$") = InlineMath m.
Proof.
  intros Hm Hne. unfold renderPart.
  assert (H2 : prefix "$$" ("$" ++ m ++ "$") = false).
  { destruct m as [|ch m]; [now elim Hne|].
    cbn [dollarFree] in Hm. apply andb_prop in Hm. destruct Hm as [Hch _].
    apply negb_true_iff in Hch.
    change ("$" ++ String ch m ++ "$") with (String "$" (String ch (m ++ "$"))).
    cbn [prefix]. destruct (ascii_dec "$" "$") as [_|ne]; [|now elim ne].
    destruct (ascii_dec "$" ch) as [<-|]; [now rewrite Ascii.eqb_refl in Hch | reflexivity]. }
  rewrite H2. cbn [andb].
  rewrite (prefix_append "$" (m ++ "$")).
  change ("$" ++ m ++ "$") with (("$" ++ m) ++ "$") at 1.
  rewrite endsWith_append. cbn [andb].
  f_equal. exact (slice_between "$" m "$").
Qed.

Lemma renderPart_block (m : string) : renderPart ("$$" ++ m ++ "$$") = BlockMath m.
Proof.
  unfold renderPart.
  rewrite (prefix_append "$$" (m ++ "$$")).
  change ("$$" ++ m ++ "$$") with (("$$" ++ m) ++ "$$") at 1.
  rewrite endsWith_append. cbn [andb].
  f_equal. exact (slice_between "$$" m "$$").
Qed.

(** X27 (MathRenderer, the split of line 98).  The split loses nothing and
    invents nothing: the parts joined give the content back.  Their number
    is odd, and every second part, from the second on, is one match of the
    pattern: at least two characters, beginning and ending with a dollar
    sign.  The scan ends before the bound on its rounds is reached: more
    rounds give the same parts. *)
Theorem split_parts_rebuild_content (content : string) :
  join "" (split content) = content /\
  Nat.odd (List.length (split content)) = true /\
  Forall delimited (oddParts (split content)) /\
  forall extra : nat,
    splitFrom (S (String.length content) + extra) "" content = split content.
Proof.
  unfold split. split; [exact (splitFrom_join _ "" content)|].
  split; [apply splitFrom_odd_length|].
  split; [apply splitFrom_odd|].
  intros extra. apply splitFrom_fuel; lia.
Qed.

(** X28 (MathRenderer, lines 92-113).  Text without a dollar sign is
    rendered as one span holding the text as written, and nothing at all
    is rendered for the empty text.  A text with one dollar sign is left
    whole too, with one exception: the text that is just the dollar sign
    begins and ends with it, so it is rendered as an inline formula with an
    empty body and the sign is not shown. *)
Theorem text_with_no_formula_is_one_span (a b : string) :
  dollarFree a = true -> dollarFree b = true ->
  MathRenderer a = (if String.eqb a "" then None else Some [Span a]) /\
  MathRenderer (a ++ "$" ++ b) =
    Some [if String.eqb (a ++ b) "" then InlineMath "" else Span (a ++ "$" ++ b)].
Proof.
  intros Ha Hb. split.
  - unfold MathRenderer. destruct (String.eqb a ""); [reflexivity|].
    unfold split. rewrite <- (append_nil_r a) at 2.
    rewrite (splitFrom_plain_whole a "" Ha splitFrom_empty).
    rewrite !append_nil_r. cbn [map append]. now rewrite (renderPart_plain a Ha).
  - rewrite MathRenderer_not_empty by apply append_not_empty.
    unfold split.
    rewrite (splitFrom_plain_whole a ("$" ++ b) Ha (splitFrom_lone_dollar b Hb)).
    cbn [map]. f_equal. f_equal.
    destruct a as [|ch a].
    + destruct b as [|ch b]; [reflexivity|].
      cbn [append String.eqb].
      cbn [dollarFree] in Hb. apply andb_prop in Hb. destruct Hb as [Hch Hb].
      apply negb_true_iff in Hch. unfold renderPart.
      assert (H2 : prefix "$$" (String "$" (String ch b)) = false).
      { cbn [prefix]. destruct (ascii_dec "$" "$") as [_|ne]; [|now elim ne].
        destruct (ascii_dec "$" ch) as [<-|]; [now rewrite Ascii.eqb_refl in Hch | reflexivity]. }
      rewrite H2. cbn [andb]. rewrite endsWith_step.
      rewrite (endsWith_dollarFree (String ch b)).
      * now rewrite andb_false_r.
      * cbn [dollarFree]. now rewrite Hch, Hb.
    + cbn [dollarFree] in Ha. apply andb_prop in Ha. destruct Ha as [Hch _].
      apply negb_true_iff in Hch.
      change (String ch a ++ b) with (String ch (a ++ b)).
      change (String ch a ++ "$" ++ b) with (String ch (a ++ "$" ++ b)).
      cbn [String.eqb]. now apply renderPart_not_dollar.
Qed.

Lemma text_with_no_formula_is_one_span_witness :
  MathRenderer "2 + 2 = 4" = Some [Span "2 + 2 = 4"] /\
  MathRenderer "costs 5$ each" = Some [Span "costs 5$ each"].
Proof.
  split.
  - exact (proj1 (text_with_no_formula_is_one_span "2 + 2 = 4" "" eq_refl eq_refl)).
  - exact (proj2 (text_with_no_formula_is_one_span "costs 5" " each" eq_refl eq_refl)).
Defined.

(** X29 (MathRenderer, lines 98-113).  A formula between dollar signs that
    follows plain text: the text before it becomes a span, the formula is
    handed over without its delimiters, inline for single and as a block for
    doubled dollar signs, and the text behind the closing delimiter is
    rendered as it would be on its own.  A formula body holds no dollar
    sign, and the inline one is not empty. *)
Theorem formula_after_plain_text (a m b : string) :
  dollarFree a = true -> dollarFree m = true ->
  (m <> "" ->
   MathRenderer (a ++ "$" ++ m ++ "$" ++ b) =
     Some (Span a :: InlineMath m :: map renderPart (split b))) /\
  MathRenderer (a ++ "$$" ++ m ++ "$$" ++ b) =
    Some (Span a :: BlockMath m :: map renderPart (split b)).
Proof.
  intros Ha Hm. split; [intros Hne|].
  - rewrite MathRenderer_not_empty by apply append_not_empty.
    rewrite (split_plain_then a _ Ha). cbn [splitFrom].
    rewrite (matchAt_inline m b Hm Hne). cbn [map].
    rewrite (renderPart_plain a Ha), (renderPart_inline m Hm Hne).
    do 4 f_equal. apply splitFrom_fuel; [|lia].
    cbn. rewrite !append_length. cbn. lia.
  - rewrite MathRenderer_not_empty by apply append_not_empty.
    rewrite (split_plain_then a _ Ha). cbn [splitFrom].
    rewrite (matchAt_block m b Hm). cbn [map].
    rewrite (renderPart_plain a Ha), (renderPart_block m).
    do 4 f_equal. apply splitFrom_fuel; [|lia].
    cbn. rewrite !append_length. cbn. lia.
Qed.

Lemma formula_after_plain_text_witness :
  MathRenderer "Area: $x^2$ units" =
    Some [Span "Area: "; InlineMath "x^2"; Span " units"] /\
  MathRenderer "Area: $$x^2$$ units" =
    Some [Span "Area: "; BlockMath "x^2"; Span " units"].
Proof.
  pose proof (formula_after_plain_text "Area: " "x^2" " units" eq_refl eq_refl) as [Hi Hb].
  split; [apply Hi; discriminate | exact Hb].
Defined.

End MathFacts.
